(** * Adaptive Liquidity Orchestrator: the vault ledger and the signed
      rebalance executor

    A shallow embedding of [contracts/VaultManager.sol] and of the
    [RebalanceExecutor] contract, with the properties of the ledger
    (share accounting, fees, authorisation) and of the signed-payload
    protocol (time window, nonce, roll-back) proved over it; and of
    the [StrategyManager] and [MockOracle] contracts beside them.

    Conventions of the embedding.
    - [uint256] values and addresses are naturals of [N], the signed
      ticks are integers of [Z]; Solidity 0.8 arithmetic is
      checked, so every [+], [-], [*] and [/] of the source is one of
      [checked_add], [checked_sub], [checked_mul], [checked_div], which
      revert with a panic where the EVM does.
    - An external function is a function from the world before the call
      to [Result]: either the value returned with the world after the
      call, or the error the call reverted with.  A reverted call leaves
      no trace: [transact] keeps the world it started from.
    - [mapping]s are finite maps ([gmap]); a key that was never written
      reads as the zero value of its type.
    - Token contracts, hashing and signature recovery are interfaces of
      the source ([IERC20], [keccak256], [ECDSA.recover]), and the
      accounts that the executor can be made to call are outside it;
      they are type classes here, and every theorem holds for every
      instance.  *)

From Stdlib Require Import NArith ZArith List Bool Lia.
From Stdlib.Strings Require Import String Byte.
From stdpp Require Import base option gmap fin_maps.

Local Open Scope N_scope.

(** ** Reverts and the result of a call *)

Inductive Error : Type :=
  (* VaultManager *)
  | VaultNotFound
  | InsufficientDeposit
  | InsufficientShares
  | UnauthorizedRelayer
  | VaultInactive
  | InvalidTokens
  | ZeroAddress
  (* RebalanceExecutor *)
  | InvalidSignature
  | PayloadExpired
  | PayloadTooOld
  | InvalidNonce
  | UnauthorizedSigner
  | ExecutionFailed
  (* require(..., reason) *)
  | ErrorString (reason : string)
  (* Ownable, Pausable, ECDSA, SafeERC20 *)
  | OwnableUnauthorizedAccount
  | EnforcedPause
  | ExpectedPause
  | ECDSAInvalidSignature
  | SafeERC20FailedOperation
  | ERC20InsufficientBalance
  | ERC20InsufficientAllowance
  (* compiler-inserted checks *)
  | PanicOverflow           (* Panic(0x11) *)
  | PanicDivisionByZero     (* Panic(0x12) *)
  | AbiDecodeFailed
  (* the loop bound of the model was reached *)
  | OutOfFuel.

Inductive Result (A : Type) : Type :=
  | Ok (a : A)
  | Revert (e : Error).
Arguments Ok {A} a.
Arguments Revert {A} e.

Definition bind {A B : Type} (m : Result A) (k : A -> Result B) : Result B :=
  match m with
  | Ok a => k a
  | Revert e => Revert e
  end.

Notation "'do' x <- m ; k" := (bind m (fun x => k))
  (at level 10, x name, m at level 100, k at level 200).

Definition require (b : bool) (e : Error) : Result unit :=
  if b then Ok tt else Revert e.

(** ** Checked 256-bit arithmetic *)

Definition MAX_UINT256 : N := 2 ^ 256 - 1.

Definition checked_add (a b : N) : Result N :=
  if a + b <=? MAX_UINT256 then Ok (a + b) else Revert PanicOverflow.

Definition checked_sub (a b : N) : Result N :=
  if b <=? a then Ok (a - b) else Revert PanicOverflow.

Definition checked_mul (a b : N) : Result N :=
  if a * b <=? MAX_UINT256 then Ok (a * b) else Revert PanicOverflow.

Definition checked_div (a b : N) : Result N :=
  if b =? 0 then Revert PanicDivisionByZero else Ok (a / b).

(** ** [VaultManager._sqrt]

    The source loops [while (z < y)]; the model bounds the loop by
    [fuel] rounds and reports [OutOfFuel] past them.  [sqrt_fuel_enough]
    below shows that 256 rounds are never used up on a [uint256]. *)

Fixpoint _sqrt_loop (fuel : nat) (x y z : N) : Result N :=
  if z <? y then
    match fuel with
    | O => Revert OutOfFuel
    | S fuel' =>
        do q <- checked_div x z;
        do s <- checked_add q z;
        _sqrt_loop fuel' x z (s / 2)
    end
  else Ok y.

Definition sqrt_fuel : nat := 256.

Definition _sqrt (x : N) : Result N :=
  if x =? 0 then Ok 0
  else
    do s <- checked_add x 1;
    _sqrt_loop sqrt_fuel x x (s / 2).

(** One Babylonian round from [y]. *)
Definition babylon (x y : N) : N := (x / y + y) / 2.

(** ** Bytes and the ABI coder *)

Abbreviation address := N (only parsing).
Abbreviation bytes := (list byte) (only parsing).

(** The big-endian value of a byte string. *)
Definition be_value (bs : bytes) : N :=
  fold_left (fun acc b => acc * 256 + Byte.to_N b) bs 0.

(** The [i]-th 32-byte word of [data]. *)
Definition abi_word (data : bytes) (i : nat) : N :=
  be_value (firstn 32 (skipn (32 * i) data)).

Definition byte_of_N (n : N) : byte :=
  match Byte.of_N (n mod 256) with Some b => b | None => x00 end.

(** The [n] low bytes of [w], most significant first. *)
Fixpoint be_bytes (n : nat) (w : N) : bytes :=
  match n with
  | O => []
  | S n' => be_bytes n' (w / 256) ++ [byte_of_N w]
  end.

(** [abi.encode] of static words. *)
Definition abi_encode (words : list N) : bytes := flat_map (be_bytes 32) words.

(** The 256-bit two's complement word of a signed integer. *)
Definition word_of_int (t : Z) : N := Z.to_N (t mod 2 ^ 256).

(** [int24] as the decoder accepts it: the word must be the sign
    extension of its low 24 bits. *)
Definition int24_of_word (w : N) : option Z :=
  if w <? 2 ^ 23 then Some (Z.of_N w)
  else if 2 ^ 256 - 2 ^ 23 <=? w then Some (Z.of_N w - 2 ^ 256)%Z
  else None.

(** [abi.decode(strategyData, (int24, int24, uint256))]. *)
Definition abi_decode_strategyData (strategyData : bytes) : Result (Z * Z * N) :=
  if (length strategyData <? 96)%nat then Revert AbiDecodeFailed
  else
    match int24_of_word (abi_word strategyData 0),
          int24_of_word (abi_word strategyData 1) with
    | Some newTickLower, Some newTickUpper =>
        Ok (newTickLower, newTickUpper, abi_word strategyData 2)
    | _, _ => Revert AbiDecodeFailed
    end.

(** ** Data model ([interfaces/IVault.sol]) *)

Module IVault.
Record VaultInfo : Type := {
  vaultId : N;
  owner : address;
  tokenA : address;
  tokenB : address;
  totalShares : N;
  totalTokenA : N;
  totalTokenB : N;
  strategy : address;
  lastRebalance : N;
  isActive : bool
}.

(** What an unwritten slot of [vaults] reads as. *)
Definition zero : VaultInfo :=
  {| vaultId := 0; owner := 0; tokenA := 0; tokenB := 0;
     totalShares := 0; totalTokenA := 0; totalTokenB := 0;
     strategy := 0; lastRebalance := 0; isActive := false |}.

Definition with_ledger (v : VaultInfo) (shares amountA amountB : N) : VaultInfo :=
  {| vaultId := vaultId v; owner := owner v; tokenA := tokenA v; tokenB := tokenB v;
     totalShares := shares; totalTokenA := amountA; totalTokenB := amountB;
     strategy := strategy v; lastRebalance := lastRebalance v; isActive := isActive v |}.

Definition with_lastRebalance (v : VaultInfo) (now : N) : VaultInfo :=
  {| vaultId := vaultId v; owner := owner v; tokenA := tokenA v; tokenB := tokenB v;
     totalShares := totalShares v; totalTokenA := totalTokenA v;
     totalTokenB := totalTokenB v;
     strategy := strategy v; lastRebalance := now; isActive := isActive v |}.

Definition with_strategy (v : VaultInfo) (a : address) : VaultInfo :=
  {| vaultId := vaultId v; owner := owner v; tokenA := tokenA v; tokenB := tokenB v;
     totalShares := totalShares v; totalTokenA := totalTokenA v;
     totalTokenB := totalTokenB v;
     strategy := a; lastRebalance := lastRebalance v; isActive := isActive v |}.
End IVault.

Module IVaultManager.
Record StrategyParams : Type := {
  tickLower : Z;
  tickUpper : Z;
  rebalanceThreshold : N;
  autoRebalance : bool
}.

Definition zero : StrategyParams :=
  {| tickLower := 0; tickUpper := 0; rebalanceThreshold := 0; autoRebalance := false |}.

Definition with_ticks (p : StrategyParams) (lower upper : Z) : StrategyParams :=
  {| tickLower := lower; tickUpper := upper;
     rebalanceThreshold := rebalanceThreshold p; autoRebalance := autoRebalance p |}.
End IVaultManager.

Module IRebalanceExecutor.
Record RebalancePayload : Type := {
  vaultId : N;
  nonce : N;
  actionData : bytes;
  issuedAt : N;
  expiry : N
}.
End IRebalanceExecutor.

Inductive Event : Type :=
  | VaultCreated (vaultId : N) (owner tokenA tokenB : address)
  | Deposit (vaultId : N) (user : address) (amountA amountB shares : N)
  | Withdraw (vaultId : N) (user : address) (shares amountA amountB : N)
  | StrategyAttached (vaultId : N) (strategy : address)
  | Rebalanced (vaultId : N) (executor : address) (detailsHash : N)
  (* the gas figure of the source's event is not modelled *)
  | RebalanceExecuted (vaultId : N) (caller : address).

(** [msg.sender] and [block.timestamp] of a call. *)
Record Msg : Type := { msg_sender : address; block_timestamp : N }.

(** ** Storage of the two contracts *)

Record VaultManagerStorage : Type := {
  vaultCount : N;
  vaults : gmap N IVault.VaultInfo;
  vaultStrategies : gmap N IVaultManager.StrategyParams;
  userShares : gmap N (gmap N N);
  authorizedRelayers : gmap N bool;
  strategyManager : address;
  protocolFeeBps : N;
  feeRecipient : address;
  (* Ownable2Step, Pausable *)
  vm_owner : address;
  vm_pendingOwner : address;
  vm_paused : bool
}.

Record RebalanceExecutorStorage : Type := {
  vaultManager : address;
  authorizedSigners : gmap N bool;
  nonces : gmap N N;
  maxPayloadAge : N;
  maxExpiryDuration : N;
  (* Ownable2Step *)
  ex_owner : address;
  ex_pendingOwner : address
}.

Definition MIN_DEPOSIT : N := 1000000.

(** Reads of the mappings: an absent key is the zero value. *)
Definition vault_at (st : VaultManagerStorage) (vaultId : N) : IVault.VaultInfo :=
  match vaults st !! vaultId with Some v => v | None => IVault.zero end.

Definition strategy_at (st : VaultManagerStorage) (vaultId : N) : IVaultManager.StrategyParams :=
  match vaultStrategies st !! vaultId with Some p => p | None => IVaultManager.zero end.

Definition shares_in (st : VaultManagerStorage) (vaultId : N) : gmap N N :=
  match userShares st !! vaultId with Some m => m | None => ∅ end.

Definition balance_in (m : gmap N N) (user : address) : N :=
  match m !! user with Some n => n | None => 0 end.

Definition getUserShares (st : VaultManagerStorage) (vaultId : N) (user : address) : N :=
  balance_in (shares_in st vaultId) user.

Definition is_relayer (st : VaultManagerStorage) (a : address) : bool :=
  match authorizedRelayers st !! a with Some b => b | None => false end.

Definition is_signer (st : RebalanceExecutorStorage) (a : address) : bool :=
  match authorizedSigners st !! a with Some b => b | None => false end.

Definition getNonce (st : RebalanceExecutorStorage) (signer : address) : N :=
  match nonces st !! signer with Some n => n | None => 0 end.

(** The sum of the share balances of one vault. *)
Definition sum_shares (m : gmap N N) : N :=
  map_fold (fun _ n acc => n + acc) 0 m.

(** Writes, one per state variable that the contracts assign. *)
Definition set_vault (st : VaultManagerStorage) (vaultId : N) (v : IVault.VaultInfo) :=
  {| vaultCount := vaultCount st; vaults := <[vaultId := v]> (vaults st);
     vaultStrategies := vaultStrategies st; userShares := userShares st;
     authorizedRelayers := authorizedRelayers st; strategyManager := strategyManager st;
     protocolFeeBps := protocolFeeBps st; feeRecipient := feeRecipient st;
     vm_owner := vm_owner st; vm_pendingOwner := vm_pendingOwner st;
     vm_paused := vm_paused st |}.

Definition set_vaultCount (st : VaultManagerStorage) (n : N) :=
  {| vaultCount := n; vaults := vaults st;
     vaultStrategies := vaultStrategies st; userShares := userShares st;
     authorizedRelayers := authorizedRelayers st; strategyManager := strategyManager st;
     protocolFeeBps := protocolFeeBps st; feeRecipient := feeRecipient st;
     vm_owner := vm_owner st; vm_pendingOwner := vm_pendingOwner st;
     vm_paused := vm_paused st |}.

Definition set_vaultStrategy (st : VaultManagerStorage) (vaultId : N)
    (p : IVaultManager.StrategyParams) :=
  {| vaultCount := vaultCount st; vaults := vaults st;
     vaultStrategies := <[vaultId := p]> (vaultStrategies st); userShares := userShares st;
     authorizedRelayers := authorizedRelayers st; strategyManager := strategyManager st;
     protocolFeeBps := protocolFeeBps st; feeRecipient := feeRecipient st;
     vm_owner := vm_owner st; vm_pendingOwner := vm_pendingOwner st;
     vm_paused := vm_paused st |}.

Definition set_userShares (st : VaultManagerStorage) (vaultId : N) (user : address) (n : N) :=
  {| vaultCount := vaultCount st; vaults := vaults st;
     vaultStrategies := vaultStrategies st;
     userShares := <[vaultId := <[user := n]> (shares_in st vaultId)]> (userShares st);
     authorizedRelayers := authorizedRelayers st; strategyManager := strategyManager st;
     protocolFeeBps := protocolFeeBps st; feeRecipient := feeRecipient st;
     vm_owner := vm_owner st; vm_pendingOwner := vm_pendingOwner st;
     vm_paused := vm_paused st |}.

Definition set_relayer (st : VaultManagerStorage) (relayer : address) (b : bool) :=
  {| vaultCount := vaultCount st; vaults := vaults st;
     vaultStrategies := vaultStrategies st; userShares := userShares st;
     authorizedRelayers := <[relayer := b]> (authorizedRelayers st);
     strategyManager := strategyManager st;
     protocolFeeBps := protocolFeeBps st; feeRecipient := feeRecipient st;
     vm_owner := vm_owner st; vm_pendingOwner := vm_pendingOwner st;
     vm_paused := vm_paused st |}.

Definition set_strategyManager (st : VaultManagerStorage) (a : address) :=
  {| vaultCount := vaultCount st; vaults := vaults st;
     vaultStrategies := vaultStrategies st; userShares := userShares st;
     authorizedRelayers := authorizedRelayers st; strategyManager := a;
     protocolFeeBps := protocolFeeBps st; feeRecipient := feeRecipient st;
     vm_owner := vm_owner st; vm_pendingOwner := vm_pendingOwner st;
     vm_paused := vm_paused st |}.

Definition set_protocolFeeBps (st : VaultManagerStorage) (n : N) :=
  {| vaultCount := vaultCount st; vaults := vaults st;
     vaultStrategies := vaultStrategies st; userShares := userShares st;
     authorizedRelayers := authorizedRelayers st; strategyManager := strategyManager st;
     protocolFeeBps := n; feeRecipient := feeRecipient st;
     vm_owner := vm_owner st; vm_pendingOwner := vm_pendingOwner st;
     vm_paused := vm_paused st |}.

Definition set_feeRecipient (st : VaultManagerStorage) (a : address) :=
  {| vaultCount := vaultCount st; vaults := vaults st;
     vaultStrategies := vaultStrategies st; userShares := userShares st;
     authorizedRelayers := authorizedRelayers st; strategyManager := strategyManager st;
     protocolFeeBps := protocolFeeBps st; feeRecipient := a;
     vm_owner := vm_owner st; vm_pendingOwner := vm_pendingOwner st;
     vm_paused := vm_paused st |}.

Definition set_vm_owners (st : VaultManagerStorage) (owner pending : address) :=
  {| vaultCount := vaultCount st; vaults := vaults st;
     vaultStrategies := vaultStrategies st; userShares := userShares st;
     authorizedRelayers := authorizedRelayers st; strategyManager := strategyManager st;
     protocolFeeBps := protocolFeeBps st; feeRecipient := feeRecipient st;
     vm_owner := owner; vm_pendingOwner := pending;
     vm_paused := vm_paused st |}.

Definition set_paused (st : VaultManagerStorage) (b : bool) :=
  {| vaultCount := vaultCount st; vaults := vaults st;
     vaultStrategies := vaultStrategies st; userShares := userShares st;
     authorizedRelayers := authorizedRelayers st; strategyManager := strategyManager st;
     protocolFeeBps := protocolFeeBps st; feeRecipient := feeRecipient st;
     vm_owner := vm_owner st; vm_pendingOwner := vm_pendingOwner st;
     vm_paused := b |}.

Definition set_vaultManager (st : RebalanceExecutorStorage) (a : address) :=
  {| vaultManager := a;
     authorizedSigners := authorizedSigners st; nonces := nonces st;
     maxPayloadAge := maxPayloadAge st; maxExpiryDuration := maxExpiryDuration st;
     ex_owner := ex_owner st; ex_pendingOwner := ex_pendingOwner st |}.

Definition set_signer (st : RebalanceExecutorStorage) (signer : address) (b : bool) :=
  {| vaultManager := vaultManager st;
     authorizedSigners := <[signer := b]> (authorizedSigners st); nonces := nonces st;
     maxPayloadAge := maxPayloadAge st; maxExpiryDuration := maxExpiryDuration st;
     ex_owner := ex_owner st; ex_pendingOwner := ex_pendingOwner st |}.

Definition set_nonce (st : RebalanceExecutorStorage) (signer : address) (n : N) :=
  {| vaultManager := vaultManager st;
     authorizedSigners := authorizedSigners st; nonces := <[signer := n]> (nonces st);
     maxPayloadAge := maxPayloadAge st; maxExpiryDuration := maxExpiryDuration st;
     ex_owner := ex_owner st; ex_pendingOwner := ex_pendingOwner st |}.

Definition set_maxPayloadAge (st : RebalanceExecutorStorage) (n : N) :=
  {| vaultManager := vaultManager st;
     authorizedSigners := authorizedSigners st; nonces := nonces st;
     maxPayloadAge := n; maxExpiryDuration := maxExpiryDuration st;
     ex_owner := ex_owner st; ex_pendingOwner := ex_pendingOwner st |}.

Definition set_maxExpiryDuration (st : RebalanceExecutorStorage) (n : N) :=
  {| vaultManager := vaultManager st;
     authorizedSigners := authorizedSigners st; nonces := nonces st;
     maxPayloadAge := maxPayloadAge st; maxExpiryDuration := n;
     ex_owner := ex_owner st; ex_pendingOwner := ex_pendingOwner st |}.

Definition set_ex_owners (st : RebalanceExecutorStorage) (owner pending : address) :=
  {| vaultManager := vaultManager st;
     authorizedSigners := authorizedSigners st; nonces := nonces st;
     maxPayloadAge := maxPayloadAge st; maxExpiryDuration := maxExpiryDuration st;
     ex_owner := owner; ex_pendingOwner := pending |}.

(** ** The interfaces the contracts call *)

(** [IERC20] behind [SafeERC20]: a transfer either yields the token
    ledger after it or reverts.  [self] is the calling contract: the
    holder for [safeTransfer], the spender for [safeTransferFrom]. *)
Class IERC20 (Ledger : Type) : Type := {
  safeTransfer : address -> address -> address -> N -> Ledger -> Result Ledger;
  safeTransferFrom : address -> address -> address -> address -> N -> Ledger -> Result Ledger
}.

(** Hashing, EIP-712, ECDSA and the decoder of the dynamic payload
    struct. [hashTypedDataV4] takes the verifying contract, whose
    address is part of the domain separator. *)
Class Primitives : Type := {
  keccak256 : bytes -> N;
  hashTypedDataV4 : address -> N -> N;
  recover : N -> bytes -> Result address;
  abi_decode_payload : bytes -> Result IRebalanceExecutor.RebalancePayload
}.

(** The accounts besides the two contracts, as the low-level call of
    the executor sees them: [call_succeeds target] is what
    [target.call(...)] returns as [success]. It is [true] of every
    account without code, where a call runs nothing and succeeds. A
    contract at [target] is taken to leave the two contracts and the
    token ledger as they are. *)
Class Accounts : Type := {
  call_succeeds : address -> bool
}.

(** ** The two contracts *)

Section Model.
Context {Ledger : Type} {tokenContracts : IERC20 Ledger} {primitives : Primitives}
        {accounts : Accounts}.

(** The chain as the two contracts see it: their addresses, their
    storage, the token ledger and the event log.  The executor calls
    the address in its slot [vaultManager], which need not be
    [vmAddress]. *)
Record World : Type := {
  vmAddress : address;
  exAddress : address;
  vmStore : VaultManagerStorage;
  exStore : RebalanceExecutorStorage;
  tokens : Ledger;
  log : list Event
}.

Definition with_vm (w : World) (st : VaultManagerStorage) : World :=
  {| vmAddress := vmAddress w; exAddress := exAddress w; vmStore := st;
     exStore := exStore w; tokens := tokens w; log := log w |}.

Definition with_ex (w : World) (st : RebalanceExecutorStorage) : World :=
  {| vmAddress := vmAddress w; exAddress := exAddress w; vmStore := vmStore w;
     exStore := st; tokens := tokens w; log := log w |}.

Definition with_tokens (w : World) (l : Ledger) : World :=
  {| vmAddress := vmAddress w; exAddress := exAddress w; vmStore := vmStore w;
     exStore := exStore w; tokens := l; log := log w |}.

Definition emit (w : World) (e : Event) : World :=
  {| vmAddress := vmAddress w; exAddress := exAddress w; vmStore := vmStore w;
     exStore := exStore w; tokens := tokens w; log := e :: log w |}.

(** *** Modifiers.  [nonReentrant] is not a step of the model: the
    guard is clear at every entry from outside, and the token ledger
    of the model does not call back. *)

Definition whenNotPaused (st : VaultManagerStorage) : Result unit :=
  require (negb (vm_paused st)) EnforcedPause.

Definition whenPaused (st : VaultManagerStorage) : Result unit :=
  require (vm_paused st) ExpectedPause.

Definition onlyOwner (owner : address) (msg : Msg) : Result unit :=
  require (msg_sender msg =? owner) OwnableUnauthorizedAccount.

(** *** VaultManager *)

Definition createVault (msg : Msg) (tokenA tokenB : address)
    (params : IVaultManager.StrategyParams) (w : World) : Result (N * World) :=
  let st := vmStore w in
  do _ <- whenNotPaused st;
  if (tokenA =? 0) || (tokenB =? 0) then Revert InvalidTokens
  else if tokenA =? tokenB then Revert InvalidTokens
  else
    do vaultId <- checked_add (vaultCount st) 1;
    let st := set_vaultCount st vaultId in
    let st := set_vault st vaultId
      {| IVault.vaultId := vaultId;
         IVault.owner := msg_sender msg;
         IVault.tokenA := tokenA;
         IVault.tokenB := tokenB;
         IVault.totalShares := 0;
         IVault.totalTokenA := 0;
         IVault.totalTokenB := 0;
         IVault.strategy := 0;
         IVault.lastRebalance := block_timestamp msg;
         IVault.isActive := true |} in
    let st := set_vaultStrategy st vaultId params in
    Ok (vaultId, emit (with_vm w st) (VaultCreated vaultId (msg_sender msg) tokenA tokenB)).

Definition deposit (msg : Msg) (vaultId amountA amountB : N) (w : World)
    : Result (N * World) :=
  let st := vmStore w in
  do _ <- whenNotPaused st;
  let vault := vault_at st vaultId in
  if IVault.owner vault =? 0 then Revert VaultNotFound
  else if negb (IVault.isActive vault) then Revert VaultInactive
  else if (amountA <? MIN_DEPOSIT) || (amountB <? MIN_DEPOSIT) then Revert InsufficientDeposit
  else
    (* Transfer tokens from user *)
    do l <- safeTransferFrom (IVault.tokenA vault) (vmAddress w)
              (msg_sender msg) (vmAddress w) amountA (tokens w);
    do l <- safeTransferFrom (IVault.tokenB vault) (vmAddress w)
              (msg_sender msg) (vmAddress w) amountB l;
    (* Calculate shares *)
    do shares <-
      (if IVault.totalShares vault =? 0 then
         do product <- checked_mul amountA amountB;
         _sqrt product
       else
         do pa <- checked_mul amountA (IVault.totalShares vault);
         do shareA <- checked_div pa (IVault.totalTokenA vault);
         do pb <- checked_mul amountB (IVault.totalShares vault);
         do shareB <- checked_div pb (IVault.totalTokenB vault);
         Ok (if shareA <? shareB then shareA else shareB));
    (* Update vault state *)
    do newShares <- checked_add (IVault.totalShares vault) shares;
    do newA <- checked_add (IVault.totalTokenA vault) amountA;
    do newB <- checked_add (IVault.totalTokenB vault) amountB;
    do newUser <- checked_add (getUserShares st vaultId (msg_sender msg)) shares;
    let st := set_vault st vaultId (IVault.with_ledger vault newShares newA newB) in
    let st := set_userShares st vaultId (msg_sender msg) newUser in
    Ok (shares,
        emit (with_tokens (with_vm w st) l)
             (Deposit vaultId (msg_sender msg) amountA amountB shares)).

Definition withdraw (msg : Msg) (vaultId shares : N) (w : World)
    : Result (N * N * World) :=
  let st := vmStore w in
  let vault := vault_at st vaultId in
  if IVault.owner vault =? 0 then Revert VaultNotFound
  else if getUserShares st vaultId (msg_sender msg) <? shares then Revert InsufficientShares
  else
    (* Calculate proportional amounts *)
    do pa <- checked_mul shares (IVault.totalTokenA vault);
    do amountA <- checked_div pa (IVault.totalShares vault);
    do pb <- checked_mul shares (IVault.totalTokenB vault);
    do amountB <- checked_div pb (IVault.totalShares vault);
    (* Update vault state *)
    do newShares <- checked_sub (IVault.totalShares vault) shares;
    do newA <- checked_sub (IVault.totalTokenA vault) amountA;
    do newB <- checked_sub (IVault.totalTokenB vault) amountB;
    do newUser <- checked_sub (getUserShares st vaultId (msg_sender msg)) shares;
    let st := set_vault st vaultId (IVault.with_ledger vault newShares newA newB) in
    let st := set_userShares st vaultId (msg_sender msg) newUser in
    (* Transfer tokens to user *)
    do l <- safeTransfer (IVault.tokenA vault) (vmAddress w) (msg_sender msg) amountA (tokens w);
    do l <- safeTransfer (IVault.tokenB vault) (vmAddress w) (msg_sender msg) amountB l;
    Ok (amountA, amountB,
        emit (with_tokens (with_vm w st) l)
             (Withdraw vaultId (msg_sender msg) shares amountA amountB)).

Definition rebalance (msg : Msg) (vaultId : N) (strategyData : bytes) (w : World)
    : Result World :=
  let st := vmStore w in
  do _ <- whenNotPaused st;
  if negb (is_relayer st (msg_sender msg)) && negb (msg_sender msg =? vm_owner st)
  then Revert UnauthorizedRelayer
  else
    let vault := vault_at st vaultId in
    if IVault.owner vault =? 0 then Revert VaultNotFound
    else if negb (IVault.isActive vault) then Revert VaultInactive
    else
      do decoded <- abi_decode_strategyData strategyData;
      let '(newTickLower, newTickUpper, _) := decoded in
      (* Update strategy parameters *)
      let params := IVaultManager.with_ticks (strategy_at st vaultId)
                      newTickLower newTickUpper in
      (* Update last rebalance timestamp *)
      let vault := IVault.with_lastRebalance vault (block_timestamp msg) in
      (* Calculate protocol fee on rebalance *)
      do pa <- checked_mul (IVault.totalTokenA vault) (protocolFeeBps st);
      let feeA := pa / 10000 in
      do pb <- checked_mul (IVault.totalTokenB vault) (protocolFeeBps st);
      let feeB := pb / 10000 in
      do paidA <-
        (if 0 <? feeA then
           do newA <- checked_sub (IVault.totalTokenA vault) feeA;
           do l <- safeTransfer (IVault.tokenA vault) (vmAddress w)
                     (feeRecipient st) feeA (tokens w);
           Ok (newA, l)
         else Ok (IVault.totalTokenA vault, tokens w));
      do paidB <-
        (if 0 <? feeB then
           do newB <- checked_sub (IVault.totalTokenB vault) feeB;
           do l <- safeTransfer (IVault.tokenB vault) (vmAddress w)
                     (feeRecipient st) feeB (snd paidA);
           Ok (newB, l)
         else Ok (IVault.totalTokenB vault, snd paidA));
      let vault := IVault.with_ledger vault (IVault.totalShares vault)
                     (fst paidA) (fst paidB) in
      let st := set_vaultStrategy st vaultId params in
      let st := set_vault st vaultId vault in
      Ok (emit (with_tokens (with_vm w st) (snd paidB))
               (Rebalanced vaultId (msg_sender msg) (keccak256 strategyData))).

Definition setStrategyManager (msg : Msg) (_strategyManager : address) (w : World)
    : Result World :=
  let st := vmStore w in
  do _ <- onlyOwner (vm_owner st) msg;
  if _strategyManager =? 0 then Revert ZeroAddress
  else Ok (with_vm w (set_strategyManager st _strategyManager)).

Definition setRelayerAuthorization (msg : Msg) (relayer : address) (authorized : bool)
    (w : World) : Result World :=
  let st := vmStore w in
  do _ <- onlyOwner (vm_owner st) msg;
  Ok (with_vm w (set_relayer st relayer authorized)).

Definition setProtocolFee (msg : Msg) (newFeeBps : N) (w : World) : Result World :=
  let st := vmStore w in
  do _ <- onlyOwner (vm_owner st) msg;
  do _ <- require (newFeeBps <=? 1000) (ErrorString "Fee too high");
  Ok (with_vm w (set_protocolFeeBps st newFeeBps)).

Definition setFeeRecipient (msg : Msg) (_feeRecipient : address) (w : World)
    : Result World :=
  let st := vmStore w in
  do _ <- onlyOwner (vm_owner st) msg;
  if _feeRecipient =? 0 then Revert ZeroAddress
  else Ok (with_vm w (set_feeRecipient st _feeRecipient)).

Definition pause (msg : Msg) (w : World) : Result World :=
  let st := vmStore w in
  do _ <- onlyOwner (vm_owner st) msg;
  do _ <- whenNotPaused st;
  Ok (with_vm w (set_paused st true)).

Definition unpause (msg : Msg) (w : World) : Result World :=
  let st := vmStore w in
  do _ <- onlyOwner (vm_owner st) msg;
  do _ <- whenPaused st;
  Ok (with_vm w (set_paused st false)).

Definition attachStrategy (msg : Msg) (vaultId : N) (strategy : address) (w : World)
    : Result World :=
  let st := vmStore w in
  let vault := vault_at st vaultId in
  if IVault.owner vault =? 0 then Revert VaultNotFound
  else
    do _ <- require ((msg_sender msg =? IVault.owner vault)
                     || (msg_sender msg =? vm_owner st)) (ErrorString "Unauthorized");
    let st := set_vault st vaultId (IVault.with_strategy vault strategy) in
    Ok (emit (with_vm w st) (StrategyAttached vaultId strategy)).

(** Ownable2Step, as the contracts inherit it: the owner names a
    successor, who takes over by accepting. *)
Definition vm_transferOwnership (msg : Msg) (newOwner : address) (w : World)
    : Result World :=
  let st := vmStore w in
  do _ <- onlyOwner (vm_owner st) msg;
  Ok (with_vm w (set_vm_owners st (vm_owner st) newOwner)).

Definition vm_acceptOwnership (msg : Msg) (w : World) : Result World :=
  let st := vmStore w in
  do _ <- require (msg_sender msg =? vm_pendingOwner st) OwnableUnauthorizedAccount;
  Ok (with_vm w (set_vm_owners st (msg_sender msg) 0)).

Definition vm_renounceOwnership (msg : Msg) (w : World) : Result World :=
  let st := vmStore w in
  do _ <- onlyOwner (vm_owner st) msg;
  Ok (with_vm w (set_vm_owners st 0 0)).

(** *** RebalanceExecutor *)

Definition REBALANCE_TYPEHASH : N :=
  keccak256 (list_byte_of_string
    "RebalancePayload(uint256 vaultId,uint256 nonce,bytes actionData,uint256 issuedAt,uint256 expiry)").

(** [vaultManager.call(abi.encodeWithSelector(rebalance.selector, ...))],
    a call to whatever address the slot [vaultManager] holds.  When
    that is the VaultManager, [rebalance] runs with the executor as
    [msg.sender]; when it reverts, its frame leaves the world as it was
    at the call and the caller reads [success = false].  The executor
    itself has no function of that selector and no fallback, so a call
    to its own address fails.  Any other account answers as
    [call_succeeds] says: an account without code with success, and
    nothing has run. *)
Definition call_rebalance (now : N) (vaultId : N) (actionData : bytes) (w : World)
    : bool * World :=
  let target := vaultManager (exStore w) in
  if target =? vmAddress w then
    match rebalance {| msg_sender := exAddress w; block_timestamp := now |}
                    vaultId actionData w with
    | Ok w' => (true, w')
    | Revert _ => (false, w)
    end
  else if target =? exAddress w then (false, w)
  else (call_succeeds target, w).

Definition executeRebalance (msg : Msg) (vaultId : N) (signedPayload signature : bytes)
    (w : World) : Result World :=
  let st := exStore w in
  (* Decode payload *)
  do payload <- abi_decode_payload signedPayload;
  (* Validate payload *)
  if negb (IRebalanceExecutor.vaultId payload =? vaultId) then Revert InvalidSignature
  else if IRebalanceExecutor.expiry payload <? block_timestamp msg then Revert PayloadExpired
  else if block_timestamp msg <? IRebalanceExecutor.issuedAt payload then Revert PayloadTooOld
  else
    do deadline <- checked_add (IRebalanceExecutor.issuedAt payload) (maxPayloadAge st);
    if deadline <? block_timestamp msg then Revert PayloadTooOld
    else
      (* Reconstruct EIP-712 hash *)
      let structHash := keccak256 (abi_encode
        [ REBALANCE_TYPEHASH;
          IRebalanceExecutor.vaultId payload;
          IRebalanceExecutor.nonce payload;
          keccak256 (IRebalanceExecutor.actionData payload);
          IRebalanceExecutor.issuedAt payload;
          IRebalanceExecutor.expiry payload ]) in
      let hash := hashTypedDataV4 (exAddress w) structHash in
      (* Recover signer *)
      do signer <- recover hash signature;
      (* Validate signer *)
      if negb (is_signer st signer) then Revert UnauthorizedSigner
      else if negb (getNonce st signer =? IRebalanceExecutor.nonce payload)
      then Revert InvalidNonce
      else
        (* Increment nonce *)
        do next <- checked_add (getNonce st signer) 1;
        let w := with_ex w (set_nonce st signer next) in
        (* Execute rebalance on VaultManager *)
        let called := call_rebalance (block_timestamp msg) vaultId
                        (IRebalanceExecutor.actionData payload) w in
        if negb (fst called) then Revert ExecutionFailed
        else Ok (emit (snd called) (RebalanceExecuted vaultId (msg_sender msg))).

Definition getPayloadHash (payload : IRebalanceExecutor.RebalancePayload) (w : World) : N :=
  let structHash := keccak256 (abi_encode
    [ REBALANCE_TYPEHASH;
      IRebalanceExecutor.vaultId payload;
      IRebalanceExecutor.nonce payload;
      keccak256 (IRebalanceExecutor.actionData payload);
      IRebalanceExecutor.issuedAt payload;
      IRebalanceExecutor.expiry payload ]) in
  hashTypedDataV4 (exAddress w) structHash.

Definition setSignerAuthorization (msg : Msg) (signer : address) (authorized : bool)
    (w : World) : Result World :=
  let st := exStore w in
  do _ <- onlyOwner (ex_owner st) msg;
  if signer =? 0 then Revert ZeroAddress
  else Ok (with_ex w (set_signer st signer authorized)).

Definition setVaultManager (msg : Msg) (_vaultManager : address) (w : World)
    : Result World :=
  let st := exStore w in
  do _ <- onlyOwner (ex_owner st) msg;
  if _vaultManager =? 0 then Revert ZeroAddress
  else Ok (with_ex w (set_vaultManager st _vaultManager)).

Definition setMaxPayloadAge (msg : Msg) (_maxAge : N) (w : World) : Result World :=
  let st := exStore w in
  do _ <- onlyOwner (ex_owner st) msg;
  Ok (with_ex w (set_maxPayloadAge st _maxAge)).

Definition setMaxExpiryDuration (msg : Msg) (_maxExpiry : N) (w : World) : Result World :=
  let st := exStore w in
  do _ <- onlyOwner (ex_owner st) msg;
  Ok (with_ex w (set_maxExpiryDuration st _maxExpiry)).

Definition ex_transferOwnership (msg : Msg) (newOwner : address) (w : World)
    : Result World :=
  let st := exStore w in
  do _ <- onlyOwner (ex_owner st) msg;
  Ok (with_ex w (set_ex_owners st (ex_owner st) newOwner)).

Definition ex_acceptOwnership (msg : Msg) (w : World) : Result World :=
  let st := exStore w in
  do _ <- require (msg_sender msg =? ex_pendingOwner st) OwnableUnauthorizedAccount;
  Ok (with_ex w (set_ex_owners st (msg_sender msg) 0)).

Definition ex_renounceOwnership (msg : Msg) (w : World) : Result World :=
  let st := exStore w in
  do _ <- onlyOwner (ex_owner st) msg;
  Ok (with_ex w (set_ex_owners st 0 0)).

(** *** Deployment and transactions *)

(** The two constructors: the VaultManager by [vmDeployer] with its fee
    recipient, and the executor by [exDeployer] with the address it is
    to call, which the deployment scripts make the VaultManager's. *)
Definition deploy (vmAddr exAddr vmDeployer exDeployer _feeRecipient _vaultManager : address)
    (l : Ledger) : Result World :=
  if _feeRecipient =? 0 then Revert ZeroAddress
  else if _vaultManager =? 0 then Revert ZeroAddress
  else
    Ok {| vmAddress := vmAddr;
          exAddress := exAddr;
          vmStore :=
            {| vaultCount := 0; vaults := ∅; vaultStrategies := ∅; userShares := ∅;
               authorizedRelayers := ∅; strategyManager := 0;
               protocolFeeBps := 50; feeRecipient := _feeRecipient;
               vm_owner := vmDeployer; vm_pendingOwner := 0; vm_paused := false |};
          exStore :=
            {| vaultManager := _vaultManager;
               authorizedSigners := ∅; nonces := ∅;
               maxPayloadAge := 600; maxExpiryDuration := 3600;
               ex_owner := exDeployer; ex_pendingOwner := 0 |};
          tokens := l;
          log := [] |}.

(** The calls an account can send. [TxTokens] stands for whatever
    happens on the token contracts between two calls (approvals,
    mints, transfers by anyone). *)
Inductive Tx : Type :=
  | TxCreateVault (tokenA tokenB : address) (params : IVaultManager.StrategyParams)
  | TxDeposit (vaultId amountA amountB : N)
  | TxWithdraw (vaultId shares : N)
  | TxRebalance (vaultId : N) (strategyData : bytes)
  | TxAttachStrategy (vaultId : N) (strategy : address)
  | TxSetStrategyManager (a : address)
  | TxSetRelayerAuthorization (relayer : address) (authorized : bool)
  | TxSetProtocolFee (newFeeBps : N)
  | TxSetFeeRecipient (a : address)
  | TxPause
  | TxUnpause
  | TxVmTransferOwnership (newOwner : address)
  | TxVmAcceptOwnership
  | TxVmRenounceOwnership
  | TxExecuteRebalance (vaultId : N) (signedPayload signature : bytes)
  | TxSetSignerAuthorization (signer : address) (authorized : bool)
  | TxSetVaultManager (a : address)
  | TxSetMaxPayloadAge (n : N)
  | TxSetMaxExpiryDuration (n : N)
  | TxExTransferOwnership (newOwner : address)
  | TxExAcceptOwnership
  | TxExRenounceOwnership
  | TxTokens (l : Ledger).

Definition run (msg : Msg) (tx : Tx) (w : World) : Result World :=
  match tx with
  | TxCreateVault tokenA tokenB params =>
      do r <- createVault msg tokenA tokenB params w; Ok (snd r)
  | TxDeposit vaultId amountA amountB =>
      do r <- deposit msg vaultId amountA amountB w; Ok (snd r)
  | TxWithdraw vaultId shares =>
      do r <- withdraw msg vaultId shares w; Ok (snd r)
  | TxRebalance vaultId strategyData => rebalance msg vaultId strategyData w
  | TxAttachStrategy vaultId strategy => attachStrategy msg vaultId strategy w
  | TxSetStrategyManager a => setStrategyManager msg a w
  | TxSetRelayerAuthorization relayer authorized =>
      setRelayerAuthorization msg relayer authorized w
  | TxSetProtocolFee newFeeBps => setProtocolFee msg newFeeBps w
  | TxSetFeeRecipient a => setFeeRecipient msg a w
  | TxPause => pause msg w
  | TxUnpause => unpause msg w
  | TxVmTransferOwnership newOwner => vm_transferOwnership msg newOwner w
  | TxVmAcceptOwnership => vm_acceptOwnership msg w
  | TxVmRenounceOwnership => vm_renounceOwnership msg w
  | TxExecuteRebalance vaultId signedPayload signature =>
      executeRebalance msg vaultId signedPayload signature w
  | TxSetSignerAuthorization signer authorized =>
      setSignerAuthorization msg signer authorized w
  | TxSetVaultManager a => setVaultManager msg a w
  | TxSetMaxPayloadAge n => setMaxPayloadAge msg n w
  | TxSetMaxExpiryDuration n => setMaxExpiryDuration msg n w
  | TxExTransferOwnership newOwner => ex_transferOwnership msg newOwner w
  | TxExAcceptOwnership => ex_acceptOwnership msg w
  | TxExRenounceOwnership => ex_renounceOwnership msg w
  | TxTokens l => Ok (with_tokens w l)
  end.

(** A transaction either commits the world its call returned or, when
    the call reverted, leaves the world it found. *)
Definition transact (w : World) (call : Msg * Tx) : World :=
  match run (fst call) (snd call) w with
  | Ok w' => w'
  | Revert _ => w
  end.

Definition transact_all (w : World) (calls : list (Msg * Tx)) : World :=
  fold_left transact calls w.

(** The worlds that a deployment and a history of transactions lead to. *)
Definition reachable (w : World) : Prop :=
  exists vmAddr exAddr vmDeployer exDeployer recipient target l w0 calls,
    deploy vmAddr exAddr vmDeployer exDeployer recipient target l = Ok w0 /\
    w = transact_all w0 calls.

(** *** Predicates of the statements *)

(** The shares of every vault add up to its [totalShares]. *)
Definition shares_conserved (st : VaultManagerStorage) : Prop :=
  forall vaultId : N,
    sum_shares (shares_in st vaultId) = IVault.totalShares (vault_at st vaultId).

(** No vault is stored past [vaultCount]. *)
Definition ids_fresh (st : VaultManagerStorage) : Prop :=
  forall vaultId : N, vaultCount st < vaultId -> vaults st !! vaultId = None.

Definition ledger_sound (st : VaultManagerStorage) : Prop :=
  shares_conserved st /\ ids_fresh st.

(** The world in which the executor makes its downstream call: the
    nonce of [signer] is already incremented. *)
Definition nonce_bumped (w : World) (signer : address) : World :=
  with_ex w (set_nonce (exStore w) signer (getNonce (exStore w) signer + 1)).

(** The payload decodes to [payload], passes every check of
    [executeRebalance] and is signed by [signer]: the call reaches its
    downstream call. *)
Definition accepted (msg : Msg) (vaultId : N) (signedPayload signature : bytes)
    (w : World) (payload : IRebalanceExecutor.RebalancePayload) (signer : address)
    : Prop :=
  abi_decode_payload signedPayload = Ok payload /\
  IRebalanceExecutor.vaultId payload = vaultId /\
  block_timestamp msg <= IRebalanceExecutor.expiry payload /\
  IRebalanceExecutor.issuedAt payload <= block_timestamp msg /\
  IRebalanceExecutor.issuedAt payload + maxPayloadAge (exStore w) <= MAX_UINT256 /\
  block_timestamp msg <= IRebalanceExecutor.issuedAt payload + maxPayloadAge (exStore w) /\
  recover (getPayloadHash payload w) signature = Ok signer /\
  is_signer (exStore w) signer = true /\
  getNonce (exStore w) signer = IRebalanceExecutor.nonce payload /\
  getNonce (exStore w) signer + 1 <= MAX_UINT256.
End Model.

(** ** An instance to run the model on

    A plain balance-and-allowance ledger in the manner of the
    repository's [MockERC20], and stand-ins for the hash, the signature
    scheme and the payload decoder.  They serve the worked examples
    only; no theorem of the development depends on them. *)

Record MockLedger : Type := {
  balanceOf : gmap (N * N) N;          (* (token, holder) *)
  allowance : gmap (N * N * N) N       (* (token, owner, spender) *)
}.

Definition mock_balance (l : MockLedger) (token holder : address) : N :=
  match balanceOf l !! (token, holder) with Some n => n | None => 0 end.

Definition mock_allowance (l : MockLedger) (token owner spender : address) : N :=
  match allowance l !! (token, owner, spender) with Some n => n | None => 0 end.

Definition mock_move (token from to : address) (value : N) (l : MockLedger)
    : Result MockLedger :=
  if mock_balance l token from <? value then Revert ERC20InsufficientBalance
  else
    let debited :=
      {| balanceOf := <[(token, from) := mock_balance l token from - value]> (balanceOf l);
         allowance := allowance l |} in
    Ok {| balanceOf := <[(token, to) := mock_balance debited token to + value]>
                         (balanceOf debited);
          allowance := allowance l |}.

Definition mock_safeTransfer (token self to : address) (value : N) (l : MockLedger)
    : Result MockLedger :=
  mock_move token self to value l.

Definition mock_safeTransferFrom (token self from to : address) (value : N)
    (l : MockLedger) : Result MockLedger :=
  if mock_allowance l token from self <? value then Revert ERC20InsufficientAllowance
  else
    mock_move token from to value
      {| balanceOf := balanceOf l;
         allowance := <[(token, from, self) := mock_allowance l token from self - value]>
                        (allowance l) |}.

Definition MockERC20 : IERC20 MockLedger :=
  {| safeTransfer := mock_safeTransfer;
     safeTransferFrom := mock_safeTransferFrom |}.

(** The stand-in digest is the value of the bytes folded into a word;
    a stand-in signature is the digest it signs followed by the signer;
    a stand-in payload is its four words followed by the action data. *)
Definition toy_keccak256 (data : bytes) : N :=
  (be_value data + N.of_nat (length data)) mod 2 ^ 256.

Definition toy_hashTypedDataV4 (verifyingContract : address) (structHash : N) : N :=
  (structHash + verifyingContract) mod 2 ^ 256.

Definition toy_recover (hash : N) (signature : bytes) : Result address :=
  if (length signature =? 64)%nat && (abi_word signature 0 =? hash)
  then Ok (abi_word signature 1)
  else Revert ECDSAInvalidSignature.

Definition toy_abi_decode_payload (data : bytes)
    : Result IRebalanceExecutor.RebalancePayload :=
  if (length data <? 128)%nat then Revert AbiDecodeFailed
  else Ok {| IRebalanceExecutor.vaultId := abi_word data 0;
             IRebalanceExecutor.nonce := abi_word data 1;
             IRebalanceExecutor.issuedAt := abi_word data 2;
             IRebalanceExecutor.expiry := abi_word data 3;
             IRebalanceExecutor.actionData := skipn 128 data |}.

Definition ToyPrimitives : Primitives :=
  {| keccak256 := toy_keccak256;
     hashTypedDataV4 := toy_hashTypedDataV4;
     recover := toy_recover;
     abi_decode_payload := toy_abi_decode_payload |}.

(** The accounts of the samples: the two tokens 11 and 12 are contracts
    without a [rebalance], every other account has no code. *)
Definition ToyAccounts : Accounts :=
  {| call_succeeds := fun target => negb (target =? 11) && negb (target =? 12) |}.

Definition toy_encode_payload (p : IRebalanceExecutor.RebalancePayload) : bytes :=
  abi_encode [ IRebalanceExecutor.vaultId p; IRebalanceExecutor.nonce p;
               IRebalanceExecutor.issuedAt p; IRebalanceExecutor.expiry p ]
  ++ IRebalanceExecutor.actionData p.

Section Samples.
#[local] Existing Instance MockERC20.
#[local] Existing Instance ToyPrimitives.
#[local] Existing Instance ToyAccounts.

Definition toy_sign (w : @World MockLedger) (p : IRebalanceExecutor.RebalancePayload)
    (signer : address) : bytes :=
  abi_encode [ getPayloadHash p w; signer ].

(** Accounts: 1 deploys and owns both contracts, 7 is a depositor,
    8 a relayer, 6 the optimizer key, 5 a stranger, 9 collects fees;
    11 and 12 are the two tokens; the VaultManager lives at 100 and
    the executor at 200. *)
Definition sample_ledger : MockLedger :=
  {| balanceOf := {[ (11, 7) := 2 ^ 130; (12, 7) := 2 ^ 130 ]};
     allowance := {[ (11, 7, 100) := 2 ^ 130; (12, 7, 100) := 2 ^ 130 ]} |}.

Definition sample_genesis : @World MockLedger :=
  {| vmAddress := 100;
     exAddress := 200;
     vmStore :=
       {| vaultCount := 0; vaults := ∅; vaultStrategies := ∅; userShares := ∅;
          authorizedRelayers := ∅; strategyManager := 0;
          protocolFeeBps := 50; feeRecipient := 9;
          vm_owner := 1; vm_pendingOwner := 0; vm_paused := false |};
     exStore :=
       {| vaultManager := 100;
          authorizedSigners := ∅; nonces := ∅;
          maxPayloadAge := 600; maxExpiryDuration := 3600;
          ex_owner := 1; ex_pendingOwner := 0 |};
     tokens := sample_ledger;
     log := [] |}.

Definition at_time (sender : address) (now : N) : Msg :=
  {| msg_sender := sender; block_timestamp := now |}.

Definition sample_params : IVaultManager.StrategyParams :=
  {| IVaultManager.tickLower := (-887220)%Z; IVaultManager.tickUpper := 887220%Z;
     IVaultManager.rebalanceThreshold := 500; IVaultManager.autoRebalance := true |}.

(** The set-up of the repository's tests: the executor and a relayer
    are authorised, a signer is registered, a vault is created. *)
Definition sample_setup : list (Msg * @Tx MockLedger) :=
  [ (at_time 1 900, TxSetRelayerAuthorization 200 true);
    (at_time 1 900, TxSetRelayerAuthorization 8 true);
    (at_time 1 900, TxSetSignerAuthorization 6 true);
    (at_time 7 900, TxCreateVault 11 12 sample_params) ].

(** Vault 1 exists and is empty. *)
Definition sample_open : World := transact_all sample_genesis sample_setup.

(** Vault 1 after a first deposit of 10 ether and 6000 units. *)
Definition sample_funded : World :=
  transact sample_open (at_time 7 950, TxDeposit 1 (10 ^ 19) (6 * 10 ^ 9)).

(** The same, paused by the owner. *)
Definition sample_paused : World := transact sample_funded (at_time 1 960, TxPause).

(** The action data of the tests: ticks -900000 and 900000, 30 percent. *)
Definition sample_action (pct : N) : bytes :=
  abi_encode [ word_of_int (-900000); word_of_int 900000; pct ].

Definition sample_payload : IRebalanceExecutor.RebalancePayload :=
  {| IRebalanceExecutor.vaultId := 1;
     IRebalanceExecutor.nonce := 0;
     IRebalanceExecutor.actionData := sample_action 30;
     IRebalanceExecutor.issuedAt := 1000;
     IRebalanceExecutor.expiry := 1500 |}.

(** A payload that expired before it was issued. *)
Definition stale_payload : IRebalanceExecutor.RebalancePayload :=
  {| IRebalanceExecutor.vaultId := 1;
     IRebalanceExecutor.nonce := 0;
     IRebalanceExecutor.actionData := sample_action 30;
     IRebalanceExecutor.issuedAt := 20;
     IRebalanceExecutor.expiry := 5 |}.

(** The payload of the tests as the relayer submits it, signed by the
    optimizer key 6. *)
Definition sample_signed : bytes := toy_encode_payload sample_payload.
Definition sample_signature : bytes := toy_sign sample_funded sample_payload 6.
Definition stale_signed : bytes := toy_encode_payload stale_payload.
Definition stale_signature : bytes := toy_sign sample_funded stale_payload 6.

(** The funded vault after the stranger 5 has relayed the payload at
    time 1000. *)
Definition sample_rebalanced : World :=
  transact sample_funded
    (at_time 5 1000, TxExecuteRebalance 1 sample_signed sample_signature).



(** The funded vault after the depositor has redeemed every share. *)
Definition sample_emptied : World :=
  transact sample_funded (at_time 7 970, TxWithdraw 1 244948974278317).
End Samples.

(** ** Predicates of the further properties *)

(** The fields of a vault that [createVault] writes and no other
    function of [VaultManager] assigns. *)
Definition same_identity (v v' : IVault.VaultInfo) : Prop :=
  IVault.vaultId v' = IVault.vaultId v /\
  IVault.owner v' = IVault.owner v /\
  IVault.tokenA v' = IVault.tokenA v /\
  IVault.tokenB v' = IVault.tokenB v /\
  IVault.isActive v' = IVault.isActive v.

(** A vault as [createVault] stores it under [vaultId]. *)
Definition well_formed (vaultId : N) (v : IVault.VaultInfo) : Prop :=
  IVault.vaultId v = vaultId /\
  IVault.isActive v = true /\
  IVault.tokenA v <> 0 /\ IVault.tokenB v <> 0 /\
  IVault.tokenA v <> IVault.tokenB v.

Definition vaults_well_formed (st : VaultManagerStorage) : Prop :=
  forall (vaultId : N) (v : IVault.VaultInfo),
    vaults st !! vaultId = Some v ->
    well_formed vaultId v /\ 1 <= vaultId <= vaultCount st.

(** What one committed call does to [vaults] and [vaultCount]: nothing,
    a write to a stored vault that keeps its identity, or the creation
    of the next vault. *)
Inductive vault_step (st st' : VaultManagerStorage) : Prop :=
  | step_same :
      vaults st' = vaults st -> vaultCount st' = vaultCount st -> vault_step st st'
  | step_update (vaultId : N) (v v' : IVault.VaultInfo) :
      vaults st !! vaultId = Some v -> same_identity v v' ->
      vaults st' = <[vaultId := v']> (vaults st) ->
      vaultCount st' = vaultCount st -> vault_step st st'
  | step_create (v' : IVault.VaultInfo) :
      well_formed (vaultCount st + 1) v' ->
      vaults st' = <[vaultCount st + 1 := v']> (vaults st) ->
      vaultCount st' = vaultCount st + 1 -> vault_step st st'.

(** The settings of [VaultManager] that only its owner assigns. *)
Definition vm_settings (st : VaultManagerStorage)
    : gmap N bool * address * N * address * address * address * bool :=
  (authorizedRelayers st, strategyManager st, protocolFeeBps st, feeRecipient st,
   vm_owner st, vm_pendingOwner st, vm_paused st).

(** The settings of [RebalanceExecutor] that only its owner assigns. *)
Definition ex_settings (st : RebalanceExecutorStorage)
    : address * gmap N bool * N * N * address * address :=
  (vaultManager st, authorizedSigners st, maxPayloadAge st, maxExpiryDuration st,
   ex_owner st, ex_pendingOwner st).

(** ** More of the ABI coder and of checked arithmetic *)

(** [abi.encode] of one string: the offset of the tail, the length,
    and the bytes padded with zeros to a multiple of 32. *)
Definition abi_encode_string (s : bytes) : bytes :=
  abi_encode [32; N.of_nat (length s)]
  ++ s ++ repeat x00 ((32 - length s mod 32) mod 32).

(** Checked [int24] arithmetic. *)
Definition MIN_INT24 : Z := (- 2 ^ 23)%Z.
Definition MAX_INT24 : Z := (2 ^ 23 - 1)%Z.

Definition checked_add_int24 (a b : Z) : Result Z :=
  if ((MIN_INT24 <=? a + b) && (a + b <=? MAX_INT24))%Z then Ok (a + b)%Z
  else Revert PanicOverflow.

Definition checked_sub_int24 (a b : Z) : Result Z :=
  if ((MIN_INT24 <=? a - b) && (a - b <=? MAX_INT24))%Z then Ok (a - b)%Z
  else Revert PanicOverflow.

(** ** StrategyManager

    [registerStrategy] and [unregisterStrategy], which flip
    [strategies] and revert with errors of their own, are left out:
    nothing else reads what they write. *)

Module StrategyManager.
Record Storage : Type := {
  strategies : gmap N bool;
  vaultManager : address;
  volatilityThreshold : N;
  rebalanceCooldown : N;
  priceOracle : address;
  lastPrices : gmap N N;
  priceTimestamps : gmap N N;
  owner : address
}.

(** The constructor, sent by [deployer]. *)
Definition deploy (deployer _vaultManager : address) : Result Storage :=
  if _vaultManager =? 0 then Revert ZeroAddress
  else Ok {| strategies := ∅; vaultManager := _vaultManager;
             volatilityThreshold := 500; rebalanceCooldown := 3600;
             priceOracle := 0; lastPrices := ∅; priceTimestamps := ∅;
             owner := deployer |}.

Definition isRegistered (st : Storage) (strategy : address) : bool :=
  match strategies st !! strategy with Some b => b | None => false end.

Definition lastPrice_at (st : Storage) (token : address) : N :=
  match lastPrices st !! token with Some p => p | None => 0 end.

Definition priceTimestamp_at (st : Storage) (token : address) : N :=
  match priceTimestamps st !! token with Some t => t | None => 0 end.

Definition updatePrice (msg : Msg) (token : address) (price : N) (st : Storage)
    : Result Storage :=
  do _ <- onlyOwner (owner st) msg;
  Ok {| strategies := strategies st; vaultManager := vaultManager st;
        volatilityThreshold := volatilityThreshold st;
        rebalanceCooldown := rebalanceCooldown st; priceOracle := priceOracle st;
        lastPrices := <[token := price]> (lastPrices st);
        priceTimestamps := <[token := block_timestamp msg]> (priceTimestamps st);
        owner := owner st |}.

Definition setVolatilityThreshold (msg : Msg) (_threshold : N) (st : Storage)
    : Result Storage :=
  do _ <- onlyOwner (owner st) msg;
  Ok {| strategies := strategies st; vaultManager := vaultManager st;
        volatilityThreshold := _threshold;
        rebalanceCooldown := rebalanceCooldown st; priceOracle := priceOracle st;
        lastPrices := lastPrices st; priceTimestamps := priceTimestamps st;
        owner := owner st |}.

Definition setRebalanceCooldown (msg : Msg) (_cooldown : N) (st : Storage)
    : Result Storage :=
  do _ <- onlyOwner (owner st) msg;
  Ok {| strategies := strategies st; vaultManager := vaultManager st;
        volatilityThreshold := volatilityThreshold st;
        rebalanceCooldown := _cooldown; priceOracle := priceOracle st;
        lastPrices := lastPrices st; priceTimestamps := priceTimestamps st;
        owner := owner st |}.

Definition setVaultManager (msg : Msg) (_vaultManager : address) (st : Storage)
    : Result Storage :=
  do _ <- onlyOwner (owner st) msg;
  if _vaultManager =? 0 then Revert ZeroAddress
  else
    Ok {| strategies := strategies st; vaultManager := _vaultManager;
          volatilityThreshold := volatilityThreshold st;
          rebalanceCooldown := rebalanceCooldown st; priceOracle := priceOracle st;
          lastPrices := lastPrices st; priceTimestamps := priceTimestamps st;
          owner := owner st |}.

Definition setPriceOracle (msg : Msg) (_oracle : address) (st : Storage)
    : Result Storage :=
  do _ <- onlyOwner (owner st) msg;
  Ok {| strategies := strategies st; vaultManager := vaultManager st;
        volatilityThreshold := volatilityThreshold st;
        rebalanceCooldown := rebalanceCooldown st; priceOracle := _oracle;
        lastPrices := lastPrices st; priceTimestamps := priceTimestamps st;
        owner := owner st |}.

Definition _calculateVolatility (now : N) (st : Storage) (tokenA tokenB : address)
    : Result N :=
  do priceAgeA <- checked_sub now (priceTimestamp_at st tokenA);
  do priceAgeB <- checked_sub now (priceTimestamp_at st tokenB);
  (* If prices are stale (>1 hour), indicate higher risk *)
  if (3600 <? priceAgeA) || (3600 <? priceAgeB) then Ok 800
  else Ok 300.

Definition getVolatility (now : N) (st : Storage) (tokenA tokenB : address) : Result N :=
  _calculateVolatility now st tokenA tokenB.

(** [manager] is the storage of the contract at [vaultManager st], read
    through its getters [getVaultInfo] and [getVaultStrategy]. *)
Definition checkRebalance (now : N) (st : Storage) (manager : VaultManagerStorage)
    (vaultId : N) : Result (bool * bytes) :=
  let vault := vault_at manager vaultId in
  let params := strategy_at manager vaultId in
  (* Check cooldown period *)
  do ready <- checked_add (IVault.lastRebalance vault) (rebalanceCooldown st);
  if now <? ready
  then Ok (false, abi_encode_string (list_byte_of_string "Cooldown not passed"))
  else
    do volatilityScore <-
      _calculateVolatility now st (IVault.tokenA vault) (IVault.tokenB vault);
    if volatilityThreshold st <=? volatilityScore then
      do newTickLower <- checked_sub_int24 (IVaultManager.tickLower params) 120;
      do newTickUpper <- checked_add_int24 (IVaultManager.tickUpper params) 120;
      let reallocatePct := 30 in
      Ok (true, abi_encode [word_of_int newTickLower; word_of_int newTickUpper;
                            reallocatePct])
    else Ok (false, abi_encode_string (list_byte_of_string "No rebalance needed")).
End StrategyManager.

(** ** MockOracle *)

Module MockOracle.
Record PriceData : Type := {
  price : N;
  timestamp : N;
  confidence : N
}.

Inductive Event : Type :=
  | PriceUpdated (token : address) (price timestamp : N).

Record Storage : Type := {
  prices : gmap N PriceData;
  priceHistory : gmap N (list N);
  maxHistoryLength : N;
  owner : address;
  log : list Event
}.

(** The constructor, sent by [deployer]. *)
Definition deploy (deployer : address) : Storage :=
  {| prices := ∅; priceHistory := ∅; maxHistoryLength := 24; owner := deployer;
     log := [] |}.

(** Panic(0x32), an index past the end of an array, and Panic(0x31),
    [pop] on an empty array. *)
Definition PanicOutOfBounds : Error := ErrorString "Panic(0x32)".
Definition PanicEmptyPop : Error := ErrorString "Panic(0x31)".

Definition price_at (st : Storage) (token : address) : PriceData :=
  match prices st !! token with
  | Some d => d
  | None => {| price := 0; timestamp := 0; confidence := 0 |}
  end.

Definition history_at (st : Storage) (token : address) : list N :=
  match priceHistory st !! token with Some h => h | None => [] end.

Definition set_price (st : Storage) (token : address) (d : PriceData) : Storage :=
  {| prices := <[token := d]> (prices st); priceHistory := priceHistory st;
     maxHistoryLength := maxHistoryLength st; owner := owner st; log := log st |}.

Definition set_history (st : Storage) (token : address) (h : list N) : Storage :=
  {| prices := prices st; priceHistory := <[token := h]> (priceHistory st);
     maxHistoryLength := maxHistoryLength st; owner := owner st; log := log st |}.

Definition emit (st : Storage) (e : Event) : Storage :=
  {| prices := prices st; priceHistory := priceHistory st;
     maxHistoryLength := maxHistoryLength st; owner := owner st; log := e :: log st |}.

(** [for (i; i < h.length - 1; i++) h[i] = h[i + 1]], from [i] on:
    [h.length - 1] underflows on an empty array and [h[i + 1]] is
    bounds-checked. The loop makes fewer than [h.length] rounds;
    [fuel] bounds them. *)
Fixpoint shift_loop (fuel : nat) (i : nat) (h : list N) : Result (list N) :=
  match length h with
  | O => Revert PanicOverflow
  | S last =>
      if (i <? last)%nat then
        match fuel with
        | O => Revert OutOfFuel
        | S fuel' =>
            match h !! S i with
            | Some next => shift_loop fuel' (S i) (<[i := next]> h)
            | None => Revert PanicOutOfBounds
            end
        end
      else Ok h
  end.

Definition pop (h : list N) : Result (list N) :=
  match h with
  | [] => Revert PanicEmptyPop
  | _ => Ok (removelast h)
  end.

Definition updatePrice (msg : Msg) (token : address) (price : N) (st : Storage)
    : Result Storage :=
  do _ <- onlyOwner (owner st) msg;
  let st := set_price st token
    {| price := price; timestamp := block_timestamp msg; confidence := 100 |} in
  (* Add to history *)
  let st := set_history st token (history_at st token ++ [price]) in
  (* Trim history if too long *)
  do st <-
    (if maxHistoryLength st <? N.of_nat (length (history_at st token)) then
       do h <- shift_loop (length (history_at st token)) 0 (history_at st token);
       do h <- pop h;
       Ok (set_history st token h)
     else Ok st);
  Ok (emit st (PriceUpdated token price (block_timestamp msg))).

(** The body of the loop of [batchUpdatePrices], over the two arrays
    side by side; the lengths are equal when it is entered. *)
Fixpoint batch_loop (now : N) (tokens newPrices : list N) (st : Storage) : Storage :=
  match tokens, newPrices with
  | token :: tokens', newPrice :: newPrices' =>
      let st := set_price st token
        {| price := newPrice; timestamp := now; confidence := 100 |} in
      let st := set_history st token (history_at st token ++ [newPrice]) in
      batch_loop now tokens' newPrices' (emit st (PriceUpdated token newPrice now))
  | _, _ => st
  end.

Definition batchUpdatePrices (msg : Msg) (tokens newPrices : list N) (st : Storage)
    : Result Storage :=
  do _ <- onlyOwner (owner st) msg;
  do _ <- require (length tokens =? length newPrices)%nat (ErrorString "Length mismatch");
  Ok (batch_loop (block_timestamp msg) tokens newPrices st).

Definition getLatestPrice (st : Storage) (token : address) : N * N :=
  let data := price_at st token in
  (price data, timestamp data).

(** The loop of [calculateVolatility]: the running sum, maximum and
    minimum over the rest of the history. *)
Fixpoint volatility_loop (history : list N) (sum maxPrice minPrice : N)
    : Result (N * N * N) :=
  match history with
  | [] => Ok (sum, maxPrice, minPrice)
  | p :: rest =>
      do sum <- checked_add sum p;
      let maxPrice := if maxPrice <? p then p else maxPrice in
      let minPrice := if p <? minPrice then p else minPrice in
      volatility_loop rest sum maxPrice minPrice
  end.

Definition calculateVolatility (st : Storage) (token : address) : Result N :=
  let history := history_at st token in
  if (length history <? 2)%nat then Ok 0
  else
    (* Calculate simple volatility as max deviation from mean *)
    do acc <- volatility_loop history 0 0 MAX_UINT256;
    let '(sum, maxPrice, minPrice) := acc in
    do meanPrice <- checked_div sum (N.of_nat (length history));
    if meanPrice =? 0 then Ok 0
    else
      (* Volatility as (max - min) / mean in basis points *)
      do spread <- checked_sub maxPrice minPrice;
      do scaled <- checked_mul spread 10000;
      checked_div scaled meanPrice.

Definition getHistoryLength (st : Storage) (token : address) : N :=
  N.of_nat (length (history_at st token)).

Definition setMaxHistoryLength (msg : Msg) (length : N) (st : Storage) : Result Storage :=
  do _ <- onlyOwner (owner st) msg;
  Ok {| prices := prices st; priceHistory := priceHistory st;
        maxHistoryLength := length; owner := owner st; log := log st |}.
End MockOracle.

(** ** More samples *)

Section MoreSamples.
#[local] Existing Instance MockERC20.
#[local] Existing Instance ToyPrimitives.
#[local] Existing Instance ToyAccounts.

(** Vault 1 after a first deposit of [10^30] and [10^6]: a share is
    worth [10^12] of token A. *)
Definition sample_skewed : @World MockLedger :=
  transact sample_open (at_time 7 950, TxDeposit 1 (10 ^ 30) (10 ^ 6)).

(** The ledger of the funded vault once the [10^19] of token 11 are
    paid back to the depositor. *)
Definition sample_half_paid : MockLedger :=
  match mock_safeTransfer 11 100 7 (10 ^ 19) (tokens sample_funded) with
  | Ok l => l
  | Revert _ => tokens sample_funded
  end.

(** An oracle of owner 1 that keeps three prices: token 11 has three,
    token 12 two equal ones. *)
Definition sample_oracle : MockOracle.Storage :=
  {| MockOracle.prices := ∅;
     MockOracle.priceHistory := {[ 11 := [1; 2; 3]; 12 := [7; 7] ]};
     MockOracle.maxHistoryLength := 3;
     MockOracle.owner := 1;
     MockOracle.log := [] |}.

(** A strategy manager of owner 1 with the settings of its constructor
    and prices recorded at times 1000 and 1200. *)
Definition sample_manager : StrategyManager.Storage :=
  {| StrategyManager.strategies := ∅;
     StrategyManager.vaultManager := 100;
     StrategyManager.volatilityThreshold := 500;
     StrategyManager.rebalanceCooldown := 3600;
     StrategyManager.priceOracle := 0;
     StrategyManager.lastPrices := {[ 11 := 600; 12 := 1 ]};
     StrategyManager.priceTimestamps := {[ 11 := 1000; 12 := 1200 ]};
     StrategyManager.owner := 1 |}.

(** The advice for the sample vault: its ticks widened by 120. *)
Definition sample_advice : bytes :=
  abi_encode [ word_of_int (-887340); word_of_int 887340; 30 ].
End MoreSamples.

(** * Facts about results, checked arithmetic and the square root *)

Lemma bind_Ok {A B} (m : Result A) (k : A -> Result B) (b : B) :
  bind m k = Ok b -> exists a, m = Ok a /\ k a = Ok b.
Proof. destruct m as [a|e]; simpl; [eauto | discriminate]. Qed.

Lemma require_Ok (b : bool) (e : Error) (u : unit) :
  require b e = Ok u -> b = true.
Proof. destruct b; simpl; [reflexivity | discriminate]. Qed.

Lemma checked_add_Ok a b c : checked_add a b = Ok c -> c = a + b /\ a + b <= MAX_UINT256.
Proof. unfold checked_add. destruct (N.leb_spec (a + b) MAX_UINT256); intros [= <-]; auto. Qed.

Lemma checked_sub_Ok a b c : checked_sub a b = Ok c -> c = a - b /\ b <= a.
Proof. unfold checked_sub. destruct (N.leb_spec b a); intros [= <-]; auto. Qed.

Lemma checked_mul_Ok a b c : checked_mul a b = Ok c -> c = a * b /\ a * b <= MAX_UINT256.
Proof. unfold checked_mul. destruct (N.leb_spec (a * b) MAX_UINT256); intros [= <-]; auto. Qed.

Lemma checked_div_Ok a b c : checked_div a b = Ok c -> c = a / b /\ b <> 0.
Proof. unfold checked_div. destruct (N.eqb_spec b 0); intros [= <-]; auto. Qed.

Lemma checked_add_fits a b : a + b <= MAX_UINT256 -> checked_add a b = Ok (a + b).
Proof. intros H. unfold checked_add. destruct (N.leb_spec (a + b) MAX_UINT256); [reflexivity | lia]. Qed.

Lemma checked_sub_fits a b : b <= a -> checked_sub a b = Ok (a - b).
Proof. intros H. unfold checked_sub. destruct (N.leb_spec b a); [reflexivity | lia]. Qed.

Lemma checked_mul_fits a b : a * b <= MAX_UINT256 -> checked_mul a b = Ok (a * b).
Proof. intros H. unfold checked_mul. destruct (N.leb_spec (a * b) MAX_UINT256); [reflexivity | lia]. Qed.

Lemma checked_div_nonzero a b : b <> 0 -> checked_div a b = Ok (a / b).
Proof. intros H. unfold checked_div. destruct (N.eqb_spec b 0); [contradiction | reflexivity]. Qed.

(** [lia] knows nothing of a quotient, not even its sign: name the
    quotients of the goal and of the hypotheses before calling it. *)
Ltac name_quotients :=
  repeat match goal with
  | |- context [N.div ?a ?b] =>
      let q := fresh "q" in set (q := N.div a b) in *; clearbody q
  | H : context [N.div ?a ?b] |- _ =>
      let q := fresh "q" in set (q := N.div a b) in *; clearbody q
  end.

Section SqrtFacts.
Variable x : N.
Hypothesis x_pos : 1 <= x.

Let s := N.sqrt x.

Lemma sqrt_bounds : s * s <= x < (s + 1) * (s + 1) /\ 1 <= s.
Proof.
  pose proof (N.sqrt_spec x ltac:(lia)) as H. cbv zeta in H.
  change (N.sqrt x) with s in H.
  split; [lia|].
  assert (s <> 0) by (intros E; rewrite E in H; lia). lia.
Qed.

(** A round never goes below the root. *)
Lemma babylon_lower y : 1 <= y -> s <= babylon x y.
Proof.
  intros Hy. destruct sqrt_bounds as [[Hlo _] Hs]. clearbody s.
  unfold babylon. apply N.div_le_lower_bound; [lia|].
  assert (Hq : 2 * s - y <= x / y).
  { apply N.div_le_lower_bound; [lia|].
    destruct (N.le_gt_cases (2 * s) y) as [Hsmall|Hbig].
    - replace (2 * s - y) with 0 by lia. lia.
    - assert (y * (2 * s - y) <= s * s); [|lia].
      zify.
      pose proof (Z.square_nonneg (Z.of_N s - Z.of_N y)). nia. }
  name_quotients. lia.
Qed.

(** Above the root, a round at least halves the distance to it. *)
Lemma babylon_halves y : s < y -> babylon x y - s <= (y - s) / 2.
Proof.
  intros Hy. destruct sqrt_bounds as [[_ Hhi] Hs]. clearbody s.
  assert (Hq : x / y <= s).
  { assert (x / y < s + 1); [|lia].
    apply N.Div0.div_lt_upper_bound. nia. }
  unfold babylon.
  assert (babylon_le : (x / y + y) / 2 <= (s + y) / 2)
    by (apply N.Div0.div_le_mono; lia).
  replace (s + y) with ((y - s) + s * 2) in babylon_le by lia.
  rewrite N.div_add in babylon_le by lia.
  name_quotients. lia.
Qed.

Lemma babylon_decreases y : s < y -> babylon x y < y.
Proof.
  intros Hy. pose proof (babylon_halves y Hy).
  assert ((y - s) / 2 < y - s) by (apply N.div_lt; lia).
  unfold babylon in *. name_quotients. lia.
Qed.

(** The sum inside a round fits a word when [x + 1] does. *)
Lemma babylon_sum_fits y : 1 <= y <= x -> x / y + y <= x + 1.
Proof.
  intros Hy. assert (Hq : x / y <= x + 1 - y).
  { apply N.Div0.div_le_upper_bound.
    assert (exists d, x = y + d) as [d ->] by (exists (x - y); lia).
    replace (y + d + 1 - y) with (d + 1) by lia. nia. }
  name_quotients. lia.
Qed.

Lemma babylon_le_x y : 1 <= y <= x -> babylon x y <= x.
Proof.
  intros Hy. pose proof (babylon_sum_fits y Hy).
  unfold babylon.
  assert ((x / y + y) / 2 <= (x + 1) / 2) by (apply N.Div0.div_le_mono; lia).
  assert ((x + 1) / 2 <= x) by (apply N.Div0.div_le_upper_bound; lia).
  name_quotients. lia.
Qed.

Hypothesis x_fits : x + 1 <= MAX_UINT256.

(** The loop, entered at [y] with [z] one round ahead, returns the
    root within [n] rounds when [y] is less than [2^n] above it. *)
Lemma sqrt_loop_converges (n : nat) :
  forall y, s <= y <= x -> y - s < 2 ^ N.of_nat n ->
    _sqrt_loop n x y (babylon x y) = Ok s.
Proof.
  destruct sqrt_bounds as [_ Hs].
  induction n as [|n IH]; intros y Hy Hd.
  - assert (y = s) by (simpl in Hd; lia). subst y.
    pose proof (babylon_lower s Hs).
    simpl. destruct (N.ltb_spec (babylon x s) s); [lia | reflexivity].
  - destruct (N.eq_dec y s) as [->|Hne].
    + pose proof (babylon_lower s Hs).
      simpl. destruct (N.ltb_spec (babylon x s) s); [lia | reflexivity].
    + assert (Hgt : s < y) by lia.
      pose proof (babylon_decreases y Hgt) as Hdec.
      pose proof (babylon_halves y Hgt) as Hhalf.
      pose proof (babylon_lower y ltac:(lia)) as Hlow.
      pose proof (babylon_le_x (babylon x y) ltac:(lia)) as Hle.
      pose proof (babylon_sum_fits (babylon x y) ltac:(lia)) as Hsum.
      cbn [_sqrt_loop].
      destruct (N.ltb_spec (babylon x y) y); [|lia].
      rewrite checked_div_nonzero by lia. cbn [bind].
      rewrite checked_add_fits by lia. cbn [bind].
      apply IH; [lia|].
      rewrite Nat2N.inj_succ, N.pow_succ_r in Hd by lia.
      assert ((y - s) / 2 < 2 ^ N.of_nat n)
        by (apply N.Div0.div_lt_upper_bound; lia).
      unfold babylon in *. name_quotients. lia.
Qed.
End SqrtFacts.

(** [_sqrt] is the integer square root on every word but the largest,
    and the 256 rounds of the model are enough. *)
Lemma sqrt_fuel_enough (x : N) :
  x < MAX_UINT256 -> _sqrt x = Ok (N.sqrt x).
Proof.
  intros Hx. unfold _sqrt.
  destruct (N.eqb_spec x 0) as [->|Hne]; [reflexivity|].
  rewrite checked_add_fits by lia. cbn [bind].
  replace ((x + 1) / 2) with (babylon x x).
  - apply sqrt_loop_converges; try lia.
    + split; [|lia]. apply N.sqrt_le_lin.
    + unfold sqrt_fuel. unfold MAX_UINT256 in Hx.
      change (N.of_nat 256) with 256. lia.
  - unfold babylon. rewrite N.div_same by lia. f_equal. lia.
Qed.

(** At the largest word the first addition [x + 1] overflows. *)
Lemma sqrt_max_reverts : _sqrt MAX_UINT256 = Revert PanicOverflow.
Proof. reflexivity. Qed.

(** * Properties *)

(** Take apart a hypothesis [H : body = Ok _] along the binds and the
    tests of [body]. *)
Ltac unravel H :=
  repeat first
    [ discriminate H
    | apply bind_Ok in H; destruct H as (? & ? & H)
    | apply require_Ok in H
    | match type of H with
      | (if ?c then _ else _) = _ => destruct c eqn:?
      | (let '(_, _) := ?p in _) = _ => destruct p
      end ].

(** Decide the tests of the goal one after the other. *)
Ltac decide_tests :=
  repeat match goal with
  | |- context [bind ?m _] => destruct m; cbn [bind]
  | |- context [if ?c then _ else _] => destruct c
  | |- context [let '(_, _) := ?p in _] => destruct p
  end.

Lemma Ok_inj {A} (a b : A) : Ok a = Ok b -> a = b.
Proof. congruence. Qed.

(** The same for every hypothesis of the context, down to the facts
    that the checked operations and the tests leave behind. *)
Ltac unravel_all :=
  repeat match goal with
  | H : bind _ _ = Ok _ |- _ => apply bind_Ok in H; destruct H as (? & ? & H)
  | H : require _ _ = Ok _ |- _ => apply require_Ok in H
  | H : (if ?c then _ else _) = Ok _ |- _ => destruct c eqn:?
  | H : (let '(_, _) := ?p in _) = Ok _ |- _ => destruct p
  | H : Revert _ = Ok _ |- _ => discriminate H
  | H : checked_add _ _ = Ok _ |- _ => apply checked_add_Ok in H; destruct H
  | H : checked_sub _ _ = Ok _ |- _ => apply checked_sub_Ok in H; destruct H
  | H : checked_mul _ _ = Ok _ |- _ => apply checked_mul_Ok in H; destruct H
  | H : checked_div _ _ = Ok _ |- _ => apply checked_div_Ok in H; destruct H
  | H : Ok _ = Ok _ |- _ => apply Ok_inj in H
  | H : (_, _) = (_, _) |- _ => injection H as ? ?
  end.

Section Properties.
Context {Ledger : Type} {tokenContracts : IERC20 Ledger} {primitives : Primitives}
        {accounts : Accounts}.

#[local] Abbreviation World := (@World Ledger).
#[local] Abbreviation Tx := (@Tx Ledger).
Implicit Types w : World.

(** ** Reads after writes *)

Lemma vault_at_set_vault st vaultId v other :
  vault_at (set_vault st vaultId v) other =
    if decide (vaultId = other) then v else vault_at st other.
Proof.
  unfold vault_at, set_vault; cbn [vaults].
  rewrite lookup_insert. destruct (decide (vaultId = other)); reflexivity.
Qed.

Lemma shares_in_set_userShares st vaultId user n other :
  shares_in (set_userShares st vaultId user n) other =
    if decide (vaultId = other) then <[user := n]> (shares_in st vaultId)
    else shares_in st other.
Proof.
  unfold shares_in at 1. unfold set_userShares; cbn [userShares].
  rewrite lookup_insert. destruct (decide (vaultId = other)); reflexivity.
Qed.

Lemma balance_in_insert (m : gmap N N) user n other :
  balance_in (<[user := n]> m) other =
    if decide (user = other) then n else balance_in m other.
Proof.
  unfold balance_in. rewrite lookup_insert.
  destruct (decide (user = other)); reflexivity.
Qed.

Lemma shares_in_set_vault st vaultId v other :
  shares_in (set_vault st vaultId v) other = shares_in st other.
Proof. reflexivity. Qed.

Lemma vault_at_set_userShares st vaultId user n other :
  vault_at (set_userShares st vaultId user n) other = vault_at st other.
Proof. reflexivity. Qed.

Lemma getUserShares_written st vaultId v user n :
  getUserShares (set_userShares (set_vault st vaultId v) vaultId user n) vaultId user = n.
Proof.
  unfold getUserShares. rewrite shares_in_set_userShares.
  destruct (decide (vaultId = vaultId)); [|congruence].
  rewrite balance_in_insert. destruct (decide (user = user)); congruence.
Qed.

Lemma vault_at_written st vaultId v user n :
  vault_at (set_userShares (set_vault st vaultId v) vaultId user n) vaultId = v.
Proof.
  rewrite vault_at_set_userShares, vault_at_set_vault.
  destruct (decide (vaultId = vaultId)); congruence.
Qed.

Lemma getNonce_set_nonce st signer n other :
  getNonce (set_nonce st signer n) other =
    if decide (signer = other) then n else getNonce st other.
Proof.
  unfold getNonce, set_nonce; cbn [nonces]. rewrite lookup_insert.
  destruct (decide (signer = other)); reflexivity.
Qed.

(** ** C10: withdrawing nothing from an empty vault *)

(** C10. In an existing vault without shares, [withdraw(vaultId, 0)]
    passes the [InsufficientShares] test and then divides by
    [totalShares = 0]: the call reverts with the division-by-zero
    panic, neither returning [(0, 0)] nor raising a named error. *)
Theorem withdraw_zero_from_empty_vault (msg : Msg) (vaultId : N) (w : World) :
  IVault.owner (vault_at (vmStore w) vaultId) <> 0 ->
  IVault.totalShares (vault_at (vmStore w) vaultId) = 0 ->
  withdraw msg vaultId 0 w = Revert PanicDivisionByZero.
Proof.
  intros Hown Hnone. unfold withdraw.
  destruct (N.eqb_spec (IVault.owner (vault_at (vmStore w) vaultId)) 0);
    [contradiction|].
  destruct (N.ltb_spec (getUserShares (vmStore w) vaultId (msg_sender msg)) 0);
    [lia|].
  rewrite Hnone. reflexivity.
Qed.

(** ** C7: who may call [rebalance] *)

(** C7, as the code has it. A direct call to [rebalance] by an account
    that is neither an authorised relayer nor the owner always reverts
    and changes nothing, whatever the vault and the action data; the
    error is [UnauthorizedRelayer] when the contract is not paused, and
    [EnforcedPause] when it is, because [whenNotPaused] runs first. *)
Theorem rebalance_unauthorized (msg : Msg) (vaultId : N) (strategyData : bytes)
    (w : World) :
  is_relayer (vmStore w) (msg_sender msg) = false ->
  msg_sender msg <> vm_owner (vmStore w) ->
  rebalance msg vaultId strategyData w =
    Revert (if vm_paused (vmStore w) then EnforcedPause else UnauthorizedRelayer)
  /\ transact w (msg, TxRebalance vaultId strategyData) = w.
Proof.
  intros Hrel Hown.
  assert (Hrev : rebalance msg vaultId strategyData w =
    Revert (if vm_paused (vmStore w) then EnforcedPause else UnauthorizedRelayer)).
  { unfold rebalance, whenNotPaused.
    destruct (vm_paused (vmStore w)); [reflexivity|]. cbn [negb require bind].
    rewrite Hrel.
    destruct (N.eqb_spec (msg_sender msg) (vm_owner (vmStore w))); [contradiction|].
    reflexivity. }
  split; [exact Hrev|].
  unfold transact; cbn [fst snd run]. rewrite Hrev. reflexivity.
Qed.

(** ** C3: the time window of a payload *)

(** C3, as the code has it. For a payload whose [vaultId] is the one
    of the call, whatever the signature: past [expiry] the call
    reverts with [PayloadExpired]; not past [expiry] but before
    [issuedAt] it reverts with [PayloadTooOld]; not past [expiry] but
    more than [maxPayloadAge] after [issuedAt] it reverts with
    [PayloadTooOld]; in each case the world is unchanged. *)
Theorem payload_time_window (msg : Msg) (vaultId : N) (signedPayload signature : bytes)
    (w : World) (payload : IRebalanceExecutor.RebalancePayload) :
  abi_decode_payload signedPayload = Ok payload ->
  IRebalanceExecutor.vaultId payload = vaultId ->
  block_timestamp msg <= MAX_UINT256 ->
  let now := block_timestamp msg in
  let call := executeRebalance msg vaultId signedPayload signature w in
  (IRebalanceExecutor.expiry payload < now -> call = Revert PayloadExpired) /\
  (now <= IRebalanceExecutor.expiry payload ->
   now < IRebalanceExecutor.issuedAt payload -> call = Revert PayloadTooOld) /\
  (now <= IRebalanceExecutor.expiry payload ->
   IRebalanceExecutor.issuedAt payload + maxPayloadAge (exStore w) < now ->
   call = Revert PayloadTooOld) /\
  (IRebalanceExecutor.expiry payload < now \/
   now < IRebalanceExecutor.issuedAt payload \/
   IRebalanceExecutor.issuedAt payload + maxPayloadAge (exStore w) < now ->
   transact w (msg, TxExecuteRebalance vaultId signedPayload signature) = w).
Proof.
  intros Hdec Hid Hnow now call.
  assert (Hexp : IRebalanceExecutor.expiry payload < now -> call = Revert PayloadExpired).
  { intros H. subst call. unfold executeRebalance. rewrite Hdec. cbn [bind].
    rewrite Hid, N.eqb_refl. cbn [negb].
    destruct (N.ltb_spec (IRebalanceExecutor.expiry payload) (block_timestamp msg));
      [reflexivity | subst now; lia]. }
  assert (Hearly : now <= IRebalanceExecutor.expiry payload ->
    now < IRebalanceExecutor.issuedAt payload -> call = Revert PayloadTooOld).
  { intros H1 H2. subst call. unfold executeRebalance. rewrite Hdec. cbn [bind].
    rewrite Hid, N.eqb_refl. cbn [negb].
    destruct (N.ltb_spec (IRebalanceExecutor.expiry payload) (block_timestamp msg));
      [subst now; lia|].
    destruct (N.ltb_spec (block_timestamp msg) (IRebalanceExecutor.issuedAt payload));
      [reflexivity | subst now; lia]. }
  assert (Hlate : now <= IRebalanceExecutor.expiry payload ->
    IRebalanceExecutor.issuedAt payload + maxPayloadAge (exStore w) < now ->
    call = Revert PayloadTooOld).
  { intros H1 H2. subst call. unfold executeRebalance. rewrite Hdec. cbn [bind].
    rewrite Hid, N.eqb_refl. cbn [negb].
    destruct (N.ltb_spec (IRebalanceExecutor.expiry payload) (block_timestamp msg));
      [subst now; lia|].
    destruct (N.ltb_spec (block_timestamp msg) (IRebalanceExecutor.issuedAt payload));
      [reflexivity|].
    rewrite checked_add_fits by (subst now; lia). cbn [bind].
    destruct (N.ltb_spec (IRebalanceExecutor.issuedAt payload + maxPayloadAge (exStore w))
                (block_timestamp msg)); [reflexivity | subst now; lia]. }
  repeat split; try assumption.
  intros Hcase. unfold transact; cbn [fst snd run]. fold call.
  assert (exists e, call = Revert e) as [e ->]; [|reflexivity].
  destruct (N.lt_ge_cases (IRebalanceExecutor.expiry payload) now) as [Hx|Hx];
    [eexists; exact (Hexp Hx)|].
  destruct Hcase as [Hc|[Hc|Hc]]; [lia | eexists; exact (Hearly Hx Hc)
                                   | eexists; exact (Hlate Hx Hc)].
Qed.

(** ** C9: [reallocatePct] is decoded and dropped *)

(** C9. Two [rebalance] calls from the same world whose action data
    decode to the same ticks and to different [reallocatePct] either
    revert alike or leave the same storage in both contracts and the
    same token ledger; the worlds differ in nothing but the hash of
    the raw bytes in the [Rebalanced] event. *)
Theorem reallocatePct_is_dead (msg : Msg) (vaultId : N) (data1 data2 : bytes)
    (w : World) (newTickLower newTickUpper : Z) (pct1 pct2 : N) :
  abi_decode_strategyData data1 = Ok (newTickLower, newTickUpper, pct1) ->
  abi_decode_strategyData data2 = Ok (newTickLower, newTickUpper, pct2) ->
  match rebalance msg vaultId data1 w, rebalance msg vaultId data2 w with
  | Ok w1, Ok w2 =>
      vmStore w1 = vmStore w2 /\ exStore w1 = exStore w2 /\ tokens w1 = tokens w2 /\
      vmAddress w1 = vmAddress w2 /\ exAddress w1 = exAddress w2 /\
      log w1 = Rebalanced vaultId (msg_sender msg) (keccak256 data1) :: log w /\
      log w2 = Rebalanced vaultId (msg_sender msg) (keccak256 data2) :: log w
  | Revert e1, Revert e2 => e1 = e2
  | _, _ => False
  end.
Proof.
  intros H1 H2. unfold rebalance. rewrite H1, H2. cbn [bind].
  decide_tests; cbn; auto 10.
Qed.

(** ** Fee arithmetic *)

Lemma fee_rounds_down (total bps : N) :
  10000 * (total * bps / 10000) <= total * bps /\
  (bps <= 1000 -> 10 * (total * bps / 10000) <= total).
Proof.
  pose proof (N.Div0.mul_div_le (total * bps) 10000) as Hfloor.
  split; [exact Hfloor|]. intros Hbps. name_quotients. nia.
Qed.

(** The fee block of [rebalance], for one token. *)
Lemma fee_block_Ok (total fee : N) (token self recipient : address)
    (l l' : Ledger) (left : N) :
  (if 0 <? fee then
     do newTotal <- checked_sub total fee;
     do l0 <- safeTransfer token self recipient fee l;
     Ok (newTotal, l0)
   else Ok (total, l)) = Ok (left, l') ->
  fee <= total /\ left = total - fee /\
  (if 0 <? fee then safeTransfer token self recipient fee l else Ok l) = Ok l'.
Proof.
  destruct (N.ltb_spec 0 fee) as [Hpos|Hzero]; intros H.
  - apply bind_Ok in H as (n & Hsub & H).
    apply bind_Ok in H as (l0 & Hmove & H).
    apply checked_sub_Ok in Hsub as [-> Hle].
    injection H as <- <-. auto.
  - injection H as <- <-. repeat split; lia.
Qed.

(** ** C5: the shares a deposit mints *)

(** C5, as the code has it. [_sqrt] returns the integer square root
    of every word below [2^256 - 1]. A deposit that succeeds was made
    to an active vault with both amounts at least [MIN_DEPOSIT], and
    mints exactly [floor(sqrt(amountA * amountB))] shares when the
    vault has none, and exactly the smaller of
    [floor(amountA * totalShares / totalTokenA)] and
    [floor(amountB * totalShares / totalTokenB)] when it has some; the
    minted shares are added to [totalShares] and to the balance of the
    caller. A deposit succeeds whenever the contract is not paused,
    the vault is active, both amounts reach the minimum, both token
    transfers succeed and every product and sum of the computation
    fits in 256 bits (with non-zero token balances under the
    proportional rule). *)
Theorem deposit_mints :
  (forall x : N, x < MAX_UINT256 -> _sqrt x = Ok (N.sqrt x)) /\
  (forall (msg : Msg) (vaultId amountA amountB : N) (w : World) (shares : N) (w' : World),
      deposit msg vaultId amountA amountB w = Ok (shares, w') ->
      let vault := vault_at (vmStore w) vaultId in
      let vault' := vault_at (vmStore w') vaultId in
      IVault.isActive vault = true /\
      MIN_DEPOSIT <= amountA /\ MIN_DEPOSIT <= amountB /\
      (IVault.totalShares vault = 0 -> shares = N.sqrt (amountA * amountB)) /\
      (IVault.totalShares vault <> 0 ->
       shares = N.min (amountA * IVault.totalShares vault / IVault.totalTokenA vault)
                      (amountB * IVault.totalShares vault / IVault.totalTokenB vault)) /\
      IVault.totalShares vault' = IVault.totalShares vault + shares /\
      IVault.totalTokenA vault' = IVault.totalTokenA vault + amountA /\
      IVault.totalTokenB vault' = IVault.totalTokenB vault + amountB /\
      getUserShares (vmStore w') vaultId (msg_sender msg)
        = getUserShares (vmStore w) vaultId (msg_sender msg) + shares) /\
  (forall (msg : Msg) (vaultId amountA amountB : N) (w : World) (l1 l2 : Ledger),
      let vault := vault_at (vmStore w) vaultId in
      let shares :=
        if IVault.totalShares vault =? 0 then N.sqrt (amountA * amountB)
        else N.min (amountA * IVault.totalShares vault / IVault.totalTokenA vault)
                   (amountB * IVault.totalShares vault / IVault.totalTokenB vault) in
      vm_paused (vmStore w) = false ->
      IVault.owner vault <> 0 ->
      IVault.isActive vault = true ->
      MIN_DEPOSIT <= amountA -> MIN_DEPOSIT <= amountB ->
      safeTransferFrom (IVault.tokenA vault) (vmAddress w) (msg_sender msg)
        (vmAddress w) amountA (tokens w) = Ok l1 ->
      safeTransferFrom (IVault.tokenB vault) (vmAddress w) (msg_sender msg)
        (vmAddress w) amountB l1 = Ok l2 ->
      (IVault.totalShares vault = 0 -> amountA * amountB < MAX_UINT256) ->
      (IVault.totalShares vault <> 0 ->
       amountA * IVault.totalShares vault <= MAX_UINT256 /\
       amountB * IVault.totalShares vault <= MAX_UINT256 /\
       IVault.totalTokenA vault <> 0 /\ IVault.totalTokenB vault <> 0) ->
      IVault.totalShares vault + shares <= MAX_UINT256 ->
      IVault.totalTokenA vault + amountA <= MAX_UINT256 ->
      IVault.totalTokenB vault + amountB <= MAX_UINT256 ->
      getUserShares (vmStore w) vaultId (msg_sender msg) + shares <= MAX_UINT256 ->
      exists w', deposit msg vaultId amountA amountB w = Ok (shares, w')).
Proof.
  split; [exact sqrt_fuel_enough|]. split.
  - intros msg vaultId amountA amountB w shares w' Hok vault vault'.
    unfold deposit in Hok. fold vault in Hok.
    apply bind_Ok in Hok as (_ & _ & Hok).
    destruct (IVault.owner vault =? 0); [discriminate|].
    destruct (IVault.isActive vault) eqn:Hactive; [|discriminate]. cbn [negb] in Hok.
    destruct (N.ltb_spec amountA MIN_DEPOSIT); [discriminate|].
    destruct (N.ltb_spec amountB MIN_DEPOSIT); [discriminate|]. cbn [orb] in Hok.
    apply bind_Ok in Hok as (l1 & _ & Hok).
    apply bind_Ok in Hok as (l2 & _ & Hok).
    apply bind_Ok in Hok as (minted & Hminted & Hok).
    apply bind_Ok in Hok as (newShares & HnewShares & Hok).
    apply bind_Ok in Hok as (newA & HnewA & Hok).
    apply bind_Ok in Hok as (newB & HnewB & Hok).
    apply bind_Ok in Hok as (newUser & HnewUser & Hok).
    apply checked_add_Ok in HnewShares as [-> _].
    apply checked_add_Ok in HnewA as [-> _].
    apply checked_add_Ok in HnewB as [-> _].
    apply checked_add_Ok in HnewUser as [-> _].
    injection Hok as <- <-.
    subst vault'. cbn [vmStore emit with_tokens with_vm].
    rewrite vault_at_written, getUserShares_written.
    cbn [IVault.with_ledger IVault.totalShares IVault.totalTokenA IVault.totalTokenB].
    repeat split; try reflexivity; try assumption.
    + intros Hnone. rewrite Hnone in Hminted. cbn [N.eqb] in Hminted.
      apply bind_Ok in Hminted as (product & Hproduct & Hroot).
      apply checked_mul_Ok in Hproduct as [-> Hfits].
      destruct (N.eq_dec (amountA * amountB) MAX_UINT256) as [Hmax|Hbelow].
      * rewrite Hmax, sqrt_max_reverts in Hroot. discriminate.
      * rewrite sqrt_fuel_enough in Hroot by lia. congruence.
    + intros Hsome. apply N.eqb_neq in Hsome. rewrite Hsome in Hminted.
      apply bind_Ok in Hminted as (pa & Hpa & Hminted).
      apply bind_Ok in Hminted as (shareA & HshareA & Hminted).
      apply bind_Ok in Hminted as (pb & Hpb & Hminted).
      apply bind_Ok in Hminted as (shareB & HshareB & Hminted).
      apply checked_mul_Ok in Hpa as [-> _]. apply checked_mul_Ok in Hpb as [-> _].
      apply checked_div_Ok in HshareA as [-> _].
      apply checked_div_Ok in HshareB as [-> _].
      apply Ok_inj in Hminted. subst minted.
      match goal with |- context [if ?a <? ?b then _ else _] =>
        destruct (N.ltb_spec a b) end.
      * symmetry. apply N.min_l. lia.
      * symmetry. apply N.min_r. lia.
  - intros msg vaultId amountA amountB w l1 l2 vault shares
      Hrun Hown Hactive HminA HminB Hmove1 Hmove2 Hfirst Hlater
      HfitShares HfitA HfitB HfitUser.
    assert (Hminted :
      (if IVault.totalShares vault =? 0 then
         do product <- checked_mul amountA amountB; _sqrt product
       else
         do pa <- checked_mul amountA (IVault.totalShares vault);
         do shareA <- checked_div pa (IVault.totalTokenA vault);
         do pb <- checked_mul amountB (IVault.totalShares vault);
         do shareB <- checked_div pb (IVault.totalTokenB vault);
         Ok (if shareA <? shareB then shareA else shareB)) = Ok shares).
    { subst shares. destruct (N.eqb_spec (IVault.totalShares vault) 0) as [Hnone|Hsome].
      - specialize (Hfirst Hnone).
        rewrite checked_mul_fits by lia. cbn [bind].
        apply sqrt_fuel_enough. exact Hfirst.
      - destruct (Hlater Hsome) as (HpA & HpB & HtA & HtB).
        rewrite checked_mul_fits by assumption. cbn [bind].
        rewrite checked_div_nonzero by assumption. cbn [bind].
        rewrite checked_mul_fits by assumption. cbn [bind].
        rewrite checked_div_nonzero by assumption. cbn [bind].
        f_equal.
        match goal with |- context [if ?a <? ?b then _ else _] =>
          destruct (N.ltb_spec a b) end.
        + symmetry. apply N.min_l. lia.
        + symmetry. apply N.min_r. lia. }
    unfold deposit, whenNotPaused. fold vault. rewrite Hrun. cbn [negb require bind].
    destruct (N.eqb_spec (IVault.owner vault) 0); [contradiction|].
    rewrite Hactive. cbn [negb].
    destruct (N.ltb_spec amountA MIN_DEPOSIT); [lia|].
    destruct (N.ltb_spec amountB MIN_DEPOSIT); [lia|]. cbn [orb].
    rewrite Hmove1. cbn [bind]. rewrite Hmove2. cbn [bind].
    rewrite Hminted. cbn [bind].
    rewrite !checked_add_fits by assumption. cbn [bind].
    eexists. reflexivity.
Qed.

(** ** C6: withdrawals *)

Lemma pro_rata_le (shares total totalShares : N) :
  shares <= totalShares -> shares * total / totalShares <= total.
Proof.
  intros Hle. apply N.Div0.div_le_upper_bound. nia.
Qed.

(** C6, as the code has it. On an existing vault, a caller who holds
    fewer shares than requested gets [InsufficientShares] and the world
    is unchanged. A withdrawal that succeeds returns exactly
    [floor(shares * totalTokenX / totalShares)] of each token and takes
    exactly these amounts and [shares] off the vault and the caller,
    none of which exceeds what it is taken from. A withdrawal succeeds
    whenever the caller holds the shares, the vault has shares
    outstanding that cover the request, both products fit in 256 bits
    and both token transfers succeed. A withdrawal that reverts changes
    nothing. *)
Theorem withdraw_exact :
  (forall (msg : Msg) (vaultId shares : N) (w : World),
      IVault.owner (vault_at (vmStore w) vaultId) <> 0 ->
      getUserShares (vmStore w) vaultId (msg_sender msg) < shares ->
      withdraw msg vaultId shares w = Revert InsufficientShares /\
      transact w (msg, TxWithdraw vaultId shares) = w) /\
  (forall (msg : Msg) (vaultId shares : N) (w : World) (amountA amountB : N) (w' : World),
      withdraw msg vaultId shares w = Ok (amountA, amountB, w') ->
      let vault := vault_at (vmStore w) vaultId in
      let vault' := vault_at (vmStore w') vaultId in
      let held := getUserShares (vmStore w) vaultId (msg_sender msg) in
      amountA = shares * IVault.totalTokenA vault / IVault.totalShares vault /\
      amountB = shares * IVault.totalTokenB vault / IVault.totalShares vault /\
      shares <= IVault.totalShares vault /\
      IVault.totalShares vault' = IVault.totalShares vault - shares /\
      amountA <= IVault.totalTokenA vault /\
      IVault.totalTokenA vault' = IVault.totalTokenA vault - amountA /\
      amountB <= IVault.totalTokenB vault /\
      IVault.totalTokenB vault' = IVault.totalTokenB vault - amountB /\
      shares <= held /\
      getUserShares (vmStore w') vaultId (msg_sender msg) = held - shares) /\
  (forall (msg : Msg) (vaultId shares : N) (w : World) (l1 l2 : Ledger),
      let vault := vault_at (vmStore w) vaultId in
      let amountA := shares * IVault.totalTokenA vault / IVault.totalShares vault in
      let amountB := shares * IVault.totalTokenB vault / IVault.totalShares vault in
      IVault.owner vault <> 0 ->
      shares <= getUserShares (vmStore w) vaultId (msg_sender msg) ->
      IVault.totalShares vault <> 0 ->
      shares <= IVault.totalShares vault ->
      shares * IVault.totalTokenA vault <= MAX_UINT256 ->
      shares * IVault.totalTokenB vault <= MAX_UINT256 ->
      safeTransfer (IVault.tokenA vault) (vmAddress w) (msg_sender msg)
        amountA (tokens w) = Ok l1 ->
      safeTransfer (IVault.tokenB vault) (vmAddress w) (msg_sender msg)
        amountB l1 = Ok l2 ->
      exists w', withdraw msg vaultId shares w = Ok (amountA, amountB, w')) /\
  (forall (msg : Msg) (vaultId shares : N) (w : World) (e : Error),
      withdraw msg vaultId shares w = Revert e ->
      transact w (msg, TxWithdraw vaultId shares) = w).
Proof.
  split; [|split; [|split]].
  - intros msg vaultId shares w Hown Hshort.
    assert (Hrev : withdraw msg vaultId shares w = Revert InsufficientShares).
    { unfold withdraw.
      destruct (N.eqb_spec (IVault.owner (vault_at (vmStore w) vaultId)) 0);
        [contradiction|].
      destruct (N.ltb_spec (getUserShares (vmStore w) vaultId (msg_sender msg)) shares);
        [reflexivity | lia]. }
    split; [exact Hrev|].
    unfold transact; cbn [fst snd run]. rewrite Hrev. reflexivity.
  - intros msg vaultId shares w amountA amountB w' Hok vault vault' held.
    unfold withdraw in Hok. fold vault held in Hok.
    destruct (IVault.owner vault =? 0); [discriminate|].
    destruct (N.ltb_spec held shares); [discriminate|].
    apply bind_Ok in Hok as (pa & Hpa & Hok).
    apply bind_Ok in Hok as (outA & HoutA & Hok).
    apply bind_Ok in Hok as (pb & Hpb & Hok).
    apply bind_Ok in Hok as (outB & HoutB & Hok).
    apply bind_Ok in Hok as (newShares & HnewShares & Hok).
    apply bind_Ok in Hok as (newA & HnewA & Hok).
    apply bind_Ok in Hok as (newB & HnewB & Hok).
    apply bind_Ok in Hok as (newUser & HnewUser & Hok).
    apply bind_Ok in Hok as (l1 & _ & Hok).
    apply bind_Ok in Hok as (l2 & _ & Hok).
    apply checked_mul_Ok in Hpa as [-> _]. apply checked_mul_Ok in Hpb as [-> _].
    apply checked_div_Ok in HoutA as [-> _]. apply checked_div_Ok in HoutB as [-> _].
    apply checked_sub_Ok in HnewShares as [-> HleShares].
    apply checked_sub_Ok in HnewA as [-> HleA].
    apply checked_sub_Ok in HnewB as [-> HleB].
    apply checked_sub_Ok in HnewUser as [-> HleUser].
    injection Hok as <- <- <-.
    subst vault'. cbn [vmStore emit with_tokens with_vm].
    rewrite vault_at_written, getUserShares_written.
    cbn [IVault.with_ledger IVault.totalShares IVault.totalTokenA IVault.totalTokenB].
    repeat split; try reflexivity; assumption.
  - intros msg vaultId shares w l1 l2 vault amountA amountB
      Hown Hheld Hsome Hcovered HfitA HfitB Hmove1 Hmove2.
    pose proof (pro_rata_le shares (IVault.totalTokenA vault) _ Hcovered) as HleA.
    pose proof (pro_rata_le shares (IVault.totalTokenB vault) _ Hcovered) as HleB.
    fold amountA in HleA. fold amountB in HleB.
    unfold withdraw. fold vault.
    destruct (N.eqb_spec (IVault.owner vault) 0); [contradiction|].
    destruct (N.ltb_spec (getUserShares (vmStore w) vaultId (msg_sender msg)) shares);
      [lia|].
    rewrite checked_mul_fits by assumption. cbn [bind].
    rewrite checked_div_nonzero by assumption. cbn [bind].
    rewrite checked_mul_fits by assumption. cbn [bind].
    rewrite checked_div_nonzero by assumption. cbn [bind].
    fold amountA amountB.
    rewrite !checked_sub_fits by assumption. cbn [bind].
    rewrite Hmove1. cbn [bind]. rewrite Hmove2. cbn [bind].
    eexists. reflexivity.
  - intros msg vaultId shares w e Hrev.
    unfold transact; cbn [fst snd run]. rewrite Hrev. reflexivity.
Qed.

(** ** Frames: what each call leaves alone *)

Lemma rebalance_frame (msg : Msg) (vaultId : N) (strategyData : bytes) (w w' : World) :
  rebalance msg vaultId strategyData w = Ok w' ->
  exStore w' = exStore w /\ vmAddress w' = vmAddress w /\ exAddress w' = exAddress w /\
  IVault.owner (vault_at (vmStore w) vaultId) <> 0 /\
  exists p v,
    IVault.totalShares v = IVault.totalShares (vault_at (vmStore w) vaultId) /\
    vmStore w' = set_vault (set_vaultStrategy (vmStore w) vaultId p) vaultId v.
Proof.
  intros H. unfold rebalance in H.
  apply bind_Ok in H as (_ & _ & H).
  destruct (negb (is_relayer (vmStore w) (msg_sender msg))
            && negb (msg_sender msg =? vm_owner (vmStore w))); [discriminate|].
  destruct (N.eqb_spec (IVault.owner (vault_at (vmStore w) vaultId)) 0); [discriminate|].
  destruct (negb (IVault.isActive (vault_at (vmStore w) vaultId))); [discriminate|].
  apply bind_Ok in H as ([[lower upper] pct] & _ & H).
  apply bind_Ok in H as (pa & _ & H).
  apply bind_Ok in H as (pb & _ & H).
  apply bind_Ok in H as (paidA & _ & H).
  apply bind_Ok in H as (paidB & _ & H).
  apply Ok_inj in H. subst w'. cbn [exStore vmAddress exAddress vmStore emit with_tokens with_vm].
  do 3 (split; [reflexivity|]). split; [assumption|].
  eexists _, _. split; [|reflexivity]. reflexivity.
Qed.

Lemma call_rebalance_frame (now vaultId : N) (actionData : bytes) (w : World) :
  let called := call_rebalance now vaultId actionData w in
  exStore (snd called) = exStore w /\ vmAddress (snd called) = vmAddress w /\
  exAddress (snd called) = exAddress w.
Proof.
  unfold call_rebalance. cbv zeta.
  destruct (vaultManager (exStore w) =? vmAddress w).
  - destruct (rebalance _ vaultId actionData w) as [w'|e] eqn:H; cbn [snd]; [|auto].
    apply rebalance_frame in H. tauto.
  - destruct (vaultManager (exStore w) =? exAddress w); cbn [snd]; auto.
Qed.

(** A call that reports success has run [rebalance] on the VaultManager
    or, at another address, has run nothing. *)
Lemma call_rebalance_true (now vaultId : N) (actionData : bytes) (w w2 : World) :
  call_rebalance now vaultId actionData w = (true, w2) ->
  (vaultManager (exStore w) = vmAddress w /\
   rebalance {| msg_sender := exAddress w; block_timestamp := now |}
     vaultId actionData w = Ok w2) \/
  (vaultManager (exStore w) <> vmAddress w /\
   vaultManager (exStore w) <> exAddress w /\
   call_succeeds (vaultManager (exStore w)) = true /\ w2 = w).
Proof.
  unfold call_rebalance. cbv zeta. intros H.
  destruct (N.eqb_spec (vaultManager (exStore w)) (vmAddress w)) as [Hvm|Hvm].
  - left. split; [exact Hvm|].
    destruct (rebalance _ vaultId actionData w) as [w'|e]; [|discriminate].
    congruence.
  - right. destruct (N.eqb_spec (vaultManager (exStore w)) (exAddress w)) as [Hex|Hex];
      [discriminate|].
    injection H as Hcall <-. auto.
Qed.

(** ** The executor, once the checks are passed *)

Lemma executeRebalance_accepted (msg : Msg) (vaultId : N) (signedPayload signature : bytes)
    (w : World) (payload : IRebalanceExecutor.RebalancePayload) (signer : address) :
  accepted msg vaultId signedPayload signature w payload signer ->
  executeRebalance msg vaultId signedPayload signature w =
    let called := call_rebalance (block_timestamp msg) vaultId
                    (IRebalanceExecutor.actionData payload) (nonce_bumped w signer) in
    if negb (fst called) then Revert ExecutionFailed
    else Ok (emit (snd called) (RebalanceExecuted vaultId (msg_sender msg))).
Proof.
  intros (Hdec & Hid & Hexp & Hiss & Hfit & Hage & Hrec & Hauth & Hnonce & Hnext).
  unfold executeRebalance. rewrite Hdec. cbn [bind].
  destruct (N.eqb_spec (IRebalanceExecutor.vaultId payload) vaultId); [|contradiction].
  cbn [negb].
  destruct (N.ltb_spec (IRebalanceExecutor.expiry payload) (block_timestamp msg)); [lia|].
  destruct (N.ltb_spec (block_timestamp msg) (IRebalanceExecutor.issuedAt payload)); [lia|].
  rewrite checked_add_fits by assumption. cbn [bind].
  destruct (N.ltb_spec (IRebalanceExecutor.issuedAt payload + maxPayloadAge (exStore w))
              (block_timestamp msg)); [lia|].
  unfold getPayloadHash in Hrec. cbv zeta in Hrec.
  cbv zeta. rewrite Hrec. cbn [bind].
  rewrite Hauth. cbn [negb]. rewrite Hnonce, N.eqb_refl. cbn [negb].
  rewrite <- Hnonce. rewrite checked_add_fits by assumption. cbn [bind].
  reflexivity.
Qed.

Lemma executeRebalance_Ok (msg : Msg) (vaultId : N) (signedPayload signature : bytes)
    (w w' : World) :
  executeRebalance msg vaultId signedPayload signature w = Ok w' ->
  exists payload signer w2,
    accepted msg vaultId signedPayload signature w payload signer /\
    call_rebalance (block_timestamp msg) vaultId (IRebalanceExecutor.actionData payload)
      (nonce_bumped w signer) = (true, w2) /\
    w' = emit w2 (RebalanceExecuted vaultId (msg_sender msg)).
Proof.
  intros H. unfold executeRebalance in H.
  apply bind_Ok in H as (payload & Hdec & H).
  destruct (N.eqb_spec (IRebalanceExecutor.vaultId payload) vaultId) as [Hid|];
    [|discriminate]. cbn [negb] in H.
  destruct (N.ltb_spec (IRebalanceExecutor.expiry payload) (block_timestamp msg));
    [discriminate|].
  destruct (N.ltb_spec (block_timestamp msg) (IRebalanceExecutor.issuedAt payload));
    [discriminate|].
  apply bind_Ok in H as (deadline & Hdeadline & H).
  apply checked_add_Ok in Hdeadline as [-> Hfit].
  destruct (N.ltb_spec (IRebalanceExecutor.issuedAt payload + maxPayloadAge (exStore w))
              (block_timestamp msg)); [discriminate|].
  cbv zeta in H.
  apply bind_Ok in H as (signer & Hrec & H).
  destruct (is_signer (exStore w) signer) eqn:Hauth; [|discriminate]. cbn [negb] in H.
  destruct (N.eqb_spec (getNonce (exStore w) signer) (IRebalanceExecutor.nonce payload))
    as [Hnonce|]; [|discriminate]. cbn [negb] in H.
  apply bind_Ok in H as (next & Hnext & H).
  apply checked_add_Ok in Hnext as [-> Hnext].
  fold (nonce_bumped w signer) in H.
  destruct (call_rebalance (block_timestamp msg) vaultId
              (IRebalanceExecutor.actionData payload) (nonce_bumped w signer))
    as [[|] w2] eqn:Hcall; cbn [fst snd negb] in H; [|discriminate].
  apply Ok_inj in H. exists payload, signer, w2.
  split; [|split; [exact Hcall | congruence]].
  unfold accepted, getPayloadHash. cbv zeta. tauto.
Qed.

(** ** Sums of share balances *)

Lemma sum_shares_empty : sum_shares ∅ = 0.
Proof. unfold sum_shares. apply map_fold_empty. Qed.

Lemma sum_shares_insert (m : gmap N N) (user : address) (n : N) :
  sum_shares (<[user := n]> m) + balance_in m user = sum_shares m + n.
Proof.
  assert (Hcomm : forall (m' : gmap N N) (j1 j2 : N) (z1 z2 y : N),
    j1 <> j2 -> m' !! j1 = Some z1 -> m' !! j2 = Some z2 ->
    z1 + (z2 + y) = z2 + (z1 + y)) by (intros; lia).
  unfold sum_shares, balance_in. destruct (m !! user) as [old|] eqn:Hm.
  - rewrite <- insert_delete_eq.
    rewrite map_fold_insert_L; [|apply Hcomm|apply lookup_delete_eq].
    rewrite (map_fold_delete_L _ _ user old m); [|apply Hcomm|exact Hm].
    cbv beta. lia.
  - rewrite map_fold_insert_L; [|apply Hcomm|exact Hm]. cbv beta. lia.
Qed.

(** ** Writes that keep the ledger sound *)

Lemma exists_below_count st vaultId :
  ids_fresh st -> IVault.owner (vault_at st vaultId) <> 0 -> vaultId <= vaultCount st.
Proof.
  intros Hfresh Hown. destruct (N.le_gt_cases vaultId (vaultCount st)) as [|Hgt]; [assumption|].
  apply Hfresh in Hgt. unfold vault_at in Hown. rewrite Hgt in Hown.
  cbn in Hown. congruence.
Qed.

Lemma sound_vault_write st vaultId p v :
  ledger_sound st ->
  IVault.owner (vault_at st vaultId) <> 0 ->
  IVault.totalShares v = IVault.totalShares (vault_at st vaultId) ->
  ledger_sound (set_vault (set_vaultStrategy st vaultId p) vaultId v).
Proof.
  intros [Hsum Hfresh] Hown Hsame.
  pose proof (exists_below_count _ _ Hfresh Hown) as Hbelow.
  split.
  - intros other. rewrite vault_at_set_vault.
    change (shares_in (set_vault (set_vaultStrategy st vaultId p) vaultId v) other)
      with (shares_in st other).
    destruct (decide (vaultId = other)) as [<-|]; [|apply Hsum].
    rewrite Hsame. apply Hsum.
  - intros other Hgt. cbn [set_vault set_vaultStrategy vaults vaultCount] in *.
    rewrite lookup_insert_ne by lia. apply Hfresh. exact Hgt.
Qed.

Lemma sound_strategy_write st vaultId v :
  ledger_sound st ->
  IVault.owner (vault_at st vaultId) <> 0 ->
  IVault.totalShares v = IVault.totalShares (vault_at st vaultId) ->
  ledger_sound (set_vault st vaultId v).
Proof.
  intros [Hsum Hfresh] Hown Hsame.
  pose proof (exists_below_count _ _ Hfresh Hown) as Hbelow.
  split.
  - intros other. rewrite vault_at_set_vault, shares_in_set_vault.
    destruct (decide (vaultId = other)) as [<-|]; [|apply Hsum].
    rewrite Hsame. apply Hsum.
  - intros other Hgt. cbn [set_vault vaults vaultCount] in *.
    rewrite lookup_insert_ne by lia. apply Hfresh. exact Hgt.
Qed.

Lemma sound_shares_write st vaultId v user n :
  ledger_sound st ->
  IVault.owner (vault_at st vaultId) <> 0 ->
  IVault.totalShares v + getUserShares st vaultId user
    = IVault.totalShares (vault_at st vaultId) + n ->
  ledger_sound (set_userShares (set_vault st vaultId v) vaultId user n).
Proof.
  intros [Hsum Hfresh] Hown Hdelta.
  pose proof (exists_below_count _ _ Hfresh Hown) as Hbelow.
  split.
  - intros other.
    rewrite shares_in_set_userShares, vault_at_set_userShares, vault_at_set_vault.
    destruct (decide (vaultId = other)) as [<-|]; [|apply Hsum].
    rewrite shares_in_set_vault.
    pose proof (sum_shares_insert (shares_in st vaultId) user n) as Hins.
    specialize (Hsum vaultId). unfold getUserShares in Hdelta. lia.
  - intros other Hgt. cbn [set_userShares set_vault vaults vaultCount] in *.
    rewrite lookup_insert_ne by lia. apply Hfresh. exact Hgt.
Qed.

Lemma sound_vault_created st vaultId v p :
  ledger_sound st ->
  vaultId = vaultCount st + 1 ->
  IVault.totalShares v = 0 ->
  ledger_sound (set_vaultStrategy (set_vault (set_vaultCount st vaultId) vaultId v) vaultId p).
Proof.
  intros [Hsum Hfresh] -> Hzero. split.
  - intros other.
    change (shares_in (set_vaultStrategy _ _ _) other) with (shares_in st other).
    change (vault_at (set_vaultStrategy (set_vault (set_vaultCount st (vaultCount st + 1))
              (vaultCount st + 1) v) (vaultCount st + 1) p) other)
      with (vault_at (set_vault st (vaultCount st + 1) v) other).
    rewrite vault_at_set_vault.
    destruct (decide (vaultCount st + 1 = other)) as [<-|]; [|apply Hsum].
    rewrite Hzero, Hsum. unfold vault_at.
    rewrite (Hfresh (vaultCount st + 1)) by lia. reflexivity.
  - intros other Hgt.
    cbn [set_vaultStrategy set_vault set_vaultCount vaults vaultCount] in *.
    rewrite lookup_insert_ne by lia. apply Hfresh. lia.
Qed.

(** A write outside [vaultCount], [vaults] and [userShares]. *)
Lemma sound_elsewhere st st' :
  vaultCount st' = vaultCount st -> vaults st' = vaults st ->
  userShares st' = userShares st ->
  ledger_sound st -> ledger_sound st'.
Proof.
  intros Hc Hv Hu [Hsum Hfresh]. split.
  - intros other. unfold shares_in, vault_at. rewrite Hv, Hu. apply Hsum.
  - intros other. rewrite Hc, Hv. apply Hfresh.
Qed.

(** ** What a committed call does to the ledger *)

Lemma createVault_effect msg tokenA tokenB params w vaultId w' :
  createVault msg tokenA tokenB params w = Ok (vaultId, w') ->
  exStore w' = exStore w /\ vmAddress w' = vmAddress w /\ exAddress w' = exAddress w /\
  protocolFeeBps (vmStore w') = protocolFeeBps (vmStore w) /\
  (ledger_sound (vmStore w) -> ledger_sound (vmStore w')).
Proof.
  intros H. unfold createVault, whenNotPaused in H.
  unravel_all. subst. cbn [exStore vmAddress exAddress vmStore emit with_vm].
  do 4 (split; [reflexivity|]).
  intros Hsound. apply sound_vault_created; [assumption|reflexivity|reflexivity].
Qed.

Lemma deposit_effect msg vaultId amountA amountB w shares w' :
  deposit msg vaultId amountA amountB w = Ok (shares, w') ->
  exStore w' = exStore w /\ vmAddress w' = vmAddress w /\ exAddress w' = exAddress w /\
  protocolFeeBps (vmStore w') = protocolFeeBps (vmStore w) /\
  (ledger_sound (vmStore w) -> ledger_sound (vmStore w')).
Proof.
  intros H. unfold deposit in H.
  apply bind_Ok in H as (_ & _ & H).
  destruct (N.eqb_spec (IVault.owner (vault_at (vmStore w) vaultId)) 0); [discriminate|].
  destruct (negb (IVault.isActive (vault_at (vmStore w) vaultId))); [discriminate|].
  destruct ((amountA <? MIN_DEPOSIT) || (amountB <? MIN_DEPOSIT)); [discriminate|].
  apply bind_Ok in H as (l1 & _ & H).
  apply bind_Ok in H as (l2 & _ & H).
  apply bind_Ok in H as (minted & _ & H).
  apply bind_Ok in H as (newShares & HnewShares & H).
  apply bind_Ok in H as (newA & _ & H).
  apply bind_Ok in H as (newB & _ & H).
  apply bind_Ok in H as (newUser & HnewUser & H).
  apply checked_add_Ok in HnewShares as [-> _].
  apply checked_add_Ok in HnewUser as [-> _].
  injection H as <- <-. cbn [exStore vmAddress exAddress vmStore emit with_tokens with_vm].
  do 4 (split; [reflexivity|]).
  intros Hsound. apply sound_shares_write; [assumption|assumption|].
  cbn [IVault.with_ledger IVault.totalShares]. lia.
Qed.

Lemma withdraw_effect msg vaultId shares w amountA amountB w' :
  withdraw msg vaultId shares w = Ok (amountA, amountB, w') ->
  exStore w' = exStore w /\ vmAddress w' = vmAddress w /\ exAddress w' = exAddress w /\
  protocolFeeBps (vmStore w') = protocolFeeBps (vmStore w) /\
  (ledger_sound (vmStore w) -> ledger_sound (vmStore w')).
Proof.
  intros H. unfold withdraw in H.
  destruct (N.eqb_spec (IVault.owner (vault_at (vmStore w) vaultId)) 0); [discriminate|].
  destruct (getUserShares (vmStore w) vaultId (msg_sender msg) <? shares); [discriminate|].
  apply bind_Ok in H as (pa & _ & H).
  apply bind_Ok in H as (outA & _ & H).
  apply bind_Ok in H as (pb & _ & H).
  apply bind_Ok in H as (outB & _ & H).
  apply bind_Ok in H as (newShares & HnewShares & H).
  apply bind_Ok in H as (newA & _ & H).
  apply bind_Ok in H as (newB & _ & H).
  apply bind_Ok in H as (newUser & HnewUser & H).
  apply bind_Ok in H as (l1 & _ & H).
  apply bind_Ok in H as (l2 & _ & H).
  apply checked_sub_Ok in HnewShares as [-> HleShares].
  apply checked_sub_Ok in HnewUser as [-> HleUser].
  injection H as <- <- <-.
  cbn [exStore vmAddress exAddress vmStore emit with_tokens with_vm].
  do 4 (split; [reflexivity|]).
  intros Hsound. apply sound_shares_write; [assumption|assumption|].
  cbn [IVault.with_ledger IVault.totalShares]. lia.
Qed.

Lemma rebalance_effect msg vaultId strategyData w w' :
  rebalance msg vaultId strategyData w = Ok w' ->
  exStore w' = exStore w /\ vmAddress w' = vmAddress w /\ exAddress w' = exAddress w /\
  protocolFeeBps (vmStore w') = protocolFeeBps (vmStore w) /\
  (ledger_sound (vmStore w) -> ledger_sound (vmStore w')).
Proof.
  intros H. apply rebalance_frame in H as (Hex & Hvm & Hexa & Hown & p & v & Hsame & Hst).
  do 3 (split; [assumption|]). rewrite Hst. split; [reflexivity|].
  intros Hsound. apply sound_vault_write; assumption.
Qed.

Lemma attachStrategy_effect msg vaultId strategy w w' :
  attachStrategy msg vaultId strategy w = Ok w' ->
  exStore w' = exStore w /\ vmAddress w' = vmAddress w /\ exAddress w' = exAddress w /\
  protocolFeeBps (vmStore w') = protocolFeeBps (vmStore w) /\
  (ledger_sound (vmStore w) -> ledger_sound (vmStore w')).
Proof.
  intros H. unfold attachStrategy in H.
  destruct (N.eqb_spec (IVault.owner (vault_at (vmStore w) vaultId)) 0); [discriminate|].
  apply bind_Ok in H as (_ & _ & H). apply Ok_inj in H. subst w'.
  cbn [exStore vmAddress exAddress vmStore emit with_vm].
  do 4 (split; [reflexivity|]).
  intros Hsound. apply sound_strategy_write; [assumption|assumption|reflexivity].
Qed.

Lemma executeRebalance_effect msg vaultId signedPayload signature w w' :
  executeRebalance msg vaultId signedPayload signature w = Ok w' ->
  vmAddress w' = vmAddress w /\ exAddress w' = exAddress w /\
  protocolFeeBps (vmStore w') = protocolFeeBps (vmStore w) /\
  (ledger_sound (vmStore w) -> ledger_sound (vmStore w')) /\
  exists payload signer,
    accepted msg vaultId signedPayload signature w payload signer /\
    exStore w' = set_nonce (exStore w) signer (getNonce (exStore w) signer + 1).
Proof.
  intros H. apply executeRebalance_Ok in H as (payload & signer & w2 & Hacc & Hcall & ->).
  apply call_rebalance_true in Hcall as [[_ Hcall]|(_ & _ & _ & ->)].
  - apply rebalance_effect in Hcall as (Hex & Hvm & Hexa & Hfee & Hsound).
    cbn [exStore vmAddress exAddress vmStore emit].
    repeat (split; [assumption|]). exists payload, signer. split; assumption.
  - cbn [exStore vmAddress exAddress vmStore emit nonce_bumped with_ex].
    do 3 (split; [reflexivity|]). split; [auto|].
    exists payload, signer. split; [assumption | reflexivity].
Qed.

(** Every committed call keeps the two addresses, the fee ceiling and
    the soundness of the ledger, and lets no nonce decrease. *)
Lemma run_invariants (msg : Msg) (tx : Tx) (w w' : World) :
  run msg tx w = Ok w' ->
  vmAddress w' = vmAddress w /\ exAddress w' = exAddress w /\
  (protocolFeeBps (vmStore w) <= 1000 -> protocolFeeBps (vmStore w') <= 1000) /\
  (ledger_sound (vmStore w) -> ledger_sound (vmStore w')) /\
  (forall signer, getNonce (exStore w) signer <= getNonce (exStore w') signer).
Proof.
  intros H. destruct tx; cbn [run] in H.
  - apply bind_Ok in H as ([id w1] & Hcall & H). apply Ok_inj in H. cbn [snd] in H. subst w1.
    apply createVault_effect in Hcall as (-> & Hvm & Hexa & -> & Hsound). auto 6 using N.le_refl.
  - apply bind_Ok in H as ([sh w1] & Hcall & H). apply Ok_inj in H. cbn [snd] in H. subst w1.
    apply deposit_effect in Hcall as (-> & Hvm & Hexa & -> & Hsound). auto 6 using N.le_refl.
  - apply bind_Ok in H as ([[a b] w1] & Hcall & H). apply Ok_inj in H. cbn [snd] in H. subst w1.
    apply withdraw_effect in Hcall as (-> & Hvm & Hexa & -> & Hsound). auto 6 using N.le_refl.
  - apply rebalance_effect in H as (-> & Hvm & Hexa & -> & Hsound). auto 6 using N.le_refl.
  - apply attachStrategy_effect in H as (-> & Hvm & Hexa & -> & Hsound). auto 6 using N.le_refl.
  - unfold setStrategyManager, onlyOwner in H. unravel_all. subst w'.
    cbn. auto 6 using N.le_refl.
  - unfold setRelayerAuthorization, onlyOwner in H. unravel_all. subst w'.
    cbn. auto 6 using N.le_refl.
  - unfold setProtocolFee, onlyOwner in H. unravel_all. subst w'.
    cbn [vmAddress exAddress vmStore exStore with_vm set_protocolFeeBps protocolFeeBps].
    do 2 (split; [reflexivity|]).
    split; [intros _; apply N.leb_le; assumption|].
    split; [intros Hs; eapply sound_elsewhere; [..|exact Hs]; reflexivity|].
    intros signer. apply N.le_refl.
  - unfold setFeeRecipient, onlyOwner in H. unravel_all. subst w'.
    cbn. auto 6 using N.le_refl.
  - unfold pause, onlyOwner, whenNotPaused in H. unravel_all. subst w'.
    cbn. auto 6 using N.le_refl.
  - unfold unpause, onlyOwner, whenPaused in H. unravel_all. subst w'.
    cbn. auto 6 using N.le_refl.
  - unfold vm_transferOwnership, onlyOwner in H. unravel_all. subst w'.
    cbn. auto 6 using N.le_refl.
  - unfold vm_acceptOwnership in H. unravel_all. subst w'.
    cbn. auto 6 using N.le_refl.
  - unfold vm_renounceOwnership, onlyOwner in H. unravel_all. subst w'.
    cbn. auto 6 using N.le_refl.
  - apply executeRebalance_effect in H
      as (Hvm & Hexa & Hfee & Hsound & payload & signer & _ & Hex).
    do 2 (split; [assumption|]).
    split; [rewrite Hfee; auto|]. split; [assumption|].
    intros other. rewrite Hex, getNonce_set_nonce.
    destruct (decide (signer = other)) as [<-|]; lia.
  - unfold setSignerAuthorization, onlyOwner in H. unravel_all. subst w'.
    cbn. auto 6 using N.le_refl.
  - unfold setVaultManager, onlyOwner in H. unravel_all. subst w'.
    cbn. auto 6 using N.le_refl.
  - unfold setMaxPayloadAge, onlyOwner in H. unravel_all. subst w'.
    cbn. auto 6 using N.le_refl.
  - unfold setMaxExpiryDuration, onlyOwner in H. unravel_all. subst w'.
    cbn. auto 6 using N.le_refl.
  - unfold ex_transferOwnership, onlyOwner in H. unravel_all. subst w'.
    cbn. auto 6 using N.le_refl.
  - unfold ex_acceptOwnership in H. unravel_all. subst w'.
    cbn. auto 6 using N.le_refl.
  - unfold ex_renounceOwnership, onlyOwner in H. unravel_all. subst w'.
    cbn. auto 6 using N.le_refl.
  - apply Ok_inj in H. subst w'. cbn. auto 6 using N.le_refl.
Qed.

(** ** Histories *)

Lemma transact_invariants (w : World) (call : Msg * Tx) :
  let w' := transact w call in
  vmAddress w' = vmAddress w /\ exAddress w' = exAddress w /\
  (protocolFeeBps (vmStore w) <= 1000 -> protocolFeeBps (vmStore w') <= 1000) /\
  (ledger_sound (vmStore w) -> ledger_sound (vmStore w')) /\
  (forall signer, getNonce (exStore w) signer <= getNonce (exStore w') signer).
Proof.
  unfold transact. destruct (run (fst call) (snd call) w) as [w'|e] eqn:H.
  - exact (run_invariants _ _ _ _ H).
  - cbv zeta. auto 6 using N.le_refl.
Qed.

Lemma transact_all_invariants (calls : list (Msg * Tx)) :
  forall w : World,
  let w' := transact_all w calls in
  vmAddress w' = vmAddress w /\ exAddress w' = exAddress w /\
  (protocolFeeBps (vmStore w) <= 1000 -> protocolFeeBps (vmStore w') <= 1000) /\
  (ledger_sound (vmStore w) -> ledger_sound (vmStore w')) /\
  (forall signer, getNonce (exStore w) signer <= getNonce (exStore w') signer).
Proof.
  induction calls as [|call calls IH]; intros w.
  - cbn. auto 6 using N.le_refl.
  - cbn [transact_all fold_left]. fold (transact_all (transact w call) calls).
    destruct (transact_invariants w call) as (Hvm & Hex & Hfee & Hsound & Hnonce).
    destruct (IH (transact w call)) as (Hvm' & Hex' & Hfee' & Hsound' & Hnonce').
    cbv zeta.
    split; [congruence|]. split; [congruence|]. split; [auto|]. split; [auto|].
    intros signer. specialize (Hnonce signer). specialize (Hnonce' signer). lia.
Qed.

Lemma deploy_sound vmAddr exAddr vmDeployer exDeployer recipient target l w0 :
  deploy vmAddr exAddr vmDeployer exDeployer recipient target l = Ok w0 ->
  ledger_sound (vmStore w0) /\ protocolFeeBps (vmStore w0) <= 1000.
Proof.
  unfold deploy. intros H.
  destruct (recipient =? 0); [discriminate|].
  destruct (target =? 0); [discriminate|].
  apply Ok_inj in H. subst w0. cbn [vmStore protocolFeeBps].
  split; [|lia]. split.
  - intros vaultId. unfold shares_in, vault_at. cbn [userShares vaults].
    rewrite !lookup_empty. apply sum_shares_empty.
  - intros vaultId _. cbn [vaults]. apply lookup_empty.
Qed.

Lemma reachable_sound (w : World) : reachable w -> ledger_sound (vmStore w).
Proof.
  intros (vmAddr & exAddr & vmDeployer & exDeployer & recipient & target & l & w0 & calls
          & Hdeploy & ->).
  apply deploy_sound in Hdeploy as [Hsound _].
  apply (transact_all_invariants calls w0). exact Hsound.
Qed.

Lemma reachable_fee_capped (w : World) :
  reachable w -> protocolFeeBps (vmStore w) <= 1000.
Proof.
  intros (vmAddr & exAddr & vmDeployer & exDeployer & recipient & target & l & w0 & calls
          & Hdeploy & ->).
  apply deploy_sound in Hdeploy as [_ Hfee].
  apply (transact_all_invariants calls w0). exact Hfee.
Qed.

(** ** C4: share conservation *)

(** C4. In every world that a deployment and any history of calls
    (createVault, deposit, withdraw, rebalance and all the others,
    committed or reverted) lead to, the share balances of the accounts
    of each vault add up to the [totalShares] of the vault; and every
    single transaction keeps the ledger sound: shares conserved and no
    vault stored past [vaultCount], as it is after deployment. *)
Theorem share_conservation :
  (forall w : World,
      reachable w ->
      forall vaultId : N,
        sum_shares (shares_in (vmStore w) vaultId)
          = IVault.totalShares (vault_at (vmStore w) vaultId)) /\
  (forall (w : World) (call : Msg * Tx),
      ledger_sound (vmStore w) -> ledger_sound (vmStore (transact w call))).
Proof.
  split.
  - intros w Hreach. apply reachable_sound in Hreach as [Hsum _]. exact Hsum.
  - intros w call Hsound.
    destruct (transact_invariants w call) as (_ & _ & _ & Hkeeps & _).
    exact (Hkeeps Hsound).
Qed.

(** ** C8: the protocol fee *)

(** C8. [setProtocolFee] reverts for every value above 1000 and, called
    by the owner with a value of at most 1000, sets [protocolFeeBps];
    a successful [rebalance] takes exactly
    [floor(totalTokenX * protocolFeeBps / 10000)] from each balance of
    the vault, transfers it to the fee recipient unless it is zero, and
    so takes at most [protocolFeeBps / 10000] of the balance (a tenth at
    the ceiling); and no history of transactions leads to a fee above
    the ceiling. *)
Theorem protocol_fee_bounded :
  (forall (msg : Msg) (newFeeBps : N) (w : World),
      1000 < newFeeBps ->
      (exists e, setProtocolFee msg newFeeBps w = Revert e) /\
      transact w (msg, TxSetProtocolFee newFeeBps) = w) /\
  (forall (msg : Msg) (newFeeBps : N) (w : World),
      msg_sender msg = vm_owner (vmStore w) ->
      newFeeBps <= 1000 ->
      setProtocolFee msg newFeeBps w
        = Ok (with_vm w (set_protocolFeeBps (vmStore w) newFeeBps))) /\
  (forall (msg : Msg) (vaultId : N) (strategyData : bytes) (w w' : World),
      rebalance msg vaultId strategyData w = Ok w' ->
      let vault := vault_at (vmStore w) vaultId in
      let vault' := vault_at (vmStore w') vaultId in
      let bps := protocolFeeBps (vmStore w) in
      let feeA := IVault.totalTokenA vault * bps / 10000 in
      let feeB := IVault.totalTokenB vault * bps / 10000 in
      feeA <= IVault.totalTokenA vault /\
      IVault.totalTokenA vault' = IVault.totalTokenA vault - feeA /\
      feeB <= IVault.totalTokenB vault /\
      IVault.totalTokenB vault' = IVault.totalTokenB vault - feeB /\
      10000 * feeA <= IVault.totalTokenA vault * bps /\
      10000 * feeB <= IVault.totalTokenB vault * bps /\
      (bps <= 1000 ->
       10 * feeA <= IVault.totalTokenA vault /\ 10 * feeB <= IVault.totalTokenB vault) /\
      exists l,
        (if 0 <? feeA
         then safeTransfer (IVault.tokenA vault) (vmAddress w)
                (feeRecipient (vmStore w)) feeA (tokens w)
         else Ok (tokens w)) = Ok l /\
        (if 0 <? feeB
         then safeTransfer (IVault.tokenB vault) (vmAddress w)
                (feeRecipient (vmStore w)) feeB l
         else Ok l) = Ok (tokens w')) /\
  (forall w : World, reachable w -> protocolFeeBps (vmStore w) <= 1000).
Proof.
  split; [|split; [|split]]; [| | |exact reachable_fee_capped].
  - intros msg newFeeBps w Hhigh.
    assert (Hrev : exists e, setProtocolFee msg newFeeBps w = Revert e).
    { unfold setProtocolFee, onlyOwner.
      destruct (msg_sender msg =? vm_owner (vmStore w)); cbn [require bind];
        [|eauto].
      destruct (N.leb_spec newFeeBps 1000); [lia|]. cbn [require bind]. eauto. }
    split; [exact Hrev|]. destruct Hrev as [e He].
    unfold transact; cbn [fst snd run]. rewrite He. reflexivity.
  - intros msg newFeeBps w Hown Hlow.
    unfold setProtocolFee, onlyOwner. rewrite Hown, N.eqb_refl. cbn [require bind].
    destruct (N.leb_spec newFeeBps 1000); [reflexivity | lia].
  - intros msg vaultId strategyData w w' Hok vault vault' bps feeA feeB.
    pose proof (fee_rounds_down (IVault.totalTokenA vault) bps) as [HfloorA HtenthA].
    pose proof (fee_rounds_down (IVault.totalTokenB vault) bps) as [HfloorB HtenthB].
    fold feeA in HfloorA, HtenthA. fold feeB in HfloorB, HtenthB.
    unfold rebalance in Hok.
    apply bind_Ok in Hok as (_ & _ & Hok).
    destruct (negb (is_relayer (vmStore w) (msg_sender msg))
              && negb (msg_sender msg =? vm_owner (vmStore w))); [discriminate|].
    fold vault in Hok.
    destruct (IVault.owner vault =? 0); [discriminate|].
    destruct (negb (IVault.isActive vault)); [discriminate|].
    apply bind_Ok in Hok as ([[lower upper] pct] & _ & Hok).
    cbn [IVault.with_lastRebalance IVault.totalTokenA IVault.totalTokenB
         IVault.tokenA IVault.tokenB IVault.totalShares] in Hok.
    apply bind_Ok in Hok as (pa & Hpa & Hok).
    apply bind_Ok in Hok as (pb & Hpb & Hok).
    apply checked_mul_Ok in Hpa as [-> _]. apply checked_mul_Ok in Hpb as [-> _].
    fold bps feeA feeB in Hok.
    apply bind_Ok in Hok as ([newA l1] & HpaidA & Hok).
    apply bind_Ok in Hok as ([newB l2] & HpaidB & Hok).
    apply Ok_inj in Hok. subst w'. cbn [fst snd] in *.
    apply fee_block_Ok in HpaidA as HvA. apply fee_block_Ok in HpaidB as HvB.
    destruct HvA as (HleA & -> & HtA). destruct HvB as (HleB & -> & HtB).
    subst vault'. cbn [vmStore emit with_tokens with_vm tokens].
    rewrite vault_at_set_vault. destruct (decide (vaultId = vaultId)); [|congruence].
    cbn [IVault.with_ledger IVault.totalTokenA IVault.totalTokenB].
    repeat split; try assumption; try (apply HtenthA; assumption);
      try (apply HtenthB; assumption).
    exists l1. split; assumption.
Qed.

(** ** C1: the executor commits the nonce and the rebalance together *)


(** ** C2: a payload is used once *)


End Properties.

(** * Further properties of the two contracts *)

Section Coverage.
Context {Ledger : Type} {tokenContracts : IERC20 Ledger} {primitives : Primitives}
        {accounts : Accounts}.

#[local] Abbreviation World := (@World Ledger).
#[local] Abbreviation Tx := (@Tx Ledger).
Implicit Types w : World.

(** ** What a committed call was and did, in full *)

Lemma whenNotPaused_Ok st (u : unit) : whenNotPaused st = Ok u -> vm_paused st = false.
Proof.
  unfold whenNotPaused. intros H. apply require_Ok in H.
  destruct (vm_paused st); [discriminate | reflexivity].
Qed.

Lemma createVault_unfold msg tokenA tokenB params w vaultId w' :
  createVault msg tokenA tokenB params w = Ok (vaultId, w') ->
  vm_paused (vmStore w) = false /\
  tokenA <> 0 /\ tokenB <> 0 /\ tokenA <> tokenB /\
  vaultId = vaultCount (vmStore w) + 1 /\
  w' = emit (with_vm w
         (set_vaultStrategy
            (set_vault (set_vaultCount (vmStore w) vaultId) vaultId
               {| IVault.vaultId := vaultId;
                  IVault.owner := msg_sender msg;
                  IVault.tokenA := tokenA;
                  IVault.tokenB := tokenB;
                  IVault.totalShares := 0;
                  IVault.totalTokenA := 0;
                  IVault.totalTokenB := 0;
                  IVault.strategy := 0;
                  IVault.lastRebalance := block_timestamp msg;
                  IVault.isActive := true |})
            vaultId params))
         (VaultCreated vaultId (msg_sender msg) tokenA tokenB).
Proof.
  intros H. unfold createVault in H.
  apply bind_Ok in H as (u & Hrun & H). apply whenNotPaused_Ok in Hrun.
  destruct (N.eqb_spec tokenA 0); [discriminate|].
  destruct (N.eqb_spec tokenB 0); [discriminate|]. cbn [orb] in H.
  destruct (N.eqb_spec tokenA tokenB); [discriminate|].
  apply bind_Ok in H as (id & Hid & H). apply checked_add_Ok in Hid as [-> _].
  injection H as <- <-. auto 10.
Qed.

Lemma deposit_unfold msg vaultId amountA amountB w shares w' :
  deposit msg vaultId amountA amountB w = Ok (shares, w') ->
  let st := vmStore w in
  let vault := vault_at st vaultId in
  vm_paused st = false /\ IVault.owner vault <> 0 /\ IVault.isActive vault = true /\
  MIN_DEPOSIT <= amountA /\ MIN_DEPOSIT <= amountB /\
  (if IVault.totalShares vault =? 0
   then amountA * amountB <= MAX_UINT256 /\ _sqrt (amountA * amountB) = Ok shares
   else IVault.totalTokenA vault <> 0 /\ IVault.totalTokenB vault <> 0 /\
        shares = N.min (amountA * IVault.totalShares vault / IVault.totalTokenA vault)
                       (amountB * IVault.totalShares vault / IVault.totalTokenB vault)) /\
  exists l1 l2,
    safeTransferFrom (IVault.tokenA vault) (vmAddress w) (msg_sender msg) (vmAddress w)
      amountA (tokens w) = Ok l1 /\
    safeTransferFrom (IVault.tokenB vault) (vmAddress w) (msg_sender msg) (vmAddress w)
      amountB l1 = Ok l2 /\
    w' = emit (with_tokens (with_vm w
           (set_userShares
              (set_vault st vaultId
                 (IVault.with_ledger vault
                    (IVault.totalShares vault + shares)
                    (IVault.totalTokenA vault + amountA)
                    (IVault.totalTokenB vault + amountB)))
              vaultId (msg_sender msg)
              (getUserShares st vaultId (msg_sender msg) + shares))) l2)
           (Deposit vaultId (msg_sender msg) amountA amountB shares).
Proof.
  intros H st vault. unfold deposit in H. fold st in H. fold vault in H.
  apply bind_Ok in H as (u & Hrun & H). apply whenNotPaused_Ok in Hrun.
  destruct (N.eqb_spec (IVault.owner vault) 0); [discriminate|].
  destruct (IVault.isActive vault) eqn:Hactive; [|discriminate]. cbn [negb] in H.
  destruct (N.ltb_spec amountA MIN_DEPOSIT); [discriminate|].
  destruct (N.ltb_spec amountB MIN_DEPOSIT); [discriminate|]. cbn [orb] in H.
  apply bind_Ok in H as (l1 & Hl1 & H).
  apply bind_Ok in H as (l2 & Hl2 & H).
  apply bind_Ok in H as (minted & Hminted & H).
  apply bind_Ok in H as (newShares & HnewShares & H).
  apply bind_Ok in H as (newA & HnewA & H).
  apply bind_Ok in H as (newB & HnewB & H).
  apply bind_Ok in H as (newUser & HnewUser & H).
  apply checked_add_Ok in HnewShares as [-> _].
  apply checked_add_Ok in HnewA as [-> _].
  apply checked_add_Ok in HnewB as [-> _].
  apply checked_add_Ok in HnewUser as [-> _].
  injection H as <- <-.
  do 5 (split; [assumption || reflexivity|]). split.
  - destruct (IVault.totalShares vault =? 0).
    + apply bind_Ok in Hminted as (product & Hproduct & Hroot).
      apply checked_mul_Ok in Hproduct as [-> Hfits]. auto.
    + apply bind_Ok in Hminted as (pa & Hpa & Hminted).
      apply bind_Ok in Hminted as (shareA & HshareA & Hminted).
      apply bind_Ok in Hminted as (pb & Hpb & Hminted).
      apply bind_Ok in Hminted as (shareB & HshareB & Hminted).
      apply checked_mul_Ok in Hpa as [-> _]. apply checked_mul_Ok in Hpb as [-> _].
      apply checked_div_Ok in HshareA as [-> HtA].
      apply checked_div_Ok in HshareB as [-> HtB].
      apply Ok_inj in Hminted. subst minted.
      do 2 (split; [assumption|]).
      match goal with |- context [if ?a <? ?b then _ else _] =>
        destruct (N.ltb_spec a b) end.
      * symmetry. apply N.min_l. lia.
      * symmetry. apply N.min_r. lia.
  - exists l1, l2. auto.
Qed.

Lemma withdraw_unfold msg vaultId shares w amountA amountB w' :
  withdraw msg vaultId shares w = Ok (amountA, amountB, w') ->
  let st := vmStore w in
  let vault := vault_at st vaultId in
  let held := getUserShares st vaultId (msg_sender msg) in
  IVault.owner vault <> 0 /\ shares <= held /\ shares <= IVault.totalShares vault /\
  IVault.totalShares vault <> 0 /\
  amountA = shares * IVault.totalTokenA vault / IVault.totalShares vault /\
  amountB = shares * IVault.totalTokenB vault / IVault.totalShares vault /\
  amountA <= IVault.totalTokenA vault /\ amountB <= IVault.totalTokenB vault /\
  exists l1 l2,
    safeTransfer (IVault.tokenA vault) (vmAddress w) (msg_sender msg) amountA (tokens w)
      = Ok l1 /\
    safeTransfer (IVault.tokenB vault) (vmAddress w) (msg_sender msg) amountB l1
      = Ok l2 /\
    w' = emit (with_tokens (with_vm w
           (set_userShares
              (set_vault st vaultId
                 (IVault.with_ledger vault
                    (IVault.totalShares vault - shares)
                    (IVault.totalTokenA vault - amountA)
                    (IVault.totalTokenB vault - amountB)))
              vaultId (msg_sender msg) (held - shares))) l2)
           (Withdraw vaultId (msg_sender msg) shares amountA amountB).
Proof.
  intros H st vault held. unfold withdraw in H. fold st in H. fold vault held in H.
  destruct (N.eqb_spec (IVault.owner vault) 0); [discriminate|].
  destruct (N.ltb_spec held shares); [discriminate|].
  apply bind_Ok in H as (pa & Hpa & H).
  apply bind_Ok in H as (outA & HoutA & H).
  apply bind_Ok in H as (pb & Hpb & H).
  apply bind_Ok in H as (outB & HoutB & H).
  apply bind_Ok in H as (newShares & HnewShares & H).
  apply bind_Ok in H as (newA & HnewA & H).
  apply bind_Ok in H as (newB & HnewB & H).
  apply bind_Ok in H as (newUser & HnewUser & H).
  apply bind_Ok in H as (l1 & Hl1 & H).
  apply bind_Ok in H as (l2 & Hl2 & H).
  apply checked_mul_Ok in Hpa as [-> _]. apply checked_mul_Ok in Hpb as [-> _].
  apply checked_div_Ok in HoutA as [-> Hsome]. apply checked_div_Ok in HoutB as [-> _].
  apply checked_sub_Ok in HnewShares as [-> HleShares].
  apply checked_sub_Ok in HnewA as [-> HleA].
  apply checked_sub_Ok in HnewB as [-> HleB].
  apply checked_sub_Ok in HnewUser as [-> HleUser].
  injection H as <- <- <-.
  do 4 (split; [assumption|]). do 2 (split; [reflexivity|]).
  do 2 (split; [assumption|]). exists l1, l2. auto.
Qed.

Lemma rebalance_unfold msg vaultId strategyData w w' :
  rebalance msg vaultId strategyData w = Ok w' ->
  let st := vmStore w in
  let vault := vault_at st vaultId in
  vm_paused st = false /\
  (is_relayer st (msg_sender msg) = true \/ msg_sender msg = vm_owner st) /\
  IVault.owner vault <> 0 /\ IVault.isActive vault = true /\
  exists newTickLower newTickUpper pct newA newB l,
    abi_decode_strategyData strategyData = Ok (newTickLower, newTickUpper, pct) /\
    w' = emit (with_tokens (with_vm w
           (set_vault
              (set_vaultStrategy st vaultId
                 (IVaultManager.with_ticks (strategy_at st vaultId)
                    newTickLower newTickUpper))
              vaultId
              (IVault.with_ledger (IVault.with_lastRebalance vault (block_timestamp msg))
                 (IVault.totalShares vault) newA newB))) l)
           (Rebalanced vaultId (msg_sender msg) (keccak256 strategyData)).
Proof.
  intros H st vault. unfold rebalance in H. fold st in H.
  apply bind_Ok in H as (u & Hrun & H). apply whenNotPaused_Ok in Hrun.
  destruct (is_relayer st (msg_sender msg)) eqn:Hrel;
    destruct (N.eqb_spec (msg_sender msg) (vm_owner st)) as [Hown|Hown];
    cbn [negb andb] in H; try discriminate.
  all: fold vault in H.
  all: destruct (N.eqb_spec (IVault.owner vault) 0); [discriminate|].
  all: destruct (IVault.isActive vault) eqn:Hactive; [|discriminate]; cbn [negb] in H.
  all: apply bind_Ok in H as ([[lower upper] pct] & Hdec & H).
  all: apply bind_Ok in H as (pa & _ & H).
  all: apply bind_Ok in H as (pb & _ & H).
  all: apply bind_Ok in H as ([newA l1] & _ & H).
  all: apply bind_Ok in H as ([newB l2] & _ & H).
  all: apply Ok_inj in H; subst w'.
  all: split; [assumption|]; split; [auto|]; split; [assumption|]; split; [reflexivity|].
  all: exists lower, upper, pct, newA, newB, l2; split; [assumption | reflexivity].
Qed.

Lemma strategy_at_set_vaultStrategy st vaultId p other :
  strategy_at (set_vaultStrategy st vaultId p) other =
    if decide (vaultId = other) then p else strategy_at st other.
Proof.
  unfold strategy_at, set_vaultStrategy; cbn [vaultStrategies].
  rewrite lookup_insert. destruct (decide (vaultId = other)); reflexivity.
Qed.

(** ** X1: creating a vault *)

(** X1. [createVault] on a contract that is not paused reverts with
    [InvalidTokens] when a token is the zero address or the two tokens
    are the same. When it succeeds, the id is [vaultCount + 1] and
    becomes the new [vaultCount]; the vault stored under it belongs to
    the caller, holds the two tokens, has no shares and no balances, is
    active and has the given strategy parameters; every other vault,
    strategy and share balance is as before, and so are the tokens. *)
Theorem createVault_behaviour (msg : Msg) (tokenA tokenB : N)
    (params : IVaultManager.StrategyParams) (w : World) :
  (vm_paused (vmStore w) = false ->
   tokenA = 0 \/ tokenB = 0 \/ tokenA = tokenB ->
   createVault msg tokenA tokenB params w = Revert InvalidTokens) /\
  (forall (vaultId : N) (w' : World),
      createVault msg tokenA tokenB params w = Ok (vaultId, w') ->
      tokenA <> 0 /\ tokenB <> 0 /\ tokenA <> tokenB /\
      vaultId = vaultCount (vmStore w) + 1 /\
      vaultCount (vmStore w') = vaultId /\
      vault_at (vmStore w') vaultId =
        {| IVault.vaultId := vaultId;
           IVault.owner := msg_sender msg;
           IVault.tokenA := tokenA;
           IVault.tokenB := tokenB;
           IVault.totalShares := 0;
           IVault.totalTokenA := 0;
           IVault.totalTokenB := 0;
           IVault.strategy := 0;
           IVault.lastRebalance := block_timestamp msg;
           IVault.isActive := true |} /\
      strategy_at (vmStore w') vaultId = params /\
      (forall other : N,
          other <> vaultId ->
          vault_at (vmStore w') other = vault_at (vmStore w) other /\
          strategy_at (vmStore w') other = strategy_at (vmStore w) other) /\
      userShares (vmStore w') = userShares (vmStore w) /\
      tokens w' = tokens w /\
      log w' = VaultCreated vaultId (msg_sender msg) tokenA tokenB :: log w).
Proof.
  split.
  - intros Hrun Hbad. unfold createVault, whenNotPaused. rewrite Hrun.
    cbn [negb require bind].
    destruct (N.eqb_spec tokenA 0); [reflexivity|].
    destruct (N.eqb_spec tokenB 0); [reflexivity|]. cbn [orb].
    destruct (N.eqb_spec tokenA tokenB); [reflexivity|].
    destruct Hbad as [?|[?|?]]; contradiction.
  - intros vaultId w' H.
    apply createVault_unfold in H as (_ & HA & HB & HAB & Hid & ->).
    cbn [vmStore emit with_vm tokens log].
    do 4 (split; [assumption|]). split; [reflexivity|].
    split; [|split; [|split; [|auto]]].
    + change (vault_at (set_vaultStrategy ?s ?i ?p) ?o) with (vault_at s o).
      rewrite vault_at_set_vault. destruct (decide (vaultId = vaultId)); congruence.
    + rewrite strategy_at_set_vaultStrategy.
      destruct (decide (vaultId = vaultId)); congruence.
    + intros other Hother. split.
      * change (vault_at (set_vaultStrategy ?s ?i ?p) ?o) with (vault_at s o).
        rewrite vault_at_set_vault. destruct (decide (vaultId = other)); [congruence|].
        reflexivity.
      * rewrite strategy_at_set_vaultStrategy.
        destruct (decide (vaultId = other)); [congruence|]. reflexivity.
Qed.

(** ** X2: a first deposit and its full withdrawal *)

(** X2. The depositor who made the first deposit into an empty vault
    and redeems all the minted shares gets back exactly the two amounts
    deposited, and the vault is empty again: provided the two products
    [shares * amount] fit in 256 bits and the token transfers to the
    depositor succeed. *)
Theorem first_deposit_round_trip (msg msg' : Msg) (vaultId amountA amountB shares : N)
    (w w1 : World) (l1 l2 : Ledger) :
  let vault := vault_at (vmStore w) vaultId in
  IVault.totalShares vault = 0 ->
  IVault.totalTokenA vault = 0 ->
  IVault.totalTokenB vault = 0 ->
  deposit msg vaultId amountA amountB w = Ok (shares, w1) ->
  msg_sender msg' = msg_sender msg ->
  shares * amountA <= MAX_UINT256 ->
  shares * amountB <= MAX_UINT256 ->
  safeTransfer (IVault.tokenA vault) (vmAddress w) (msg_sender msg) amountA (tokens w1)
    = Ok l1 ->
  safeTransfer (IVault.tokenB vault) (vmAddress w) (msg_sender msg) amountB l1 = Ok l2 ->
  exists w2 : World,
    withdraw msg' vaultId shares w1 = Ok (amountA, amountB, w2) /\
    IVault.totalShares (vault_at (vmStore w2) vaultId) = 0 /\
    IVault.totalTokenA (vault_at (vmStore w2) vaultId) = 0 /\
    IVault.totalTokenB (vault_at (vmStore w2) vaultId) = 0 /\
    getUserShares (vmStore w2) vaultId (msg_sender msg)
      = getUserShares (vmStore w) vaultId (msg_sender msg).
Proof.
  intros vault HS HA HB Hdep Hsender HfitA HfitB Hmove1 Hmove2.
  pose proof (deposit_unfold _ _ _ _ _ _ _ Hdep) as U. cbv zeta in U.
  destruct U as (_ & Hown & _ & HminA & HminB & Hminted & la & lb & _ & _ & Hw1).
  subst w1. clear Hdep. cbn [tokens emit with_tokens with_vm] in Hmove1.
  fold vault in Hown, Hminted. rewrite HS in Hminted. cbn [N.eqb] in Hminted.
  destruct Hminted as [Hfits Hroot].
  assert (Hpos : shares <> 0).
  { destruct (N.eq_dec (amountA * amountB) MAX_UINT256) as [Hmax|Hbelow].
    - rewrite Hmax, sqrt_max_reverts in Hroot. discriminate.
    - rewrite sqrt_fuel_enough in Hroot by lia. apply Ok_inj in Hroot. subst shares.
      assert (Hbig : 1 * 1 <= amountA * amountB)
        by (apply N.mul_le_mono; unfold MIN_DEPOSIT in *; lia).
      apply N.sqrt_le_mono in Hbig. rewrite N.sqrt_square in Hbig. lia. }
  unfold withdraw. cbn [vmStore emit with_tokens with_vm vmAddress tokens].
  rewrite Hsender, vault_at_written, getUserShares_written.
  cbn [IVault.with_ledger IVault.owner IVault.totalShares IVault.totalTokenA
       IVault.totalTokenB IVault.tokenA IVault.tokenB].
  fold vault. rewrite HS, HA, HB. rewrite !N.add_0_l.
  destruct (N.eqb_spec (IVault.owner vault) 0); [contradiction|].
  match goal with |- context [if ?a <? ?b then _ else _] =>
    destruct (N.ltb_spec a b); [lia|] end.
  rewrite checked_mul_fits by assumption. cbn [bind].
  rewrite checked_div_nonzero by assumption. cbn [bind].
  rewrite checked_mul_fits by assumption. cbn [bind].
  rewrite checked_div_nonzero by assumption. cbn [bind].
  rewrite (N.mul_comm shares amountA), (N.mul_comm shares amountB).
  rewrite !N.div_mul by assumption.
  rewrite !checked_sub_fits by lia. cbn [bind].
  rewrite Hmove1. cbn [bind]. rewrite Hmove2. cbn [bind].
  eexists. split; [reflexivity|].
  cbn [vmStore emit with_tokens with_vm].
  rewrite vault_at_written, getUserShares_written.
  cbn [IVault.with_ledger IVault.totalShares IVault.totalTokenA IVault.totalTokenB].
  repeat split; lia.
Qed.

(** ** X3, X4: the price of a share never falls *)

(** X3. A withdrawal rounds in favour of the vault: the amount paid out
    is at most the pro-rata part, and the balance left per share left is
    at least what it was ([totalTokenX' * totalShares >= totalTokenX *
    totalShares']), for both tokens. *)
Theorem withdraw_never_dilutes (msg : Msg) (vaultId shares : N) (w : World)
    (amountA amountB : N) (w' : World) :
  withdraw msg vaultId shares w = Ok (amountA, amountB, w') ->
  let vault := vault_at (vmStore w) vaultId in
  let vault' := vault_at (vmStore w') vaultId in
  amountA * IVault.totalShares vault <= shares * IVault.totalTokenA vault /\
  amountB * IVault.totalShares vault <= shares * IVault.totalTokenB vault /\
  IVault.totalTokenA vault * IVault.totalShares vault'
    <= IVault.totalTokenA vault' * IVault.totalShares vault /\
  IVault.totalTokenB vault * IVault.totalShares vault'
    <= IVault.totalTokenB vault' * IVault.totalShares vault.
Proof.
  intros H vault vault'.
  pose proof (withdraw_unfold _ _ _ _ _ _ _ H) as U. cbv zeta in U.
  destruct U as (_ & _ & Hcovered & Hsome & HoutA & HoutB & HleA & HleB
                 & la & lb & _ & _ & Hw).
  subst vault'. rewrite Hw. clear H Hw.
  fold vault in Hcovered, Hsome, HoutA, HoutB, HleA, HleB.
  cbn [vmStore emit with_tokens with_vm]. rewrite vault_at_written.
  cbn [IVault.with_ledger IVault.totalShares IVault.totalTokenA IVault.totalTokenB].
  fold vault.
  assert (HfloorA : amountA * IVault.totalShares vault <= shares * IVault.totalTokenA vault).
  { rewrite HoutA, N.mul_comm. apply N.Div0.mul_div_le. }
  assert (HfloorB : amountB * IVault.totalShares vault <= shares * IVault.totalTokenB vault).
  { rewrite HoutB, N.mul_comm. apply N.Div0.mul_div_le. }
  do 2 (split; [assumption|]).
  clear HoutA HoutB. split; nia.
Qed.

(** X4. A deposit into a vault that has shares mints at most the
    pro-rata number of shares for each token, so the balance per share
    does not fall for the holders already there
    ([totalTokenX' * totalShares >= totalTokenX * totalShares']). *)
Theorem deposit_never_dilutes (msg : Msg) (vaultId amountA amountB : N) (w : World)
    (shares : N) (w' : World) :
  deposit msg vaultId amountA amountB w = Ok (shares, w') ->
  let vault := vault_at (vmStore w) vaultId in
  let vault' := vault_at (vmStore w') vaultId in
  IVault.totalShares vault <> 0 ->
  shares * IVault.totalTokenA vault <= amountA * IVault.totalShares vault /\
  shares * IVault.totalTokenB vault <= amountB * IVault.totalShares vault /\
  IVault.totalTokenA vault * IVault.totalShares vault'
    <= IVault.totalTokenA vault' * IVault.totalShares vault /\
  IVault.totalTokenB vault * IVault.totalShares vault'
    <= IVault.totalTokenB vault' * IVault.totalShares vault.
Proof.
  intros H vault vault' Hsome.
  pose proof (deposit_unfold _ _ _ _ _ _ _ H) as U. cbv zeta in U.
  destruct U as (_ & _ & _ & _ & _ & Hminted & la & lb & _ & _ & Hw).
  subst vault'. rewrite Hw. clear H Hw.
  fold vault in Hminted. apply N.eqb_neq in Hsome. rewrite Hsome in Hminted.
  destruct Hminted as (HtA & HtB & Hmin).
  cbn [vmStore emit with_tokens with_vm]. rewrite vault_at_written.
  cbn [IVault.with_ledger IVault.totalShares IVault.totalTokenA IVault.totalTokenB].
  fold vault.
  pose proof (N.Div0.mul_div_le (amountA * IVault.totalShares vault)
                (IVault.totalTokenA vault)) as HfloorA.
  pose proof (N.Div0.mul_div_le (amountB * IVault.totalShares vault)
                (IVault.totalTokenB vault)) as HfloorB.
  pose proof (N.le_min_l (amountA * IVault.totalShares vault / IVault.totalTokenA vault)
                (amountB * IVault.totalShares vault / IVault.totalTokenB vault)) as HminA.
  pose proof (N.le_min_r (amountA * IVault.totalShares vault / IVault.totalTokenA vault)
                (amountB * IVault.totalShares vault / IVault.totalTokenB vault)) as HminB.
  rewrite <- Hmin in HminA, HminB. clear Hmin.
  assert (HproA : shares * IVault.totalTokenA vault <= amountA * IVault.totalShares vault).
  { etransitivity; [|exact HfloorA]. rewrite (N.mul_comm shares).
    apply N.mul_le_mono_l. exact HminA. }
  assert (HproB : shares * IVault.totalTokenB vault <= amountB * IVault.totalShares vault).
  { etransitivity; [|exact HfloorB]. rewrite (N.mul_comm shares).
    apply N.mul_le_mono_l. exact HminB. }
  do 2 (split; [assumption|]).
  clear HfloorA HfloorB HminA HminB. split; nia.
Qed.

(** ** Every committed call, case by case *)

Lemma attachStrategy_unfold msg vaultId strategy w w' :
  attachStrategy msg vaultId strategy w = Ok w' ->
  let st := vmStore w in
  let vault := vault_at st vaultId in
  IVault.owner vault <> 0 /\
  (msg_sender msg = IVault.owner vault \/ msg_sender msg = vm_owner st) /\
  w' = emit (with_vm w (set_vault st vaultId (IVault.with_strategy vault strategy)))
            (StrategyAttached vaultId strategy).
Proof.
  intros H st vault. unfold attachStrategy in H. fold st in H. fold vault in H.
  destruct (N.eqb_spec (IVault.owner vault) 0); [discriminate|].
  apply bind_Ok in H as (u & Hauth & H). apply require_Ok in Hauth.
  apply Ok_inj in H. split; [assumption|]. split; [|congruence].
  apply orb_true_iff in Hauth as [Hauth|Hauth]; apply N.eqb_eq in Hauth; auto.
Qed.

Lemma vault_at_stored st vaultId :
  IVault.owner (vault_at st vaultId) <> 0 ->
  vaults st !! vaultId = Some (vault_at st vaultId).
Proof.
  unfold vault_at. destruct (vaults st !! vaultId); [reflexivity|].
  cbn [IVault.zero IVault.owner]. congruence.
Qed.

Lemma rebalance_vault_step msg vaultId strategyData w w' :
  rebalance msg vaultId strategyData w = Ok w' ->
  vault_step (vmStore w) (vmStore w') /\
  vm_settings (vmStore w') = vm_settings (vmStore w).
Proof.
  intros H. pose proof (rebalance_unfold _ _ _ _ _ H) as U. cbv zeta in U.
  destruct U as (_ & _ & Hown & _ & lower & upper & pct & newA & newB & l & _ & ->).
  split; [|reflexivity].
  eapply step_update;
    [apply vault_at_stored; exact Hown | | reflexivity | reflexivity].
  repeat split.
Qed.

(** The vaults and the settings across one committed call. *)
Lemma run_vm_step (msg : Msg) (tx : Tx) (w w' : World) :
  run msg tx w = Ok w' ->
  vault_step (vmStore w) (vmStore w') /\
  (vm_settings (vmStore w') = vm_settings (vmStore w) \/
   msg_sender msg = vm_owner (vmStore w) \/
   msg_sender msg = vm_pendingOwner (vmStore w)) /\
  (feeRecipient (vmStore w) <> 0 -> feeRecipient (vmStore w') <> 0).
Proof.
  intros H. destruct tx; cbn [run] in H.
  - apply bind_Ok in H as ([id w1] & Hcall & H). apply Ok_inj in H. cbn [snd] in H.
    subst w1. apply createVault_unfold in Hcall as (_ & HA & HB & HAB & Hid & ->).
    cbn [vmStore emit with_vm]. split; [|split; [left; reflexivity | auto]].
    subst id.
    eapply step_create; [ | reflexivity | reflexivity].
    repeat split; assumption.
  - apply bind_Ok in H as ([sh w1] & Hcall & H). apply Ok_inj in H. cbn [snd] in H.
    subst w1. pose proof (deposit_unfold _ _ _ _ _ _ _ Hcall) as U. cbv zeta in U.
    destruct U as (_ & Hown & _ & _ & _ & _ & la & lb & _ & _ & ->).
    cbn [vmStore emit with_tokens with_vm].
    split; [|split; [left; reflexivity | auto]].
    eapply step_update;
      [apply vault_at_stored; exact Hown | | reflexivity | reflexivity].
    repeat split.
  - apply bind_Ok in H as ([[a b] w1] & Hcall & H). apply Ok_inj in H. cbn [snd] in H.
    subst w1. pose proof (withdraw_unfold _ _ _ _ _ _ _ Hcall) as U. cbv zeta in U.
    destruct U as (Hown & _ & _ & _ & _ & _ & _ & _ & la & lb & _ & _ & ->).
    cbn [vmStore emit with_tokens with_vm].
    split; [|split; [left; reflexivity | auto]].
    eapply step_update;
      [apply vault_at_stored; exact Hown | | reflexivity | reflexivity].
    repeat split.
  - apply rebalance_vault_step in H as [Hstep Hsame].
    split; [assumption|]. split; [left; assumption|].
    unfold vm_settings in Hsame. congruence.
  - pose proof (attachStrategy_unfold _ _ _ _ _ H) as U. cbv zeta in U.
    destruct U as (Hown & _ & ->). cbn [vmStore emit with_vm].
    split; [|split; [left; reflexivity | auto]].
    eapply step_update;
      [apply vault_at_stored; exact Hown | | reflexivity | reflexivity].
    repeat split.
  - unfold setStrategyManager, onlyOwner in H. unravel_all. subst w'.
    cbn [vmStore with_vm]. split; [apply step_same; reflexivity|].
    split; [right; left; apply N.eqb_eq; assumption | auto].
  - unfold setRelayerAuthorization, onlyOwner in H. unravel_all. subst w'.
    cbn [vmStore with_vm]. split; [apply step_same; reflexivity|].
    split; [right; left; apply N.eqb_eq; assumption | auto].
  - unfold setProtocolFee, onlyOwner in H. unravel_all. subst w'.
    cbn [vmStore with_vm]. split; [apply step_same; reflexivity|].
    split; [right; left; apply N.eqb_eq; assumption | auto].
  - unfold setFeeRecipient, onlyOwner in H. unravel_all. subst w'.
    cbn [vmStore with_vm]. split; [apply step_same; reflexivity|].
    split; [right; left; apply N.eqb_eq; assumption |].
    intros _. cbn [set_feeRecipient feeRecipient]. apply N.eqb_neq. assumption.
  - unfold pause, onlyOwner, whenNotPaused in H. unravel_all. subst w'.
    cbn [vmStore with_vm]. split; [apply step_same; reflexivity|].
    split; [right; left; apply N.eqb_eq; assumption | auto].
  - unfold unpause, onlyOwner, whenPaused in H. unravel_all. subst w'.
    cbn [vmStore with_vm]. split; [apply step_same; reflexivity|].
    split; [right; left; apply N.eqb_eq; assumption | auto].
  - unfold vm_transferOwnership, onlyOwner in H. unravel_all. subst w'.
    cbn [vmStore with_vm]. split; [apply step_same; reflexivity|].
    split; [right; left; apply N.eqb_eq; assumption | auto].
  - unfold vm_acceptOwnership in H. unravel_all. subst w'.
    cbn [vmStore with_vm]. split; [apply step_same; reflexivity|].
    split; [right; right; apply N.eqb_eq; assumption | auto].
  - unfold vm_renounceOwnership, onlyOwner in H. unravel_all. subst w'.
    cbn [vmStore with_vm]. split; [apply step_same; reflexivity|].
    split; [right; left; apply N.eqb_eq; assumption | auto].
  - apply executeRebalance_Ok in H as (payload & signer & w2 & _ & Hcall & ->).
    apply call_rebalance_true in Hcall as [[_ Hcall]|(_ & _ & _ & ->)].
    + apply rebalance_vault_step in Hcall as [Hstep Hsame].
      cbn [vmStore emit nonce_bumped with_ex] in *.
      split; [assumption|]. split; [left; assumption|].
      unfold vm_settings in Hsame. congruence.
    + cbn [vmStore emit nonce_bumped with_ex].
      split; [apply step_same; reflexivity|]. split; [left; reflexivity | auto].
  - unfold setSignerAuthorization, onlyOwner in H. unravel_all. subst w'.
    cbn [vmStore with_ex]. split; [apply step_same; reflexivity|].
    split; [left; reflexivity | auto].
  - unfold setVaultManager, onlyOwner in H. unravel_all. subst w'.
    cbn [vmStore with_ex]. split; [apply step_same; reflexivity|].
    split; [left; reflexivity | auto].
  - unfold setMaxPayloadAge, onlyOwner in H. unravel_all. subst w'.
    cbn [vmStore with_ex]. split; [apply step_same; reflexivity|].
    split; [left; reflexivity | auto].
  - unfold setMaxExpiryDuration, onlyOwner in H. unravel_all. subst w'.
    cbn [vmStore with_ex]. split; [apply step_same; reflexivity|].
    split; [left; reflexivity | auto].
  - unfold ex_transferOwnership, onlyOwner in H. unravel_all. subst w'.
    cbn [vmStore with_ex]. split; [apply step_same; reflexivity|].
    split; [left; reflexivity | auto].
  - unfold ex_acceptOwnership in H. unravel_all. subst w'.
    cbn [vmStore with_ex]. split; [apply step_same; reflexivity|].
    split; [left; reflexivity | auto].
  - unfold ex_renounceOwnership, onlyOwner in H. unravel_all. subst w'.
    cbn [vmStore with_ex]. split; [apply step_same; reflexivity|].
    split; [left; reflexivity | auto].
  - apply Ok_inj in H. subst w'. cbn [vmStore with_tokens].
    split; [apply step_same; reflexivity|]. split; [left; reflexivity | auto].
Qed.

(** The executor's settings across one committed call. *)
Lemma run_ex_step (msg : Msg) (tx : Tx) (w w' : World) :
  run msg tx w = Ok w' ->
  ex_settings (exStore w') = ex_settings (exStore w) \/
  msg_sender msg = ex_owner (exStore w) \/
  msg_sender msg = ex_pendingOwner (exStore w).
Proof.
  intros H. destruct tx; cbn [run] in H.
  - apply bind_Ok in H as ([id w1] & Hcall & H). apply Ok_inj in H. cbn [snd] in H.
    subst w1. apply createVault_effect in Hcall as (-> & _). auto.
  - apply bind_Ok in H as ([sh w1] & Hcall & H). apply Ok_inj in H. cbn [snd] in H.
    subst w1. apply deposit_effect in Hcall as (-> & _). auto.
  - apply bind_Ok in H as ([[a b] w1] & Hcall & H). apply Ok_inj in H. cbn [snd] in H.
    subst w1. apply withdraw_effect in Hcall as (-> & _). auto.
  - apply rebalance_effect in H as (-> & _). auto.
  - apply attachStrategy_effect in H as (-> & _). auto.
  - unfold setStrategyManager, onlyOwner in H. unravel_all. subst w'. auto.
  - unfold setRelayerAuthorization, onlyOwner in H. unravel_all. subst w'. auto.
  - unfold setProtocolFee, onlyOwner in H. unravel_all. subst w'. auto.
  - unfold setFeeRecipient, onlyOwner in H. unravel_all. subst w'. auto.
  - unfold pause, onlyOwner, whenNotPaused in H. unravel_all. subst w'. auto.
  - unfold unpause, onlyOwner, whenPaused in H. unravel_all. subst w'. auto.
  - unfold vm_transferOwnership, onlyOwner in H. unravel_all. subst w'. auto.
  - unfold vm_acceptOwnership in H. unravel_all. subst w'. auto.
  - unfold vm_renounceOwnership, onlyOwner in H. unravel_all. subst w'. auto.
  - apply executeRebalance_effect in H as (_ & _ & _ & _ & payload & signer & _ & ->).
    left. reflexivity.
  - unfold setSignerAuthorization, onlyOwner in H. unravel_all.
    right; left. apply N.eqb_eq. assumption.
  - unfold setVaultManager, onlyOwner in H. unravel_all.
    right; left. apply N.eqb_eq. assumption.
  - unfold setMaxPayloadAge, onlyOwner in H. unravel_all.
    right; left. apply N.eqb_eq. assumption.
  - unfold setMaxExpiryDuration, onlyOwner in H. unravel_all.
    right; left. apply N.eqb_eq. assumption.
  - unfold ex_transferOwnership, onlyOwner in H. unravel_all.
    right; left. apply N.eqb_eq. assumption.
  - unfold ex_acceptOwnership in H. unravel_all.
    right; right. apply N.eqb_eq. assumption.
  - unfold ex_renounceOwnership, onlyOwner in H. unravel_all.
    right; left. apply N.eqb_eq. assumption.
  - apply Ok_inj in H. subst w'. auto.
Qed.

(** A property of worlds that every committed call keeps holds along
    every history. *)
Lemma history_invariant (P : World -> Prop) :
  (forall msg tx w w', P w -> run msg tx w = Ok w' -> P w') ->
  forall (calls : list (Msg * Tx)) (w : World), P w -> P (transact_all w calls).
Proof.
  intros Hstep calls. induction calls as [|call calls IH]; intros w HP; [exact HP|].
  cbn [transact_all fold_left]. fold (transact_all (transact w call) calls).
  apply IH. unfold transact.
  destruct (run (fst call) (snd call) w) as [w'|e] eqn:H; [|exact HP].
  exact (Hstep _ _ _ _ HP H).
Qed.

Lemma vault_step_well_formed st st' :
  vault_step st st' -> vaults_well_formed st -> vaults_well_formed st'.
Proof.
  intros [Hv Hc | id v v' Hat Hsame Hv Hc | v' Hnew Hv Hc] Hwf id0 v0 H0;
    rewrite Hv in H0; rewrite Hc.
  - exact (Hwf id0 v0 H0).
  - rewrite lookup_insert in H0. destruct (decide (id = id0)) as [<-|].
    + apply Some_inj in H0. subst v0.
      destruct (Hwf id v Hat) as [(Hid & Hact & HA & HB & HAB) Hrange].
      destruct Hsame as (Sid & Sown & SA & SB & Sact).
      split; [|exact Hrange]. unfold well_formed. rewrite Sid, Sact, SA, SB. auto.
    + exact (Hwf id0 v0 H0).
  - rewrite lookup_insert in H0.
    destruct (decide (vaultCount st + 1 = id0)) as [<-|].
    + apply Some_inj in H0. subst v0. split; [exact Hnew | lia].
    + destruct (Hwf id0 v0 H0) as [Hform Hrange]. split; [exact Hform | lia].
Qed.

Lemma vault_step_identity st st' vaultId v :
  vault_step st st' -> vaults_well_formed st -> vaults st !! vaultId = Some v ->
  vaultCount st <= vaultCount st' /\
  exists v', vaults st' !! vaultId = Some v' /\ same_identity v v'.
Proof.
  intros [Hv Hc | id u u' Hat Hsame Hv Hc | u' Hnew Hv Hc] Hwf H0;
    rewrite Hv, Hc; (split; [lia|]).
  - exists v. split; [exact H0 | repeat split].
  - rewrite lookup_insert. destruct (decide (id = vaultId)) as [->|].
    + exists u'. split; [reflexivity|]. congruence.
    + exists v. split; [exact H0 | repeat split].
  - rewrite lookup_insert. destruct (decide (vaultCount st + 1 = vaultId)) as [<-|].
    + destruct (Hwf _ _ H0) as [_ Hrange]. lia.
    + exists v. split; [exact H0 | repeat split].
Qed.

Lemma deploy_well_formed vmAddr exAddr vmDeployer exDeployer recipient target l w0 :
  deploy vmAddr exAddr vmDeployer exDeployer recipient target l = Ok w0 ->
  vaults_well_formed (vmStore w0) /\ feeRecipient (vmStore w0) <> 0.
Proof.
  unfold deploy. intros H.
  destruct (N.eqb_spec recipient 0); [discriminate|].
  destruct (target =? 0); [discriminate|].
  apply Ok_inj in H. subst w0. cbn [vmStore feeRecipient]. split; [|assumption].
  intros id v Hv. cbn [vaults] in Hv. rewrite lookup_empty in Hv. discriminate.
Qed.

Lemma history_well_formed (calls : list (Msg * Tx)) (w : World) :
  vaults_well_formed (vmStore w) -> vaults_well_formed (vmStore (transact_all w calls)).
Proof.
  apply (history_invariant (fun w => vaults_well_formed (vmStore w))).
  intros msg tx w1 w2 Hwf H. apply run_vm_step in H as (Hstep & _).
  exact (vault_step_well_formed _ _ Hstep Hwf).
Qed.

Lemma reachable_well_formed (w : World) :
  reachable w -> vaults_well_formed (vmStore w).
Proof.
  intros (vmAddr & exAddr & vmDeployer & exDeployer & recipient & target & l & w0 & calls
          & Hdeploy & ->).
  apply history_well_formed. exact (proj1 (deploy_well_formed _ _ _ _ _ _ _ _ Hdeploy)).
Qed.

(** ** X5: a vault is never deactivated *)

Lemma bind_never {A B} (m : Result A) (k : A -> Result B) (e : Error) :
  m <> Revert e -> (forall a, k a <> Revert e) -> bind m k <> Revert e.
Proof. intros Hm Hk. destruct m as [a|e']; cbn [bind]; [apply Hk | congruence]. Qed.

Lemma sqrt_never_inactive (x : N) : _sqrt x <> Revert VaultInactive.
Proof.
  unfold _sqrt. destruct (x =? 0); [discriminate|].
  apply bind_never; [unfold checked_add; destruct (_ <=? _); discriminate|].
  intros s. generalize x at 2 as y. generalize (s / 2) as z.
  induction sqrt_fuel as [|fuel IH]; intros z y; cbn [_sqrt_loop];
    destruct (z <? y); try discriminate.
  apply bind_never; [unfold checked_div; destruct (_ =? _); discriminate|]. intros q.
  apply bind_never; [unfold checked_add; destruct (_ <=? _); discriminate|]. intros t.
  apply IH.
Qed.

(** Discharge [body <> Revert VaultInactive] along the binds and tests
    of [body], the token calls by the hypothesis on them. *)
Ltac never_inactive :=
  repeat first
    [ discriminate
    | assumption
    | apply sqrt_never_inactive
    | apply bind_never; [|intros ?]
    | match goal with
      | H : forall _, _ |- _ => apply H
      | |- (if ?c then _ else _) <> _ => destruct c
      | |- (let '(_, _) := ?p in _) <> _ => destruct p
      | |- match ?x with _ => _ end <> _ => destruct x
      end
    | progress unfold checked_add, checked_sub, checked_mul, checked_div ].

(** X5. In every world that a deployment and any history of calls lead
    to, each stored vault is as [createVault] made it: its [vaultId]
    field is its key, between 1 and [vaultCount], it is active, and its
    two tokens are non-zero and different. No function clears
    [isActive]: unless a token contract itself reverts with that error,
    neither [deposit] nor [rebalance] ever reverts with
    [VaultInactive]. *)
Theorem vaults_stay_well_formed (w : World) :
  reachable w ->
  vaults_well_formed (vmStore w) /\
  (forall vaultId : N,
      IVault.owner (vault_at (vmStore w) vaultId) <> 0 ->
      IVault.isActive (vault_at (vmStore w) vaultId) = true) /\
  ((forall token self from to value l,
       safeTransferFrom token self from to value l <> Revert VaultInactive) ->
   forall (msg : Msg) (vaultId amountA amountB : N),
     deposit msg vaultId amountA amountB w <> Revert VaultInactive) /\
  ((forall token self to value l,
       safeTransfer token self to value l <> Revert VaultInactive) ->
   forall (msg : Msg) (vaultId : N) (strategyData : bytes),
     rebalance msg vaultId strategyData w <> Revert VaultInactive).
Proof.
  intros Hreach. apply reachable_well_formed in Hreach as Hwf.
  split; [exact Hwf|].
  assert (Hactive : forall vaultId,
             IVault.owner (vault_at (vmStore w) vaultId) <> 0 ->
             IVault.isActive (vault_at (vmStore w) vaultId) = true).
  { intros vaultId Hown. apply vault_at_stored in Hown.
    destruct (Hwf _ _ Hown) as [(_ & Hact & _) _]. exact Hact. }
  split; [exact Hactive|]. split.
  - intros Htoken msg vaultId amountA amountB. unfold deposit.
    apply bind_never;
      [unfold whenNotPaused, require; destruct (negb _); discriminate|]. intros _.
    destruct (N.eqb_spec (IVault.owner (vault_at (vmStore w) vaultId)) 0);
      [discriminate|].
    rewrite Hactive by assumption. cbn [negb]. clear Hactive Hwf Hreach.
    never_inactive.
  - intros Htoken msg vaultId strategyData. unfold rebalance.
    apply bind_never;
      [unfold whenNotPaused, require; destruct (negb _); discriminate|]. intros _.
    destruct (negb (is_relayer (vmStore w) (msg_sender msg))
              && negb (msg_sender msg =? vm_owner (vmStore w))); [discriminate|].
    destruct (N.eqb_spec (IVault.owner (vault_at (vmStore w) vaultId)) 0);
      [discriminate|].
    rewrite Hactive by assumption. cbn [negb]. clear Hactive Hwf Hreach.
    apply bind_never.
    { unfold abi_decode_strategyData. never_inactive. }
    intros [[lower upper] pct]. never_inactive.
Qed.

(** ** X6: the identity of a vault is permanent *)

Lemma same_identity_trans (u v x : IVault.VaultInfo) :
  same_identity u v -> same_identity v x -> same_identity u x.
Proof. unfold same_identity. intros (? & ? & ? & ? & ?) (? & ? & ? & ? & ?). intuition congruence. Qed.

(** X6. A vault stored in a reachable world stays stored under its id
    through every further history of calls, committed or reverted, with
    the same [vaultId], [owner], [tokenA], [tokenB] and [isActive]; and
    [vaultCount] never decreases. *)
Theorem vault_identity_is_permanent (w : World) (vaultId : N) (v : IVault.VaultInfo)
    (calls : list (Msg * Tx)) :
  reachable w ->
  vaults (vmStore w) !! vaultId = Some v ->
  vaultCount (vmStore w) <= vaultCount (vmStore (transact_all w calls)) /\
  exists v' : IVault.VaultInfo,
    vaults (vmStore (transact_all w calls)) !! vaultId = Some v' /\
    same_identity v v'.
Proof.
  intros Hreach Hv. apply reachable_well_formed in Hreach.
  apply (history_invariant
           (fun w1 => vaults_well_formed (vmStore w1) /\
                      vaultCount (vmStore w) <= vaultCount (vmStore w1) /\
                      exists v', vaults (vmStore w1) !! vaultId = Some v' /\
                                 same_identity v v')) with (w := w) (calls := calls).
  - intros msg tx w1 w2 (Hwf & Hcount & v1 & Hv1 & Hsame) H.
    apply run_vm_step in H as (Hstep & _).
    split; [exact (vault_step_well_formed _ _ Hstep Hwf)|].
    destruct (vault_step_identity _ _ _ _ Hstep Hwf Hv1) as (Hle & v2 & Hv2 & Hsame').
    split; [lia|]. exists v2. split; [exact Hv2|].
    exact (same_identity_trans _ _ _ Hsame Hsame').
  - split; [exact Hreach|]. split; [lia|]. exists v. split; [exact Hv | repeat split].
Qed.

(** ** X7: the settings need the owner *)

(** X7. A transaction sent by an account that is neither the owner nor
    the pending owner of [VaultManager] leaves its settings as they
    were: the relayers, the strategy manager, the protocol fee, the fee
    recipient, the owner, the pending owner and the pause flag. The
    same holds of [RebalanceExecutor] with its own owner: the address
    it calls, the signers, the two payload limits, the owner and the
    pending owner. *)
Theorem settings_need_the_owner (msg : Msg) (tx : Tx) (w : World) :
  (msg_sender msg <> vm_owner (vmStore w) ->
   msg_sender msg <> vm_pendingOwner (vmStore w) ->
   vm_settings (vmStore (transact w (msg, tx))) = vm_settings (vmStore w)) /\
  (msg_sender msg <> ex_owner (exStore w) ->
   msg_sender msg <> ex_pendingOwner (exStore w) ->
   ex_settings (exStore (transact w (msg, tx))) = ex_settings (exStore w)).
Proof.
  unfold transact. cbn [fst snd].
  destruct (run msg tx w) as [w'|e] eqn:H; [|auto]. split; intros Hown Hpending.
  - apply run_vm_step in H as (_ & [Hsame|[Heq|Heq]] & _); [exact Hsame|contradiction..].
  - apply run_ex_step in H as [Hsame|[Heq|Heq]]; [exact Hsame|contradiction..].
Qed.

(** ** X8: fees never go to the zero address *)

(** X8. In every reachable world [feeRecipient] is not the zero
    address: the constructor and [setFeeRecipient] refuse it and
    nothing else assigns it. *)
Theorem fee_recipient_never_zero (w : World) :
  reachable w -> feeRecipient (vmStore w) <> 0.
Proof.
  intros (vmAddr & exAddr & vmDeployer & exDeployer & recipient & target & l & w0 & calls
          & Hdeploy & ->).
  apply deploy_well_formed in Hdeploy as [_ Hfee].
  apply (history_invariant (fun w => feeRecipient (vmStore w) <> 0)); [|exact Hfee].
  intros msg tx w1 w2 Hw1 H. apply run_vm_step in H as (_ & _ & Hkeep). auto.
Qed.

(** ** X9: a pause does not lock the deposits in *)

(** X9. While [VaultManager] is paused, [createVault], [deposit] and
    [rebalance] revert with [EnforcedPause] whoever calls, but
    [withdraw] has no pause check: it returns what it returns on the
    same contract unpaused, and leaves the pause in place. *)
Theorem withdraw_ignores_pause (msg : Msg) (vaultId : N) (w : World) :
  vm_paused (vmStore w) = true ->
  (forall tokenA tokenB params,
      createVault msg tokenA tokenB params w = Revert EnforcedPause) /\
  (forall amountA amountB,
      deposit msg vaultId amountA amountB w = Revert EnforcedPause) /\
  (forall strategyData,
      rebalance msg vaultId strategyData w = Revert EnforcedPause) /\
  (forall shares,
      withdraw msg vaultId shares w =
        match withdraw msg vaultId shares (with_vm w (set_paused (vmStore w) false)) with
        | Ok (amountA, amountB, w') =>
            Ok (amountA, amountB, with_vm w' (set_paused (vmStore w') true))
        | Revert e => Revert e
        end).
Proof.
  intros Hpaused.
  split; [|split; [|split]]; intros.
  - unfold createVault, whenNotPaused. rewrite Hpaused. reflexivity.
  - unfold deposit, whenNotPaused. rewrite Hpaused. reflexivity.
  - unfold rebalance, whenNotPaused. rewrite Hpaused. reflexivity.
  - destruct w as [vmA exA st ex l evs]. destruct st. cbn [vmStore vm_paused] in Hpaused.
    subst. unfold withdraw, vault_at, getUserShares, shares_in, set_userShares, set_vault,
      set_paused, emit, with_tokens, with_vm, shares_in.
    cbn [vmStore vmAddress exAddress exStore tokens log
         vaultCount vaults vaultStrategies userShares authorizedRelayers strategyManager
         protocolFeeBps feeRecipient vm_owner vm_pendingOwner vm_paused].
    decide_tests; reflexivity.
Qed.

(** ** X10: an attached strategy is inert *)

(** X10. [attachStrategy] needs a stored vault and its owner or the
    contract owner, takes any address and runs even while the contract
    is paused; it writes the [strategy] field of that vault and nothing
    else, and no other function reads the field: a [deposit] or a
    [withdraw] after it returns what it returns without it. *)
Theorem attached_strategy_is_inert (msg : Msg) (vaultId : N) (strategy : address)
    (w w1 : World) :
  attachStrategy msg vaultId strategy w = Ok w1 ->
  IVault.owner (vault_at (vmStore w) vaultId) <> 0 /\
  (msg_sender msg = IVault.owner (vault_at (vmStore w) vaultId) \/
   msg_sender msg = vm_owner (vmStore w)) /\
  vault_at (vmStore w1) vaultId
    = IVault.with_strategy (vault_at (vmStore w) vaultId) strategy /\
  (forall other : N,
      other <> vaultId -> vault_at (vmStore w1) other = vault_at (vmStore w) other) /\
  (forall (msg' : Msg) (vaultId' amountA amountB : N),
      match deposit msg' vaultId' amountA amountB w,
            deposit msg' vaultId' amountA amountB w1 with
      | Ok (shares, _), Ok (shares1, _) => shares = shares1
      | Revert e, Revert e1 => e = e1
      | _, _ => False
      end) /\
  (forall (msg' : Msg) (vaultId' shares : N),
      match withdraw msg' vaultId' shares w, withdraw msg' vaultId' shares w1 with
      | Ok (amountA, amountB, _), Ok (amountA1, amountB1, _) =>
          amountA = amountA1 /\ amountB = amountB1
      | Revert e, Revert e1 => e = e1
      | _, _ => False
      end).
Proof.
  intros H. pose proof (attachStrategy_unfold _ _ _ _ _ H) as U. cbv zeta in U.
  destruct U as (Hown & Hauth & ->). clear H.
  cbn [vmStore emit with_vm].
  split; [exact Hown|]. split; [exact Hauth|].
  split; [|split; [|split]].
  - rewrite vault_at_set_vault. destruct (decide (vaultId = vaultId)); congruence.
  - intros other Hother. rewrite vault_at_set_vault.
    destruct (decide (vaultId = other)); congruence.
  - intros msg' vaultId' amountA amountB. unfold deposit.
    cbn [vmStore emit with_vm vmAddress tokens].
    change (getUserShares (set_vault ?s ?i ?v) ?j ?a) with (getUserShares s j a).
    change (whenNotPaused (set_vault ?s ?i ?v)) with (whenNotPaused s).
    rewrite vault_at_set_vault.
    destruct (decide (vaultId = vaultId')) as [<-|];
      cbn [IVault.with_strategy IVault.owner IVault.isActive IVault.tokenA IVault.tokenB
           IVault.totalShares IVault.totalTokenA IVault.totalTokenB];
      decide_tests; auto.
  - intros msg' vaultId' shares. unfold withdraw.
    cbn [vmStore emit with_vm vmAddress tokens].
    change (getUserShares (set_vault ?s ?i ?v) ?j ?a) with (getUserShares s j a).
    rewrite vault_at_set_vault.
    destruct (decide (vaultId = vaultId')) as [<-|];
      cbn [IVault.with_strategy IVault.owner IVault.isActive IVault.tokenA IVault.tokenB
           IVault.totalShares IVault.totalTokenA IVault.totalTokenB];
      decide_tests; auto.
Qed.

(** ** X11: what a rebalance writes *)


(** ** X12, X13: the executor and the VaultManager together *)


(** X13. With the slot [vaultManager] on the VaultManager, no payload
    goes through [executeRebalance] while the VaultManager is paused,
    or the executor contract is neither one of its relayers nor its
    owner, or the vault is not stored; one that passes all the
    executor's own checks reverts with [ExecutionFailed]. *)
Theorem executor_needs_the_vault_manager (msg : Msg) (vaultId : N)
    (signedPayload signature : bytes) (w : World) :
  vaultManager (exStore w) = vmAddress w ->
  vm_paused (vmStore w) = true \/
  (is_relayer (vmStore w) (exAddress w) = false /\ exAddress w <> vm_owner (vmStore w)) \/
  IVault.owner (vault_at (vmStore w) vaultId) = 0 ->
  (exists e : Error,
      executeRebalance msg vaultId signedPayload signature w = Revert e) /\
  (forall (payload : IRebalanceExecutor.RebalancePayload) (signer : address),
      accepted msg vaultId signedPayload signature w payload signer ->
      executeRebalance msg vaultId signedPayload signature w = Revert ExecutionFailed).
Proof.
  intros Hslot Hblocked.
  assert (Hnever : forall w', executeRebalance msg vaultId signedPayload signature w
                              <> Ok w').
  { intros w' H. apply executeRebalance_Ok in H as (payload & signer & w2 & _ & Hcall & _).
    apply call_rebalance_true in Hcall as [[_ Hcall]|(Hother & _)];
      [|cbn [nonce_bumped with_ex exStore vmAddress] in Hother; contradiction].
    pose proof (rebalance_unfold _ _ _ _ _ Hcall) as U. cbv zeta in U.
    cbn [msg_sender nonce_bumped with_ex vmStore exAddress] in U.
    destruct U as (Hrun & Hauth & Hown & _).
    destruct Hblocked as [Hp|[[Hrel Hnot]|Hmissing]]; [congruence| |contradiction].
    destruct Hauth; congruence. }
  split.
  - destruct (executeRebalance msg vaultId signedPayload signature w) as [w'|e] eqn:H.
    + destruct (Hnever w'). reflexivity.
    + exists e. reflexivity.
  - intros payload signer Hacc.
    pose proof (executeRebalance_accepted _ _ _ _ _ _ _ Hacc) as Heq. cbv zeta in Heq.
    rewrite Heq in Hnever |- *.
    destruct (negb (fst (call_rebalance (block_timestamp msg) vaultId
                           (IRebalanceExecutor.actionData payload)
                           (nonce_bumped w signer)))); [reflexivity|].
    destruct (Hnever _ eq_refl).
Qed.

(** ** X14: authorising and revoking a signer *)

(** X14. [setSignerAuthorization] is for the executor's owner and not
    for the zero address. Once committed, the signer is authorised or
    not as asked, the other signers and all the nonces are as before;
    and after a revocation every payload of that signer that would have
    passed reverts with [UnauthorizedSigner]. *)
Theorem signer_authorization (msg : Msg) (signer : address) (authorized : bool)
    (w w1 : World) :
  setSignerAuthorization msg signer authorized w = Ok w1 ->
  msg_sender msg = ex_owner (exStore w) /\ signer <> 0 /\
  is_signer (exStore w1) signer = authorized /\
  (forall other : address,
      other <> signer -> is_signer (exStore w1) other = is_signer (exStore w) other) /\
  (forall a : address, getNonce (exStore w1) a = getNonce (exStore w) a) /\
  (authorized = false ->
   forall (msg' : Msg) (vaultId : N) (signedPayload signature : bytes)
          (payload : IRebalanceExecutor.RebalancePayload),
     accepted msg' vaultId signedPayload signature w payload signer ->
     executeRebalance msg' vaultId signedPayload signature w1
       = Revert UnauthorizedSigner).
Proof.
  intros H. unfold setSignerAuthorization, onlyOwner in H.
  apply bind_Ok in H as (u & Hown & H). apply require_Ok in Hown.
  apply N.eqb_eq in Hown.
  destruct (N.eqb_spec signer 0) as [|Hsigner]; [discriminate|].
  apply Ok_inj in H. subst w1. cbn [exStore with_ex].
  split; [exact Hown|]. split; [exact Hsigner|].
  assert (Hread : forall other, is_signer (set_signer (exStore w) signer authorized) other
                  = if decide (signer = other) then authorized
                    else is_signer (exStore w) other).
  { intros other. unfold is_signer, set_signer. cbn [authorizedSigners].
    rewrite lookup_insert. destruct (decide (signer = other)); reflexivity. }
  split; [|split; [|split]].
  - rewrite Hread. destruct (decide (signer = signer)); congruence.
  - intros other Hother. rewrite Hread. destruct (decide (signer = other)); congruence.
  - reflexivity.
  - intros -> msg' vaultId signedPayload signature payload
      (Hdec & Hid & Hexp & Hiss & Hfit & Hage & Hrec & _).
    unfold executeRebalance. rewrite Hdec. cbn [bind exStore with_ex exAddress].
    destruct (N.eqb_spec (IRebalanceExecutor.vaultId payload) vaultId); [|contradiction].
    cbn [negb].
    destruct (N.ltb_spec (IRebalanceExecutor.expiry payload) (block_timestamp msg'));
      [lia|].
    destruct (N.ltb_spec (block_timestamp msg') (IRebalanceExecutor.issuedAt payload));
      [lia|].
    change (maxPayloadAge (set_signer ?s ?a ?b)) with (maxPayloadAge s).
    rewrite checked_add_fits by assumption. cbn [bind].
    destruct (N.ltb_spec (IRebalanceExecutor.issuedAt payload + maxPayloadAge (exStore w))
                (block_timestamp msg')); [lia|].
    unfold getPayloadHash in Hrec. cbv zeta in Hrec.
    cbv zeta. rewrite Hrec. cbn [bind].
    rewrite Hread. destruct (decide (signer = signer)); [reflexivity | congruence].
Qed.
(** ** X15: a deposit that mints nothing *)

(** X15. A deposit into a vault that has shares rounds the minted
    shares down to zero when one amount is small against the vault's
    balance per share ([amount * totalShares < totalToken]): the call
    commits, the vault keeps both amounts, and the depositor's share
    balance is what it was. *)
Theorem deposit_can_mint_nothing (msg : Msg) (vaultId amountA amountB : N) (w : World)
    (shares : N) (w' : World) :
  deposit msg vaultId amountA amountB w = Ok (shares, w') ->
  let vault := vault_at (vmStore w) vaultId in
  let vault' := vault_at (vmStore w') vaultId in
  IVault.totalShares vault <> 0 ->
  amountA * IVault.totalShares vault < IVault.totalTokenA vault \/
  amountB * IVault.totalShares vault < IVault.totalTokenB vault ->
  shares = 0 /\
  IVault.totalShares vault' = IVault.totalShares vault /\
  IVault.totalTokenA vault' = IVault.totalTokenA vault + amountA /\
  IVault.totalTokenB vault' = IVault.totalTokenB vault + amountB /\
  getUserShares (vmStore w') vaultId (msg_sender msg)
    = getUserShares (vmStore w) vaultId (msg_sender msg).
Proof.
  intros H vault vault' Hsome Hsmall.
  pose proof (deposit_unfold _ _ _ _ _ _ _ H) as U. cbv zeta in U.
  destruct U as (_ & _ & _ & _ & _ & Hminted & la & lb & _ & _ & Hw).
  subst vault'. rewrite Hw. clear H Hw.
  fold vault in Hminted. apply N.eqb_neq in Hsome. rewrite Hsome in Hminted.
  destruct Hminted as (HtA & HtB & Hmin).
  assert (Hzero : shares = 0).
  { rewrite Hmin. destruct Hsmall as [Hsmall|Hsmall].
    - rewrite (N.div_small _ _ Hsmall). apply N.min_l, N.le_0_l.
    - rewrite (N.div_small _ _ Hsmall). apply N.min_r, N.le_0_l. }
  cbn [vmStore emit with_tokens with_vm].
  rewrite vault_at_written, getUserShares_written.
  cbn [IVault.with_ledger IVault.totalShares IVault.totalTokenA IVault.totalTokenB].
  fold vault. rewrite Hzero, !N.add_0_r. repeat split.
Qed.

(** ** X16: [maxExpiryDuration] is never read *)

Lemma rebalance_ex_irrelevant (msg : Msg) (vaultId : N) (strategyData : bytes)
    (w1 w2 : World) :
  vmAddress w2 = vmAddress w1 -> exAddress w2 = exAddress w1 ->
  vmStore w2 = vmStore w1 -> tokens w2 = tokens w1 -> log w2 = log w1 ->
  rebalance msg vaultId strategyData w2 =
    match rebalance msg vaultId strategyData w1 with
    | Ok w' => Ok (with_ex w' (exStore w2))
    | Revert e => Revert e
    end.
Proof.
  destruct w1 as [vmA1 exA1 vm1 ex1 l1 log1], w2 as [vmA2 exA2 vm2 ex2 l2 log2].
  cbn [vmAddress exAddress vmStore tokens log exStore]. intros -> -> -> -> ->.
  unfold rebalance. cbn [vmAddress exAddress vmStore tokens log exStore].
  decide_tests; reflexivity.
Qed.

(** X16. The executor stores [maxExpiryDuration] and its owner can set
    it, but [executeRebalance] never reads it: with any other value of
    the setting the same call reverts alike or commits the same world,
    so no payload is refused for an expiry that lies too far ahead. *)
Theorem maxExpiryDuration_is_dead (msg : Msg) (vaultId : N)
    (signedPayload signature : bytes) (w : World) (n : N) :
  executeRebalance msg vaultId signedPayload signature
    (with_ex w (set_maxExpiryDuration (exStore w) n)) =
  match executeRebalance msg vaultId signedPayload signature w with
  | Ok w' => Ok (with_ex w' (set_maxExpiryDuration (exStore w') n))
  | Revert e => Revert e
  end.
Proof.
  unfold executeRebalance. cbn [exStore with_ex exAddress].
  change (maxPayloadAge (set_maxExpiryDuration ?s ?k)) with (maxPayloadAge s).
  change (is_signer (set_maxExpiryDuration ?s ?k)) with (is_signer s).
  change (getNonce (set_maxExpiryDuration ?s ?k)) with (getNonce s).
  destruct (abi_decode_payload signedPayload) as [payload|e]; cbn [bind]; [|reflexivity].
  destruct (negb (IRebalanceExecutor.vaultId payload =? vaultId)); [reflexivity|].
  destruct (IRebalanceExecutor.expiry payload <? block_timestamp msg); [reflexivity|].
  destruct (block_timestamp msg <? IRebalanceExecutor.issuedAt payload); [reflexivity|].
  destruct (checked_add (IRebalanceExecutor.issuedAt payload) (maxPayloadAge (exStore w)))
    as [deadline|e]; cbn [bind]; [|reflexivity].
  destruct (deadline <? block_timestamp msg); [reflexivity|]. cbv zeta.
  destruct (recover _ signature) as [signer|e]; cbn [bind]; [|reflexivity].
  destruct (negb (is_signer (exStore w) signer)); [reflexivity|].
  destruct (negb (getNonce (exStore w) signer =? IRebalanceExecutor.nonce payload));
    [reflexivity|].
  destruct (checked_add (getNonce (exStore w) signer) 1) as [next|e]; cbn [bind];
    [|reflexivity].
  unfold call_rebalance. cbv zeta.
  cbn [exAddress vmAddress exStore with_ex set_nonce set_maxExpiryDuration vaultManager].
  destruct (vaultManager (exStore w) =? vmAddress w).
  - rewrite (rebalance_ex_irrelevant _ vaultId (IRebalanceExecutor.actionData payload)
               (with_ex w (set_nonce (exStore w) signer next))
               (with_ex (with_ex w (set_maxExpiryDuration (exStore w) n))
                  (set_nonce (set_maxExpiryDuration (exStore w) n) signer next)))
      by reflexivity.
    destruct (rebalance _ vaultId (IRebalanceExecutor.actionData payload)
                (with_ex w (set_nonce (exStore w) signer next))) as [w2|e] eqn:Hcall;
      cbn [fst snd negb]; [|reflexivity].
    apply rebalance_frame in Hcall as (Hex & _). f_equal.
    unfold emit, with_ex. cbn [vmAddress exAddress vmStore exStore tokens log].
    rewrite Hex. reflexivity.
  - destruct (vaultManager (exStore w) =? exAddress w); cbn [fst snd negb];
      [reflexivity|].
    destruct (call_succeeds (vaultManager (exStore w))); cbn [negb]; reflexivity.
Qed.
End Coverage.

(** * The ABI coder *)

Lemma be_value_snoc (bs : list byte) (b : byte) :
  be_value (bs ++ [b]) = be_value bs * 256 + Byte.to_N b.
Proof. unfold be_value. rewrite fold_left_app. reflexivity. Qed.

Lemma byte_of_N_value (n : N) : Byte.to_N (byte_of_N n) = n mod 256.
Proof.
  unfold byte_of_N. destruct (Byte.of_N (n mod 256)) as [b|] eqn:H.
  - apply Byte.to_of_N. exact H.
  - apply Byte.of_N_None_iff in H.
    pose proof (N.mod_upper_bound n 256). lia.
Qed.

Lemma be_bytes_length (n : nat) (w : N) : length (be_bytes n w) = n.
Proof.
  revert w. induction n as [|n IH]; intros w; cbn [be_bytes]; [reflexivity|].
  rewrite length_app, IH. cbn [length]. lia.
Qed.

Lemma be_value_be_bytes (n : nat) (w : N) :
  be_value (be_bytes n w) = w mod 256 ^ N.of_nat n.
Proof.
  revert w. induction n as [|n IH]; intros w.
  - cbn. rewrite N.mod_1_r. reflexivity.
  - cbn [be_bytes]. rewrite be_value_snoc, IH, byte_of_N_value.
    rewrite Nat2N.inj_succ, N.pow_succ_r'.
    rewrite N.Div0.mod_mul_r. lia.
Qed.

Lemma abi_word_first (w : N) (rest : list byte) :
  w < 2 ^ 256 -> abi_word (be_bytes 32 w ++ rest) 0 = w.
Proof.
  intros Hw. unfold abi_word. change (32 * 0)%nat with 0%nat. rewrite skipn_O.
  rewrite firstn_app, be_bytes_length, Nat.sub_diag, firstn_O, app_nil_r.
  rewrite firstn_all2 by (rewrite be_bytes_length; lia).
  rewrite be_value_be_bytes. change (256 ^ N.of_nat 32) with (2 ^ 256).
  apply N.mod_small. exact Hw.
Qed.

Lemma abi_word_next (w : N) (rest : list byte) (i : nat) :
  abi_word (be_bytes 32 w ++ rest) (S i) = abi_word rest i.
Proof.
  unfold abi_word. replace (32 * S i)%nat with (32 + 32 * i)%nat by lia.
  rewrite <- (be_bytes_length 32 w) at 1.
  rewrite skipn_app, skipn_all2 by (rewrite !be_bytes_length; lia).
  rewrite !be_bytes_length.
  replace (32 + 32 * i - 32)%nat with (32 * i)%nat by lia. reflexivity.
Qed.

Lemma int24_of_word_of_int (t : Z) :
  (MIN_INT24 <= t <= MAX_INT24)%Z -> int24_of_word (word_of_int t) = Some t.
Proof.
  unfold MIN_INT24, MAX_INT24, int24_of_word, word_of_int. intros Ht.
  destruct (Z.neg_nonneg_cases t) as [Hneg|Hpos].
  - replace (t mod 2 ^ 256)%Z with (t + 2 ^ 256)%Z
      by (symmetry; rewrite <- (Z.mod_add t 1) by lia; apply Z.mod_small; lia).
    destruct (N.ltb_spec (Z.to_N (t + 2 ^ 256)) (2 ^ 23)) as [Hlt|_].
    + apply N2Z.inj_lt in Hlt. rewrite Z2N.id in Hlt by lia.
      change (Z.of_N (2 ^ 23)) with (2 ^ 23)%Z in Hlt. lia.
    + destruct (N.leb_spec (2 ^ 256 - 2 ^ 23) (Z.to_N (t + 2 ^ 256))) as [_|Hlt].
      * rewrite Z2N.id by lia. f_equal. lia.
      * apply N2Z.inj_lt in Hlt. rewrite Z2N.id in Hlt by lia.
        change (Z.of_N (2 ^ 256 - 2 ^ 23)) with (2 ^ 256 - 2 ^ 23)%Z in Hlt. lia.
  - rewrite Z.mod_small by lia.
    destruct (N.ltb_spec (Z.to_N t) (2 ^ 23)) as [_|Hge].
    + rewrite Z2N.id by lia. reflexivity.
    + apply N2Z.inj_le in Hge. rewrite Z2N.id in Hge by lia.
      change (Z.of_N (2 ^ 23)) with (2 ^ 23)%Z in Hge. lia.
Qed.

Lemma word_of_int_fits (t : Z) : word_of_int t < 2 ^ 256.
Proof.
  unfold word_of_int. pose proof (Z.mod_pos_bound t (2 ^ 256) ltac:(lia)) as H.
  apply N2Z.inj_lt. rewrite Z2N.id by lia.
  change (Z.of_N (2 ^ 256)) with (2 ^ 256)%Z. lia.
Qed.

(** X17. The action data round trip: what [abi.encode] makes of two
    [int24] ticks and a [uint256], [rebalance]'s decoder reads back as
    the same three values, also when bytes follow the three words; and
    it refuses every input shorter than 96 bytes. *)
Theorem strategyData_round_trip (newTickLower newTickUpper : Z) (reallocatePct : N)
    (trailing : list byte) :
  (MIN_INT24 <= newTickLower <= MAX_INT24)%Z ->
  (MIN_INT24 <= newTickUpper <= MAX_INT24)%Z ->
  reallocatePct <= MAX_UINT256 ->
  abi_decode_strategyData
    (abi_encode [word_of_int newTickLower; word_of_int newTickUpper; reallocatePct]
     ++ trailing)
    = Ok (newTickLower, newTickUpper, reallocatePct) /\
  forall short : list byte,
    (length short < 96)%nat -> abi_decode_strategyData short = Revert AbiDecodeFailed.
Proof.
  intros Hlower Hupper Hpct. split.
  - unfold abi_decode_strategyData, abi_encode. cbn [flat_map].
    rewrite app_nil_r, <- !app_assoc.
    destruct (Nat.ltb_spec (length (be_bytes 32 (word_of_int newTickLower)
                ++ be_bytes 32 (word_of_int newTickUpper)
                ++ be_bytes 32 reallocatePct ++ trailing)) 96) as [Hshort|_].
    { rewrite !length_app, !be_bytes_length in Hshort. lia. }
    rewrite abi_word_first by apply word_of_int_fits.
    rewrite !abi_word_next, abi_word_first by apply word_of_int_fits.
    rewrite abi_word_first by (unfold MAX_UINT256 in Hpct; lia).
    rewrite !int24_of_word_of_int by assumption. reflexivity.
  - intros short Hshort. unfold abi_decode_strategyData.
    destruct (Nat.ltb_spec (length short) 96); [reflexivity | lia].
Qed.

(** * MockOracle *)

Module MockOracleFacts.
Import MockOracle.

Lemma history_at_set_history st token h other :
  history_at (set_history st token h) other =
    if decide (token = other) then h else history_at st other.
Proof.
  unfold history_at, set_history; cbn [priceHistory].
  rewrite lookup_insert. destruct (decide (token = other)); reflexivity.
Qed.

Lemma price_at_set_price st token d other :
  price_at (set_price st token d) other =
    if decide (token = other) then d else price_at st other.
Proof.
  unfold price_at, set_price; cbn [prices].
  rewrite lookup_insert. destruct (decide (token = other)); reflexivity.
Qed.

Lemma history_at_set_price st token d other :
  history_at (set_price st token d) other = history_at st other.
Proof. reflexivity. Qed.

Lemma price_at_set_history st token h other :
  price_at (set_history st token h) other = price_at st other.
Proof. reflexivity. Qed.

Lemma history_at_emit st e other : history_at (emit st e) other = history_at st other.
Proof. reflexivity. Qed.

Lemma price_at_emit st e other : price_at (emit st e) other = price_at st other.
Proof. reflexivity. Qed.

Ltac oracle_reads :=
  repeat first
    [ rewrite history_at_emit | rewrite price_at_emit
    | rewrite history_at_set_price | rewrite price_at_set_history
    | rewrite history_at_set_history | rewrite price_at_set_price ].

(** The shifting loop moves every element after position [i] one place
    down and leaves the last one twice. *)
Lemma shift_loop_shifts (rest : list N) :
  forall (pre : list N) (x : N) (fuel : nat),
    (length rest <= fuel)%nat ->
    shift_loop fuel (length pre) (pre ++ x :: rest)
      = Ok (pre ++ rest ++ [List.last (x :: rest) 0]).
Proof.
  induction rest as [|y rest IH]; intros pre x fuel Hfuel.
  - destruct fuel; cbn [shift_loop]; rewrite length_app; cbn [length];
      rewrite Nat.add_1_r; rewrite Nat.ltb_irrefl; reflexivity.
  - destruct fuel as [|fuel]; [cbn [length] in Hfuel; lia|].
    cbn [shift_loop]. rewrite length_app. cbn [length].
    replace (length pre + S (S (length rest)))%nat
      with (S (length pre + S (length rest)))%nat by lia.
    destruct (Nat.ltb_spec (length pre) (length pre + S (length rest))); [|lia].
    replace (pre ++ x :: y :: rest) with ((pre ++ [x]) ++ y :: rest)
      by (rewrite <- app_assoc; reflexivity).
    rewrite (list_lookup_middle (pre ++ [x]) rest y (S (length pre)))
      by (rewrite length_app; cbn [length]; lia).
    rewrite <- app_assoc. cbn [app].
    rewrite insert_app_r_alt by lia. rewrite Nat.sub_diag.
    change (<[0%nat := y]> (x :: y :: rest)) with (y :: y :: rest).
    replace (pre ++ y :: y :: rest) with ((pre ++ [y]) ++ y :: rest)
      by (rewrite <- app_assoc; reflexivity).
    replace (S (length pre)) with (length (pre ++ [y]))
      by (rewrite length_app; cbn [length]; lia).
    rewrite IH by (cbn [length] in Hfuel; lia).
    rewrite <- app_assoc. reflexivity.
Qed.

(** Shifting and popping drops the first element. *)
Lemma shift_then_pop (x : N) (rest : list N) :
  bind (shift_loop (length (x :: rest)) 0 (x :: rest)) pop = Ok rest.
Proof.
  rewrite (shift_loop_shifts rest [] x) by (cbn [length]; lia).
  cbn [bind app]. unfold pop.
  destruct (rest ++ [List.last (x :: rest) 0]) eqn:H.
  - destruct rest; discriminate.
  - rewrite <- H. rewrite removelast_last. reflexivity.
Qed.

(** X18. [MockOracle.updatePrice] is for the owner and, for the owner,
    never reverts. It records the price with the block time, appends
    it to the history of the token and, when the history is then
    longer than [maxHistoryLength], drops the oldest entry: the
    shifting loop followed by [pop] removes exactly the first element.
    So a history within the limit stays within it, and no history ever
    gets shorter, also after the limit was lowered; the other tokens
    are not touched. *)
Theorem updatePrice_slides_the_window (msg : Msg) (token : address) (price : N)
    (st : Storage) :
  (msg_sender msg <> owner st ->
   updatePrice msg token price st = Revert OwnableUnauthorizedAccount) /\
  (msg_sender msg = owner st ->
   exists st' : Storage,
     updatePrice msg token price st = Ok st' /\
     history_at st' token =
       (if maxHistoryLength st <? N.of_nat (length (history_at st token)) + 1
        then tl (history_at st token ++ [price])
        else history_at st token ++ [price]) /\
     getLatestPrice st' token = (price, block_timestamp msg) /\
     (length (history_at st token) <= length (history_at st' token))%nat /\
     (N.of_nat (length (history_at st token)) <= maxHistoryLength st ->
      N.of_nat (length (history_at st' token)) <= maxHistoryLength st) /\
     (forall other : address,
         other <> token ->
         history_at st' other = history_at st other /\
         price_at st' other = price_at st other) /\
     maxHistoryLength st' = maxHistoryLength st /\
     owner st' = owner st /\
     log st' = PriceUpdated token price (block_timestamp msg) :: log st).
Proof.
  split.
  - intros Hnot. unfold updatePrice, onlyOwner.
    destruct (N.eqb_spec (msg_sender msg) (owner st)); [contradiction | reflexivity].
  - intros Hown. unfold updatePrice, onlyOwner. rewrite Hown, N.eqb_refl.
    cbn [require bind].
    change (maxHistoryLength (set_history ?s ?t ?h)) with (maxHistoryLength s).
    change (maxHistoryLength (set_price ?s ?t ?d)) with (maxHistoryLength s).
    oracle_reads.
    destruct (decide (token = token)) as [_|]; [|congruence].
    set (h := history_at st token).
    assert (Hlen : N.of_nat (length (h ++ [price])) = N.of_nat (length h) + 1)
      by (rewrite length_app; cbn [length]; lia).
    rewrite Hlen.
    destruct (N.ltb_spec (maxHistoryLength st) (N.of_nat (length h) + 1)) as [Hlong|Hfits].
    + destruct (h ++ [price]) as [|x rest] eqn:Hpushed;
        [destruct h; discriminate|].
      assert (Hrest : S (length rest) = S (length h)).
      { change (S (length rest)) with (length (x :: rest)).
        rewrite <- Hpushed, length_app. cbn [length]. lia. }
      pose proof (shift_then_pop x rest) as Hshift.
      destruct (shift_loop (length (x :: rest)) 0 (x :: rest)) as [shifted|err];
        cbn [bind] in Hshift |- *; [|discriminate].
      rewrite Hshift. cbn [bind].
      eexists. split; [reflexivity|].
      unfold getLatestPrice. oracle_reads.
      destruct (decide (token = token)) as [_|]; [|congruence]. cbn [tl MockOracle.price MockOracle.timestamp].
      split; [reflexivity|]. split; [reflexivity|].
      split; [lia|]. split; [lia|].
      split; [|repeat split].
      intros other Hother. oracle_reads.
      destruct (decide (token = other)); [congruence|]. split; reflexivity.
    + cbn [bind]. eexists. split; [reflexivity|].
      unfold getLatestPrice. oracle_reads.
      destruct (decide (token = token)) as [_|]; [|congruence]. cbn [MockOracle.price MockOracle.timestamp].
      fold h. split; [reflexivity|]. split; [reflexivity|].
      rewrite length_app. cbn [length].
      split; [lia|]. split; [lia|].
      split; [|repeat split].
      intros other Hother. oracle_reads.
      destruct (decide (token = other)); [congruence|]. split; reflexivity.
Qed.

(** The prices that a batch carries for [token], in order. *)
Lemma batch_loop_histories (now : N) (tokens : list N) :
  forall (newPrices : list N) (st : Storage) (token : address),
    history_at (batch_loop now tokens newPrices st) token =
      history_at st token
      ++ map snd (List.filter (fun tp => fst tp =? token) (combine tokens newPrices)).
Proof.
  induction tokens as [|t tokens IH]; intros newPrices st token.
  - cbn. rewrite app_nil_r. reflexivity.
  - destruct newPrices as [|p newPrices]; [cbn; rewrite app_nil_r; reflexivity|].
    cbn [batch_loop combine List.filter fst snd]. rewrite IH. oracle_reads.
    destruct (decide (t = token)) as [->|Hne].
    + rewrite N.eqb_refl. cbn [map snd]. rewrite <- app_assoc. reflexivity.
    + destruct (N.eqb_spec t token); [contradiction|]. reflexivity.
Qed.

Lemma batch_loop_settings (now : N) (tokens : list N) :
  forall (newPrices : list N) (st : Storage),
    maxHistoryLength (batch_loop now tokens newPrices st) = maxHistoryLength st /\
    owner (batch_loop now tokens newPrices st) = owner st.
Proof.
  induction tokens as [|t tokens IH]; intros newPrices st; [split; reflexivity|].
  destruct newPrices as [|p newPrices]; [split; reflexivity|].
  cbn [batch_loop]. destruct (IH newPrices
    (emit (set_history (set_price st t
             {| price := p; timestamp := now; confidence := 100 |}) t
             (history_at (set_price st t
                {| price := p; timestamp := now; confidence := 100 |}) t ++ [p]))
          (PriceUpdated t p now))) as [-> ->].
  split; reflexivity.
Qed.

(** X19. [MockOracle.batchUpdatePrices] is for the owner and needs two
    arrays of one length, or it reverts with "Length mismatch". Unlike
    [updatePrice] it never trims: afterwards the history of each token
    is the old one followed by all the prices the batch carries for it,
    in order, whatever [maxHistoryLength] is. *)
Theorem batchUpdatePrices_never_trims (msg : Msg) (tokens newPrices : list N)
    (st : Storage) :
  msg_sender msg = owner st ->
  (length tokens <> length newPrices ->
   batchUpdatePrices msg tokens newPrices st = Revert (ErrorString "Length mismatch")) /\
  (length tokens = length newPrices ->
   exists st' : Storage,
     batchUpdatePrices msg tokens newPrices st = Ok st' /\
     (forall token : address,
         history_at st' token =
           history_at st token
           ++ map snd (List.filter (fun tp => fst tp =? token)
                         (combine tokens newPrices))) /\
     maxHistoryLength st' = maxHistoryLength st /\
     owner st' = owner st).
Proof.
  intros Hown. unfold batchUpdatePrices, onlyOwner. rewrite Hown, N.eqb_refl.
  cbn [require bind]. split; intros Hlen.
  - destruct (Nat.eqb_spec (length tokens) (length newPrices)); [contradiction|].
    reflexivity.
  - rewrite Hlen, Nat.eqb_refl. cbn [bind]. eexists. split; [reflexivity|].
    split; [intros token; apply batch_loop_histories|].
    apply batch_loop_settings.
Qed.

(** The loop of [calculateVolatility]. *)
Lemma volatility_loop_spec (history : list N) :
  forall sum maxPrice minPrice : N,
    let total := sum + fold_right N.add 0 history in
    sum <= MAX_UINT256 ->
    (MAX_UINT256 < total ->
     volatility_loop history sum maxPrice minPrice = Revert PanicOverflow) /\
    (total <= MAX_UINT256 ->
     exists hi lo : N,
       volatility_loop history sum maxPrice minPrice = Ok (total, hi, lo) /\
       maxPrice <= hi /\ lo <= minPrice /\
       (forall p, In p history -> lo <= p <= hi) /\
       (hi = maxPrice \/ In hi history) /\ (lo = minPrice \/ In lo history)).
Proof.
  induction history as [|p rest IH]; intros sum maxPrice minPrice total Hsum.
  - subst total. cbn [fold_right volatility_loop]. rewrite N.add_0_r. split; [lia|].
    intros _. exists maxPrice, minPrice. cbn [In]. intuition lia.
  - subst total. cbn [fold_right volatility_loop]. unfold checked_add.
    destruct (N.leb_spec (sum + p) MAX_UINT256) as [Hfits|Hover]; cbn [bind].
    + specialize (IH (sum + p) (if maxPrice <? p then p else maxPrice)
                     (if p <? minPrice then p else minPrice)).
      cbv zeta in IH. rewrite <- N.add_assoc in IH.
      destruct (IH Hfits) as [IHover IHfits].
      split; [exact IHover|]. intros Htotal.
      destruct (IHfits Htotal) as (hi & lo & -> & Hhi & Hlo & Hall & Hin_hi & Hin_lo).
      exists hi, lo. split; [reflexivity|]. cbn [In].
      destruct (N.ltb_spec maxPrice p); destruct (N.ltb_spec p minPrice);
        (split; [lia|]); (split; [lia|]);
        (split; [intros q [<-|Hq]; [lia | exact (Hall q Hq)]|]);
        intuition auto.
    + split; [reflexivity|]. lia.
Qed.

Lemma sum_within (history : list N) (lo hi : N) :
  (forall p, In p history -> lo <= p <= hi) ->
  lo * N.of_nat (length history) <= fold_right N.add 0 history
    <= hi * N.of_nat (length history).
Proof.
  induction history as [|p rest IH]; intros Hall; [cbn; lia|].
  cbn [fold_right length]. rewrite Nat2N.inj_succ.
  pose proof (Hall p (or_introl eq_refl)).
  specialize (IH (fun q Hq => Hall q (or_intror Hq))). lia.
Qed.

(** X20. [MockOracle.calculateVolatility] is 0 for a history of fewer
    than two prices. For a longer one whose sum fits in 256 bits, with
    [hi] and [lo] the largest and the smallest price of the history and
    [mean] the floor of their average, [lo <= mean <= hi], and the
    result is 0 when the mean is 0 and [(hi - lo) * 10000 / mean]
    otherwise, provided the product fits; so it is 0 when all prices
    are the same. The call reverts when the sum of the history or that
    product overflows. *)
Theorem calculateVolatility_spec (st : Storage) (token : address) :
  let history := history_at st token in
  let total := fold_right N.add 0 history in
  let mean := total / N.of_nat (length history) in
  ((length history < 2)%nat -> calculateVolatility st token = Ok 0) /\
  ((2 <= length history)%nat -> MAX_UINT256 < total ->
   calculateVolatility st token = Revert PanicOverflow) /\
  ((2 <= length history)%nat -> total <= MAX_UINT256 ->
   exists hi lo : N,
     In hi history /\ In lo history /\
     (forall p, In p history -> lo <= p <= hi) /\
     lo <= mean <= hi /\
     calculateVolatility st token =
       (if mean =? 0 then Ok 0
        else if (hi - lo) * 10000 <=? MAX_UINT256
             then Ok ((hi - lo) * 10000 / mean)
             else Revert PanicOverflow) /\
     ((forall p q, In p history -> In q history -> p = q) ->
      calculateVolatility st token = Ok 0)).
Proof.
  intros history total mean. unfold calculateVolatility. fold history.
  split; [|split].
  - intros Hshort. destruct (Nat.ltb_spec (length history) 2); [reflexivity | lia].
  - intros Hlong Hover. destruct (Nat.ltb_spec (length history) 2); [lia|].
    pose proof (volatility_loop_spec history 0 0 MAX_UINT256) as Hrev.
    cbv zeta in Hrev. rewrite N.add_0_l in Hrev. fold total in Hrev.
    destruct Hrev as [Hrev _]; [unfold MAX_UINT256; lia|].
    rewrite (Hrev Hover). reflexivity.
  - intros Hlong Hfits. destruct (Nat.ltb_spec (length history) 2); [lia|].
    pose proof (volatility_loop_spec history 0 0 MAX_UINT256) as Hok.
    cbv zeta in Hok. rewrite N.add_0_l in Hok. fold total in Hok.
    destruct Hok as [_ Hok]; [unfold MAX_UINT256; lia|].
    destruct (Hok Hfits) as (hi & lo & Hloop & _ & Hlo_max & Hall & Hin_hi & Hin_lo).
    rewrite Hloop. cbn [bind].
    assert (Hsome : exists p, In p history).
    { destruct history as [|p rest]; [cbn [length] in Hlong; lia|].
      exists p. left. reflexivity. }
    destruct Hsome as [p0 Hp0]. pose proof (Hall p0 Hp0) as Hp0_range.
    assert (Hhi : In hi history).
    { destruct Hin_hi as [->|]; [|assumption].
      replace 0 with p0 by lia. exact Hp0. }
    assert (Hlo : In lo history).
    { destruct Hin_lo as [->|]; [|assumption].
      pose proof (sum_within history _ _ Hall) as [Hsum _].
      assert (Hp0_max : p0 <= MAX_UINT256).
      { clear - Hp0 Hfits. subst total. induction history as [|q rest IH]; [destruct Hp0|].
        cbn [fold_right] in Hfits. destruct Hp0 as [->|Hin]; [lia|].
        apply IH; [lia | exact Hin]. }
      replace MAX_UINT256 with p0 by lia. exact Hp0. }
    pose proof (sum_within history _ _ Hall) as [Hsum_lo Hsum_hi].
    fold total in Hsum_lo, Hsum_hi.
    assert (Hn : N.of_nat (length history) <> 0) by lia.
    assert (Hmean : lo <= mean <= hi).
    { subst mean. split.
      - apply N.div_le_lower_bound; [exact Hn | lia].
      - apply N.Div0.div_le_upper_bound. lia. }
    rewrite checked_div_nonzero by exact Hn. cbn [bind]. fold mean.
    assert (Hform :
      (if mean =? 0 then Ok 0
       else do spread <- checked_sub hi lo;
            do scaled <- checked_mul spread 10000; checked_div scaled mean) =
      (if mean =? 0 then Ok 0
       else if (hi - lo) * 10000 <=? MAX_UINT256
            then Ok ((hi - lo) * 10000 / mean) else Revert PanicOverflow)).
    { destruct (N.eqb_spec mean 0) as [|Hmean0]; [reflexivity|].
      rewrite checked_sub_fits by lia. cbn [bind]. unfold checked_mul.
      destruct ((hi - lo) * 10000 <=? MAX_UINT256); cbn [bind]; [|reflexivity].
      apply checked_div_nonzero. exact Hmean0. }
    exists hi, lo. do 4 (split; [assumption|]). split; [exact Hform|].
    intros Hsame. rewrite Hform. rewrite (Hsame hi lo Hhi Hlo), N.sub_diag.
    destruct (mean =? 0); [reflexivity|].
    cbn [N.mul]. change (0 <=? MAX_UINT256) with true. cbn iota.
    rewrite N.Div0.div_0_l. reflexivity.
Qed.
End MockOracleFacts.

(** * StrategyManager *)

Section Advice.
Context {Ledger : Type} {tokenContracts : IERC20 Ledger} {primitives : Primitives}.

#[local] Abbreviation World := (@World Ledger).
Implicit Types w : World.

Import StrategyManager.

Lemma priceTimestamp_at_updatePrice msg token price st st' other :
  updatePrice msg token price st = Ok st' ->
  msg_sender msg = owner st /\ owner st' = owner st /\
  priceTimestamp_at st' other =
    if decide (token = other) then block_timestamp msg else priceTimestamp_at st other.
Proof.
  unfold updatePrice, onlyOwner. intros H.
  apply bind_Ok in H as (u & Hown & H). apply require_Ok in Hown.
  apply N.eqb_eq in Hown. apply Ok_inj in H. subst st'.
  split; [exact Hown|]. split; [reflexivity|].
  unfold priceTimestamp_at. cbn [priceTimestamps]. rewrite lookup_insert.
  destruct (decide (token = other)); reflexivity.
Qed.

(** X21. The volatility of [StrategyManager] is the staleness of its
    two price timestamps and nothing else: 800 when one of them is more
    than 3600 seconds old, 300 otherwise, and a revert when one lies
    in the future. The prices themselves are never read: once the owner
    has updated both tokens, the score is 300 for an hour from the
    earlier update and 800 after it, whatever the prices were. *)
Theorem volatility_is_staleness (now : N) (st : Storage) (tokenA tokenB : address) :
  (priceTimestamp_at st tokenA <= now ->
   priceTimestamp_at st tokenB <= now ->
   _calculateVolatility now st tokenA tokenB =
     Ok (if (3600 <? now - priceTimestamp_at st tokenA)
            || (3600 <? now - priceTimestamp_at st tokenB)
         then 800 else 300)) /\
  (now < priceTimestamp_at st tokenA \/ now < priceTimestamp_at st tokenB ->
   _calculateVolatility now st tokenA tokenB = Revert PanicOverflow) /\
  (forall (msgA msgB : Msg) (priceA priceB : N) (st1 st2 : Storage),
      tokenA <> tokenB ->
      updatePrice msgA tokenA priceA st = Ok st1 ->
      updatePrice msgB tokenB priceB st1 = Ok st2 ->
      block_timestamp msgA <= block_timestamp msgB <= now ->
      getVolatility now st2 tokenA tokenB =
        Ok (if 3600 <? now - block_timestamp msgA then 800 else 300)).
Proof.
  assert (Hfresh : forall s : Storage,
             priceTimestamp_at s tokenA <= now -> priceTimestamp_at s tokenB <= now ->
             _calculateVolatility now s tokenA tokenB =
               Ok (if (3600 <? now - priceTimestamp_at s tokenA)
                      || (3600 <? now - priceTimestamp_at s tokenB)
                   then 800 else 300)).
  { intros s HA HB. unfold _calculateVolatility.
    rewrite !checked_sub_fits by assumption. cbn [bind].
    destruct ((3600 <? now - priceTimestamp_at s tokenA)
              || (3600 <? now - priceTimestamp_at s tokenB)); reflexivity. }
  split; [apply Hfresh|]. split.
  - intros Hfuture. unfold _calculateVolatility, checked_sub.
    destruct (N.leb_spec (priceTimestamp_at st tokenA) now); cbn [bind]; [|reflexivity].
    destruct (N.leb_spec (priceTimestamp_at st tokenB) now); cbn [bind]; [|reflexivity].
    lia.
  - intros msgA msgB priceA priceB st1 st2 Hne H1 H2 Htime.
    pose proof (priceTimestamp_at_updatePrice _ _ _ _ _ tokenA H1) as (_ & _ & HA1).
    pose proof (priceTimestamp_at_updatePrice _ _ _ _ _ tokenA H2) as (_ & _ & HA2).
    pose proof (priceTimestamp_at_updatePrice _ _ _ _ _ tokenB H2) as (_ & _ & HB2).
    destruct (decide (tokenA = tokenA)); [|congruence].
    destruct (decide (tokenB = tokenA)); [congruence|].
    destruct (decide (tokenB = tokenB)); [|congruence].
    rewrite HA1 in HA2. unfold getVolatility.
    rewrite Hfresh by lia. rewrite HA2, HB2. f_equal.
    destruct (N.ltb_spec 3600 (now - block_timestamp msgA));
      destruct (N.ltb_spec 3600 (now - block_timestamp msgB)); cbn [orb];
      first [reflexivity | lia].
Qed.

(** X22. Within the cooldown [checkRebalance] advises against a
    rebalance without looking at anything else. So after a committed
    [VaultManager.rebalance] of a vault, the answer for that vault is
    no from the time of the rebalance until [rebalanceCooldown] seconds
    have passed, however stale the prices. *)
Theorem checkRebalance_within_cooldown (now : N) (st : Storage)
    (manager : VaultManagerStorage) (vaultId : N) :
  (IVault.lastRebalance (vault_at manager vaultId) + rebalanceCooldown st <= MAX_UINT256 ->
   now < IVault.lastRebalance (vault_at manager vaultId) + rebalanceCooldown st ->
   checkRebalance now st manager vaultId =
     Ok (false, abi_encode_string (list_byte_of_string "Cooldown not passed"))) /\
  (forall (msg : Msg) (strategyData : bytes) (w w' : World),
      rebalance msg vaultId strategyData w = Ok w' ->
      block_timestamp msg + rebalanceCooldown st <= MAX_UINT256 ->
      now < block_timestamp msg + rebalanceCooldown st ->
      checkRebalance now st (vmStore w') vaultId =
        Ok (false, abi_encode_string (list_byte_of_string "Cooldown not passed"))).
Proof.
  assert (Hcool : forall m : VaultManagerStorage,
             IVault.lastRebalance (vault_at m vaultId) + rebalanceCooldown st
               <= MAX_UINT256 ->
             now < IVault.lastRebalance (vault_at m vaultId) + rebalanceCooldown st ->
             checkRebalance now st m vaultId =
               Ok (false, abi_encode_string (list_byte_of_string "Cooldown not passed"))).
  { intros m Hfits Hearly. unfold checkRebalance.
    rewrite checked_add_fits by exact Hfits. cbn [bind].
    destruct (N.ltb_spec now
                (IVault.lastRebalance (vault_at m vaultId) + rebalanceCooldown st));
      [reflexivity | lia]. }
  split; [apply Hcool|].
  intros msg strategyData w w' H Hfits Hearly.
  pose proof (rebalance_unfold _ _ _ _ _ H) as U. cbv zeta in U.
  destruct U as (_ & _ & _ & _ & lower & upper & pct & newA & newB & l & _ & ->).
  assert (Hstamp : IVault.lastRebalance
                     (vault_at (vmStore (emit (with_tokens (with_vm w
                        (set_vault
                           (set_vaultStrategy (vmStore w) vaultId
                              (IVaultManager.with_ticks (strategy_at (vmStore w) vaultId)
                                 lower upper))
                           vaultId
                           (IVault.with_ledger
                              (IVault.with_lastRebalance (vault_at (vmStore w) vaultId)
                                 (block_timestamp msg))
                              (IVault.totalShares (vault_at (vmStore w) vaultId))
                              newA newB))) l)
                        (Rebalanced vaultId (msg_sender msg) (keccak256 strategyData))))
                        vaultId)
                   = block_timestamp msg).
  { cbn [vmStore emit with_tokens with_vm]. rewrite vault_at_set_vault.
    destruct (decide (vaultId = vaultId)); [reflexivity | congruence]. }
  apply Hcool; rewrite Hstamp; assumption.
Qed.

(** X23. When [checkRebalance] advises a rebalance, the cooldown has
    passed and the volatility score reaches the threshold; the details
    are action data that [rebalance] decodes as the vault's ticks
    widened by 120 on each side, both within [int24], and 30 percent;
    and a [rebalance] of that vault committed with these details on
    the same VaultManager sets its ticks to the widened ones. *)
Theorem checkRebalance_advice (now : N) (st : Storage) (manager : VaultManagerStorage)
    (vaultId : N) (details : bytes) :
  checkRebalance now st manager vaultId = Ok (true, details) ->
  let vault := vault_at manager vaultId in
  let params := strategy_at manager vaultId in
  let newTickLower := (IVaultManager.tickLower params - 120)%Z in
  let newTickUpper := (IVaultManager.tickUpper params + 120)%Z in
  IVault.lastRebalance vault + rebalanceCooldown st <= now /\
  (exists score : N,
      _calculateVolatility now st (IVault.tokenA vault) (IVault.tokenB vault) = Ok score /\
      volatilityThreshold st <= score) /\
  (MIN_INT24 <= newTickLower)%Z /\ (newTickUpper <= MAX_INT24)%Z /\
  abi_decode_strategyData details = Ok (newTickLower, newTickUpper, 30) /\
  forall (msg : Msg) (w w' : World),
    vmStore w = manager ->
    rebalance msg vaultId details w = Ok w' ->
    IVaultManager.tickLower (strategy_at (vmStore w') vaultId) = newTickLower /\
    IVaultManager.tickUpper (strategy_at (vmStore w') vaultId) = newTickUpper.
Proof.
  intros H vault params newTickLower newTickUpper. unfold checkRebalance in H.
  fold vault params in H.
  apply bind_Ok in H as (ready & Hready & H).
  apply checked_add_Ok in Hready as [-> Hfits].
  destruct (N.ltb_spec now (IVault.lastRebalance vault + rebalanceCooldown st));
    [discriminate|].
  apply bind_Ok in H as (score & Hscore & H).
  destruct (N.leb_spec (volatilityThreshold st) score) as [Hhigh|]; [|discriminate].
  apply bind_Ok in H as (lower & Hlower & H).
  apply bind_Ok in H as (upper & Hupper & H).
  unfold checked_sub_int24 in Hlower. unfold checked_add_int24 in Hupper.
  fold newTickLower in Hlower. fold newTickUpper in Hupper.
  destruct (Z.leb_spec MIN_INT24 newTickLower) as [HlowerMin|]; [|discriminate].
  destruct (Z.leb_spec newTickLower MAX_INT24) as [HlowerMax|]; [|discriminate].
  destruct (Z.leb_spec MIN_INT24 newTickUpper) as [HupperMin|]; [|discriminate].
  destruct (Z.leb_spec newTickUpper MAX_INT24) as [HupperMax|]; [|discriminate].
  cbn [andb] in Hlower, Hupper.
  apply Ok_inj in Hlower. apply Ok_inj in Hupper. subst lower upper.
  apply Ok_inj in H. injection H as <-.
  assert (Hdecode : abi_decode_strategyData
                      (abi_encode [word_of_int newTickLower; word_of_int newTickUpper; 30])
                    = Ok (newTickLower, newTickUpper, 30)).
  { unfold abi_decode_strategyData, abi_encode. cbn [flat_map].
    rewrite app_nil_r.
    destruct (Nat.ltb_spec (length (be_bytes 32 (word_of_int newTickLower)
                ++ be_bytes 32 (word_of_int newTickUpper)
                ++ be_bytes 32 30)) 96) as [Hshort|_].
    { rewrite !length_app, !be_bytes_length in Hshort. lia. }
    rewrite abi_word_first by apply word_of_int_fits.
    rewrite !abi_word_next, abi_word_first by apply word_of_int_fits.
    rewrite <- (app_nil_r (be_bytes 32 30)).
    rewrite abi_word_first by (vm_compute; reflexivity).
    rewrite !int24_of_word_of_int by (split; assumption). reflexivity. }
  split; [assumption|]. split; [exists score; split; assumption|].
  split; [assumption|]. split; [assumption|]. split; [exact Hdecode|].
  intros msg w w' Hmanager Hcall.
  pose proof (rebalance_unfold _ _ _ _ _ Hcall) as U. cbv zeta in U.
  destruct U as (_ & _ & _ & _ & lower & upper & pct & newA & newB & l & Hdec & ->).
  assert (Heq : Ok (lower, upper, pct) = Ok (newTickLower, newTickUpper, 30))
    by (rewrite <- Hdec; exact Hdecode).
  injection Heq as -> -> ->.
  cbn [vmStore emit with_tokens with_vm].
  change (strategy_at (set_vault ?s ?i ?v) ?j) with (strategy_at s j).
  rewrite strategy_at_set_vaultStrategy.
  destruct (decide (vaultId = vaultId)); [|congruence].
  split; reflexivity.
Qed.

(** X24. The details of a negative answer are an ABI-encoded string,
    and yet they pass for action data: both messages of
    [checkRebalance] decode, in [rebalance]'s decoder, as the ticks 32
    and 19, the offset and the length of the string. *)
Theorem negative_advice_decodes (now : N) (st : Storage) (manager : VaultManagerStorage)
    (vaultId : N) (details : bytes) :
  checkRebalance now st manager vaultId = Ok (false, details) ->
  exists reallocatePct : N,
    abi_decode_strategyData details = Ok (32%Z, 19%Z, reallocatePct).
Proof.
  intros H. unfold checkRebalance in H.
  apply bind_Ok in H as (ready & _ & H).
  destruct (now <? ready).
  - apply Ok_inj in H. injection H as <-. eexists. vm_compute. reflexivity.
  - apply bind_Ok in H as (score & _ & H).
    destruct (volatilityThreshold st <=? score).
    + apply bind_Ok in H as (lower & _ & H). apply bind_Ok in H as (upper & _ & H).
      discriminate.
    + apply Ok_inj in H. injection H as <-. eexists. vm_compute. reflexivity.
Qed.
End Advice.

(** * Worked examples *)

Ltac compute_it :=
  vm_compute;
  first [ reflexivity | discriminate
        | let H := fresh in intros H; discriminate H ].

Section Examples.
#[local] Existing Instance MockERC20.
#[local] Existing Instance ToyPrimitives.
#[local] Existing Instance ToyAccounts.

Example sample_deposit_runs :
  deposit (at_time 7 950) 1 (10 ^ 19) (6 * 10 ^ 9) sample_open
    = Ok (244948974278317, sample_funded).
Proof. vm_compute. reflexivity. Qed.

Example sample_executor_runs :
  executeRebalance (at_time 5 1000) 1 sample_signed sample_signature sample_funded
    = Ok sample_rebalanced.
Proof. vm_compute. reflexivity. Qed.

Example sample_nonce_advanced : getNonce (exStore sample_rebalanced) 6 = 1.
Proof. vm_compute. reflexivity. Qed.

(** *** C1 *)



(** *** C2 *)



(** *** C3 *)

(** At time 10 a payload issued at 20 and expired at 5 is not yet
    issued, and yet the error is [PayloadExpired]. *)
Lemma expired_before_issued :
  abi_decode_payload stale_signed = Ok stale_payload /\
  IRebalanceExecutor.vaultId stale_payload = 1 /\
  10 < IRebalanceExecutor.issuedAt stale_payload /\
  executeRebalance (at_time 5 10) 1 stale_signed stale_signature sample_funded
    = Revert PayloadExpired /\
  executeRebalance (at_time 5 10) 1 stale_signed stale_signature sample_funded
    <> Revert PayloadTooOld.
Proof. repeat apply conj; compute_it. Qed.

Lemma payload_time_window_witness :
  abi_decode_payload sample_signed = Ok sample_payload /\
  IRebalanceExecutor.vaultId sample_payload = 1 /\
  block_timestamp (at_time 5 2000) <= MAX_UINT256 /\
  executeRebalance (at_time 5 2000) 1 sample_signed sample_signature sample_funded
    = Revert PayloadExpired.
Proof.
  assert (Hdec : abi_decode_payload sample_signed = Ok sample_payload)
    by (vm_compute; reflexivity).
  assert (Hid : IRebalanceExecutor.vaultId sample_payload = 1) by reflexivity.
  assert (Hnow : block_timestamp (at_time 5 2000) <= MAX_UINT256) by compute_it.
  do 3 (split; [assumption|]).
  apply (proj1 (payload_time_window (at_time 5 2000) 1 sample_signed sample_signature
                  sample_funded sample_payload Hdec Hid Hnow)).
  compute_it.
Defined.

(** *** C4 *)

Lemma share_conservation_witness :
  reachable sample_funded /\
  sum_shares (shares_in (vmStore sample_funded) 1)
    = IVault.totalShares (vault_at (vmStore sample_funded) 1).
Proof.
  assert (Hreach : reachable sample_funded).
  { exists 100, 200, 1, 1, 9, 100, sample_ledger, sample_genesis,
      (sample_setup ++ [(at_time 7 950, TxDeposit 1 (10 ^ 19) (6 * 10 ^ 9))]).
    split; vm_compute; reflexivity. }
  split; [exact Hreach|]. exact (proj1 share_conservation sample_funded Hreach 1).
Defined.

(** *** C5 *)

(** A first deposit of [2^128] of each token into the open vault: both
    amounts are above the minimum, the product does not fit a word and
    the call reverts; and [_sqrt] itself reverts on the largest word. *)
Lemma deposit_product_overflows :
  IVault.isActive (vault_at (vmStore sample_open) 1) = true /\
  IVault.totalShares (vault_at (vmStore sample_open) 1) = 0 /\
  MIN_DEPOSIT <= 2 ^ 128 /\
  deposit (at_time 7 950) 1 (2 ^ 128) (2 ^ 128) sample_open = Revert PanicOverflow /\
  deposit (at_time 7 950) 1 (2 ^ 128 - 1) (2 ^ 128 + 1) sample_open
    = Revert PanicOverflow /\
  _sqrt MAX_UINT256 = Revert PanicOverflow.
Proof. repeat apply conj; compute_it. Qed.

Lemma deposit_mints_witness :
  deposit (at_time 7 950) 1 (10 ^ 19) (6 * 10 ^ 9) sample_open
    = Ok (244948974278317, sample_funded) /\
  IVault.totalShares (vault_at (vmStore sample_open) 1) = 0 /\
  244948974278317 = N.sqrt (10 ^ 19 * (6 * 10 ^ 9)).
Proof.
  assert (Hok : deposit (at_time 7 950) 1 (10 ^ 19) (6 * 10 ^ 9) sample_open
                  = Ok (244948974278317, sample_funded)) by (vm_compute; reflexivity).
  assert (Hnone : IVault.totalShares (vault_at (vmStore sample_open) 1) = 0)
    by (vm_compute; reflexivity).
  do 2 (split; [assumption|]).
  destruct (proj1 (proj2 deposit_mints) _ _ _ _ _ _ _ Hok)
    as (_ & _ & _ & Hfirst & _).
  exact (Hfirst Hnone).
Defined.

(** *** C6 *)

(** The stranger 5 holds no share of the open vault and asks for none:
    the request is not above the holding, and the call neither returns
    amounts nor raises [InsufficientShares]. *)
Lemma withdraw_nothing_panics :
  IVault.owner (vault_at (vmStore sample_open) 1) <> 0 /\
  ~ getUserShares (vmStore sample_open) 1 5 < 0 /\
  withdraw (at_time 5 950) 1 0 sample_open = Revert PanicDivisionByZero.
Proof. repeat apply conj; compute_it. Qed.

Lemma withdraw_exact_witness :
  withdraw (at_time 7 970) 1 244948974278317 sample_funded
    = Ok (10 ^ 19, 6 * 10 ^ 9, sample_emptied) /\
  10 ^ 19 = 244948974278317 * IVault.totalTokenA (vault_at (vmStore sample_funded) 1)
            / IVault.totalShares (vault_at (vmStore sample_funded) 1) /\
  IVault.totalShares (vault_at (vmStore sample_emptied) 1)
    = IVault.totalShares (vault_at (vmStore sample_funded) 1) - 244948974278317.
Proof.
  assert (Hok : withdraw (at_time 7 970) 1 244948974278317 sample_funded
                  = Ok (10 ^ 19, 6 * 10 ^ 9, sample_emptied))
    by (vm_compute; reflexivity).
  split; [exact Hok|].
  destruct (proj1 (proj2 withdraw_exact) _ _ _ _ _ _ _ Hok)
    as (HamountA & _ & _ & Hshares & _).
  split; [exact HamountA | exact Hshares].
Defined.

(** *** C7 *)

(** The stranger 5 calls [rebalance] with the action data of the tests
    while the contract is paused: the error is [EnforcedPause]. *)
Lemma rebalance_unauthorized_while_paused :
  is_relayer (vmStore sample_paused) 5 = false /\
  5 <> vm_owner (vmStore sample_paused) /\
  abi_decode_strategyData (sample_action 30) = Ok ((-900000)%Z, 900000%Z, 30) /\
  rebalance (at_time 5 1000) 1 (sample_action 30) sample_paused = Revert EnforcedPause /\
  rebalance (at_time 5 1000) 1 (sample_action 30) sample_paused
    <> Revert UnauthorizedRelayer.
Proof. repeat apply conj; compute_it. Qed.

Lemma rebalance_unauthorized_witness :
  is_relayer (vmStore sample_funded) (msg_sender (at_time 5 1000)) = false /\
  msg_sender (at_time 5 1000) <> vm_owner (vmStore sample_funded) /\
  rebalance (at_time 5 1000) 1 (sample_action 30) sample_funded
    = Revert UnauthorizedRelayer /\
  transact sample_funded (at_time 5 1000, TxRebalance 1 (sample_action 30))
    = sample_funded.
Proof.
  assert (Hrel : is_relayer (vmStore sample_funded) (msg_sender (at_time 5 1000)) = false)
    by (vm_compute; reflexivity).
  assert (Hown : msg_sender (at_time 5 1000) <> vm_owner (vmStore sample_funded))
    by compute_it.
  do 2 (split; [assumption|]).
  exact (rebalance_unauthorized (at_time 5 1000) 1 (sample_action 30) sample_funded
           Hrel Hown).
Defined.

(** *** C8 *)

Lemma protocol_fee_bounded_witness :
  (exists e, setProtocolFee (at_time 1 990) 1001 sample_funded = Revert e) /\
  setProtocolFee (at_time 1 990) 1000 sample_funded
    = Ok (with_vm sample_funded (set_protocolFeeBps (vmStore sample_funded) 1000)) /\
  IVault.totalTokenA
    (vault_at (vmStore (transact sample_funded
                          (at_time 8 1000, TxRebalance 1 (sample_action 30)))) 1)
    = 10 ^ 19 - 10 ^ 19 * 50 / 10000.
Proof.
  destruct protocol_fee_bounded as (Hhigh & Hlow & Hfee & _).
  split; [|split].
  - apply (Hhigh (at_time 1 990) 1001 sample_funded). compute_it.
  - apply (Hlow (at_time 1 990) 1000 sample_funded); compute_it.
  - assert (Hok : rebalance (at_time 8 1000) 1 (sample_action 30) sample_funded
                    = Ok (transact sample_funded
                            (at_time 8 1000, TxRebalance 1 (sample_action 30))))
      by (vm_compute; reflexivity).
    destruct (Hfee _ _ _ _ _ Hok) as (_ & HtakenA & _).
    exact HtakenA.
Defined.

(** *** C9 *)

Lemma reallocatePct_is_dead_witness :
  abi_decode_strategyData (sample_action 30) = Ok ((-900000)%Z, 900000%Z, 30) /\
  abi_decode_strategyData (sample_action 70) = Ok ((-900000)%Z, 900000%Z, 70) /\
  match rebalance (at_time 8 1000) 1 (sample_action 30) sample_funded,
        rebalance (at_time 8 1000) 1 (sample_action 70) sample_funded with
  | Ok w1, Ok w2 => vmStore w1 = vmStore w2 /\ tokens w1 = tokens w2 /\ log w1 <> log w2
  | _, _ => False
  end.
Proof.
  assert (H30 : abi_decode_strategyData (sample_action 30)
                  = Ok ((-900000)%Z, 900000%Z, 30)) by (vm_compute; reflexivity).
  assert (H70 : abi_decode_strategyData (sample_action 70)
                  = Ok ((-900000)%Z, 900000%Z, 70)) by (vm_compute; reflexivity).
  do 2 (split; [assumption|]).
  pose proof (reallocatePct_is_dead (at_time 8 1000) 1 _ _ sample_funded _ _ _ _ H30 H70)
    as Hsame.
  assert (E1 : rebalance (at_time 8 1000) 1 (sample_action 30) sample_funded
                 = Ok (transact sample_funded
                         (at_time 8 1000, TxRebalance 1 (sample_action 30))))
    by (vm_compute; reflexivity).
  assert (E2 : rebalance (at_time 8 1000) 1 (sample_action 70) sample_funded
                 = Ok (transact sample_funded
                         (at_time 8 1000, TxRebalance 1 (sample_action 70))))
    by (vm_compute; reflexivity).
  rewrite E1, E2 in Hsame |- *.
  destruct Hsame as (Hvm & _ & Htok & _ & _ & Hlog1 & Hlog2).
  do 2 (split; [assumption|]). rewrite Hlog1, Hlog2. compute_it.
Defined.

(** *** C10 *)

Lemma withdraw_zero_from_empty_vault_witness :
  IVault.owner (vault_at (vmStore sample_open) 1) <> 0 /\
  IVault.totalShares (vault_at (vmStore sample_open) 1) = 0 /\
  withdraw (at_time 7 950) 1 0 sample_open = Revert PanicDivisionByZero.
Proof.
  assert (Hown : IVault.owner (vault_at (vmStore sample_open) 1) <> 0) by compute_it.
  assert (Hnone : IVault.totalShares (vault_at (vmStore sample_open) 1) = 0)
    by (vm_compute; reflexivity).
  do 2 (split; [assumption|]).
  exact (withdraw_zero_from_empty_vault (at_time 7 950) 1 sample_open Hown Hnone).
Defined.
End Examples.

(** * Worked examples of the further properties *)

Section MoreExamples.
#[local] Existing Instance MockERC20.
#[local] Existing Instance ToyPrimitives.
#[local] Existing Instance ToyAccounts.

Lemma sample_funded_reachable : reachable sample_funded.
Proof.
  exists 100, 200, 1, 1, 9, 100, sample_ledger, sample_genesis,
    (sample_setup ++ [(at_time 7 950, TxDeposit 1 (10 ^ 19) (6 * 10 ^ 9))]).
  split; vm_compute; reflexivity.
Defined.

Lemma mock_safeTransferFrom_errors token self from to value l :
  mock_safeTransferFrom token self from to value l <> Revert VaultInactive.
Proof.
  unfold mock_safeTransferFrom, mock_move.
  destruct (_ <? value); [discriminate|]. destruct (_ <? value); discriminate.
Defined.

(** A second vault cannot hold the zero address; with two tokens it
    gets the id 2. *)
Lemma createVault_behaviour_witness :
  createVault (at_time 5 990) 0 12 sample_params sample_funded = Revert InvalidTokens /\
  vaultCount (vmStore (transact sample_funded
                         (at_time 5 990, TxCreateVault 11 12 sample_params))) = 2.
Proof.
  split.
  - apply (proj1 (createVault_behaviour (at_time 5 990) 0 12 sample_params sample_funded)).
    + vm_compute. reflexivity.
    + left. reflexivity.
  - assert (Hok : createVault (at_time 5 990) 11 12 sample_params sample_funded
                  = Ok (2, transact sample_funded
                             (at_time 5 990, TxCreateVault 11 12 sample_params)))
      by (vm_compute; reflexivity).
    destruct (proj2 (createVault_behaviour (at_time 5 990) 11 12 sample_params
                       sample_funded) _ _ Hok) as (_ & _ & _ & _ & Hcount & _).
    exact Hcount.
Defined.

(** The depositor of the funded vault redeems all the shares. *)
Lemma first_deposit_round_trip_witness :
  exists w2 : @World MockLedger,
    withdraw (at_time 7 970) 1 244948974278317 sample_funded
      = Ok (10 ^ 19, 6 * 10 ^ 9, w2) /\
    IVault.totalShares (vault_at (vmStore w2) 1) = 0.
Proof.
  assert (Hdep : deposit (at_time 7 950) 1 (10 ^ 19) (6 * 10 ^ 9) sample_open
                 = Ok (244948974278317, sample_funded)) by (vm_compute; reflexivity).
  assert (H1 : safeTransfer (IVault.tokenA (vault_at (vmStore sample_open) 1))
                 (vmAddress sample_open) (msg_sender (at_time 7 950)) (10 ^ 19)
                 (tokens sample_funded) = Ok sample_half_paid)
    by (vm_compute; reflexivity).
  assert (H2 : safeTransfer (IVault.tokenB (vault_at (vmStore sample_open) 1))
                 (vmAddress sample_open) (msg_sender (at_time 7 950)) (6 * 10 ^ 9)
                 sample_half_paid = Ok (tokens sample_emptied))
    by (vm_compute; reflexivity).
  assert (HS : IVault.totalShares (vault_at (vmStore sample_open) 1) = 0)
    by (vm_compute; reflexivity).
  assert (HA : IVault.totalTokenA (vault_at (vmStore sample_open) 1) = 0)
    by (vm_compute; reflexivity).
  assert (HB : IVault.totalTokenB (vault_at (vmStore sample_open) 1) = 0)
    by (vm_compute; reflexivity).
  assert (F1 : 244948974278317 * 10 ^ 19 <= MAX_UINT256) by compute_it.
  assert (F2 : 244948974278317 * (6 * 10 ^ 9) <= MAX_UINT256) by compute_it.
  destruct (first_deposit_round_trip (at_time 7 950) (at_time 7 970) 1
              (10 ^ 19) (6 * 10 ^ 9) 244948974278317 sample_open sample_funded
              sample_half_paid (tokens sample_emptied) HS HA HB Hdep eq_refl F1 F2 H1 H2)
    as (w2 & Hw & Hempty & _).
  exists w2. split; assumption.
Defined.

Lemma withdraw_never_dilutes_witness :
  (1000 * 10 ^ 19 / 244948974278317) * 244948974278317 <= 1000 * 10 ^ 19.
Proof.
  assert (Hok : withdraw (at_time 7 970) 1 1000 sample_funded
                = Ok (1000 * 10 ^ 19 / 244948974278317,
                      1000 * (6 * 10 ^ 9) / 244948974278317,
                      transact sample_funded (at_time 7 970, TxWithdraw 1 1000)))
    by (vm_compute; reflexivity).
  exact (proj1 (withdraw_never_dilutes _ _ _ _ _ _ _ Hok)).
Defined.

Lemma deposit_never_dilutes_witness :
  244948974278317 * 10 ^ 19 <= 10 ^ 19 * 244948974278317.
Proof.
  assert (Hok : deposit (at_time 7 960) 1 (10 ^ 19) (6 * 10 ^ 9) sample_funded
                = Ok (244948974278317,
                      transact sample_funded
                        (at_time 7 960, TxDeposit 1 (10 ^ 19) (6 * 10 ^ 9))))
    by (vm_compute; reflexivity).
  refine (proj1 (deposit_never_dilutes _ _ _ _ _ _ _ Hok _)). compute_it.
Defined.

Lemma vaults_stay_well_formed_witness :
  IVault.isActive (vault_at (vmStore sample_funded) 1) = true /\
  deposit (at_time 7 960) 1 (10 ^ 19) 5 sample_funded <> Revert VaultInactive.
Proof.
  destruct (vaults_stay_well_formed sample_funded sample_funded_reachable)
    as (_ & Hactive & Hdeposit & _).
  split.
  - apply Hactive. compute_it.
  - apply Hdeposit. apply mock_safeTransferFrom_errors.
Defined.

Lemma vault_identity_is_permanent_witness :
  exists v' : IVault.VaultInfo,
    vaults (vmStore (transact_all sample_funded
                       [(at_time 7 970, TxWithdraw 1 1000);
                        (at_time 5 990, TxCreateVault 11 12 sample_params)])) !! 1
      = Some v' /\
    same_identity (vault_at (vmStore sample_funded) 1) v'.
Proof.
  refine (proj2 (vault_identity_is_permanent sample_funded 1
                   (vault_at (vmStore sample_funded) 1) _ sample_funded_reachable _)).
  vm_compute. reflexivity.
Defined.

(** The stranger 5 sends an owner's call. *)
Lemma settings_need_the_owner_witness :
  vm_settings (vmStore (transact sample_funded (at_time 5 990, TxSetProtocolFee 0)))
    = vm_settings (vmStore sample_funded).
Proof.
  apply (proj1 (settings_need_the_owner (at_time 5 990) (TxSetProtocolFee 0)
                  sample_funded)); compute_it.
Defined.

Lemma fee_recipient_never_zero_witness : feeRecipient (vmStore sample_funded) <> 0.
Proof. exact (fee_recipient_never_zero sample_funded sample_funded_reachable). Defined.

Lemma withdraw_ignores_pause_witness :
  deposit (at_time 7 970) 1 (10 ^ 19) (6 * 10 ^ 9) sample_paused = Revert EnforcedPause.
Proof.
  refine (proj1 (proj2 (withdraw_ignores_pause (at_time 7 970) 1 sample_paused _)) _ _).
  vm_compute. reflexivity.
Defined.

Lemma attached_strategy_is_inert_witness :
  IVault.strategy
    (vault_at (vmStore (transact sample_funded (at_time 7 960, TxAttachStrategy 1 77))) 1)
    = 77.
Proof.
  assert (Hok : attachStrategy (at_time 7 960) 1 77 sample_funded
                = Ok (transact sample_funded (at_time 7 960, TxAttachStrategy 1 77)))
    by (vm_compute; reflexivity).
  destruct (attached_strategy_is_inert _ _ _ _ _ Hok) as (_ & _ & Hwritten & _).
  rewrite Hwritten. reflexivity.
Defined.



Lemma executor_needs_the_vault_manager_witness :
  exists e : Error,
    executeRebalance (at_time 5 1000) 1 sample_signed sample_signature sample_paused
      = Revert e.
Proof.
  refine (proj1 (executor_needs_the_vault_manager (at_time 5 1000) 1 sample_signed
                   sample_signature sample_paused _ _)).
  - vm_compute. reflexivity.
  - left. vm_compute. reflexivity.
Defined.

Lemma signer_authorization_witness :
  is_signer
    (exStore (transact sample_funded (at_time 1 990, TxSetSignerAuthorization 6 false))) 6
    = false.
Proof.
  assert (Hok : setSignerAuthorization (at_time 1 990) 6 false sample_funded
                = Ok (transact sample_funded
                        (at_time 1 990, TxSetSignerAuthorization 6 false)))
    by (vm_compute; reflexivity).
  destruct (signer_authorization _ _ _ _ _ Hok) as (_ & _ & Hset & _). exact Hset.
Defined.

(** A deposit of [10^6] of each token into the skewed vault. *)
Lemma deposit_can_mint_nothing_witness :
  deposit (at_time 7 960) 1 (10 ^ 6) (10 ^ 6) sample_skewed
    = Ok (0, transact sample_skewed (at_time 7 960, TxDeposit 1 (10 ^ 6) (10 ^ 6))) /\
  IVault.totalTokenA
    (vault_at (vmStore (transact sample_skewed
                          (at_time 7 960, TxDeposit 1 (10 ^ 6) (10 ^ 6)))) 1)
    = IVault.totalTokenA (vault_at (vmStore sample_skewed) 1) + 10 ^ 6.
Proof.
  assert (Hok : deposit (at_time 7 960) 1 (10 ^ 6) (10 ^ 6) sample_skewed
                = Ok (0, transact sample_skewed
                           (at_time 7 960, TxDeposit 1 (10 ^ 6) (10 ^ 6))))
    by (vm_compute; reflexivity).
  split; [exact Hok|].
  refine (proj1 (proj2 (proj2 (deposit_can_mint_nothing _ _ _ _ _ _ _ Hok _ _)))).
  - compute_it.
  - left. vm_compute. reflexivity.
Defined.

Lemma strategyData_round_trip_witness :
  abi_decode_strategyData (sample_action 30 ++ []) = Ok ((-900000)%Z, 900000%Z, 30).
Proof.
  refine (proj1 (strategyData_round_trip (-900000) 900000 30 [] _ _ _));
    try (split; compute_it); compute_it.
Defined.

(** The full history of token 11 slides by one. *)
Lemma updatePrice_slides_the_window_witness :
  exists st' : MockOracle.Storage,
    MockOracle.updatePrice (at_time 1 100) 11 4 sample_oracle = Ok st' /\
    MockOracle.history_at st' 11 = [2; 3; 4].
Proof.
  destruct (proj2 (MockOracleFacts.updatePrice_slides_the_window (at_time 1 100) 11 4
                     sample_oracle) eq_refl)
    as (st' & Hok & Hhistory & _).
  exists st'. split; [exact Hok|]. rewrite Hhistory. vm_compute. reflexivity.
Defined.

(** A batch outgrows the limit of three. *)
Lemma batchUpdatePrices_never_trims_witness :
  exists st' : MockOracle.Storage,
    MockOracle.batchUpdatePrices (at_time 1 100) [11; 12; 11] [4; 7; 5] sample_oracle
      = Ok st' /\
    MockOracle.history_at st' 11 = [1; 2; 3; 4; 5].
Proof.
  destruct (proj2 (MockOracleFacts.batchUpdatePrices_never_trims (at_time 1 100)
                     [11; 12; 11] [4; 7; 5] sample_oracle eq_refl) eq_refl)
    as (st' & Hok & Hhistory & _).
  exists st'. split; [exact Hok|]. rewrite Hhistory. vm_compute. reflexivity.
Defined.

Lemma calculateVolatility_spec_witness :
  MockOracle.calculateVolatility sample_oracle 13 = Ok 0 /\
  MockOracle.calculateVolatility sample_oracle 12 = Ok 0.
Proof.
  split.
  - apply (proj1 (MockOracleFacts.calculateVolatility_spec sample_oracle 13)).
    vm_compute. lia.
  - pose proof (proj2 (proj2 (MockOracleFacts.calculateVolatility_spec sample_oracle 12)))
      as U. cbv zeta in U.
    assert (Hhistory : MockOracle.history_at sample_oracle 12 = [7; 7])
      by (vm_compute; reflexivity).
    rewrite Hhistory in U.
    destruct U as (hi & lo & _ & _ & _ & _ & _ & Hsame).
    + cbn [length]. lia.
    + compute_it.
    + apply Hsame. intros p q Hp Hq. cbn [In] in Hp, Hq. intuition congruence.
Defined.

Lemma volatility_is_staleness_witness :
  StrategyManager._calculateVolatility 2000 sample_manager 11 12 = Ok 300.
Proof.
  refine (proj1 (volatility_is_staleness 2000 sample_manager 11 12)
            _ _); compute_it.
Defined.

Lemma checkRebalance_within_cooldown_witness :
  StrategyManager.checkRebalance 1000 sample_manager (vmStore sample_funded) 1
    = Ok (false, abi_encode_string (list_byte_of_string "Cooldown not passed")).
Proof.
  refine (proj1 (checkRebalance_within_cooldown (Ledger := MockLedger) 1000 sample_manager
                   (vmStore sample_funded) 1) _ _); compute_it.
Defined.

Lemma checkRebalance_advice_witness :
  abi_decode_strategyData sample_advice = Ok ((-887340)%Z, 887340%Z, 30).
Proof.
  assert (Hok : StrategyManager.checkRebalance 10000 sample_manager
                  (vmStore sample_funded) 1 = Ok (true, sample_advice))
    by (vm_compute; reflexivity).
  pose proof (checkRebalance_advice (Ledger := MockLedger) _ _ _ _ _ Hok) as U.
  cbv zeta in U. destruct U as (_ & _ & _ & _ & Hdecode & _).
  rewrite Hdecode. vm_compute. reflexivity.
Defined.

Lemma negative_advice_decodes_witness :
  exists reallocatePct : N,
    abi_decode_strategyData
      (abi_encode_string (list_byte_of_string "Cooldown not passed"))
      = Ok (32%Z, 19%Z, reallocatePct).
Proof.
  refine (negative_advice_decodes 1000 sample_manager
            (vmStore sample_funded) 1 _ _).
  vm_compute. reflexivity.
Defined.
End MoreExamples.
